(** * MobAI: the dynamic planning-and-execution loop

    A shallow embedding of the control loop of the mobile automation agent:

    - [dynamic_planner.py]: [UIContext] (the unified element index),
      [CompletedStep], [NextStep], [PlanningResult], [_fallback_plan];
    - [value_objects/point.py]: [Point] and its validation;
    - [action_executor.py]: the [ActionExecutorAgent] and its recovery engine;
    - [modular_orchestrator.py]: [ModularOrchestrator.execute_task] and its
      helper predicates.

    Python values are modelled as follows.  A [str] is a list of Unicode code
    points; a [dict] with string keys is a [gmap]; a [set] is a [gset]; a
    UI element (a [dict] with a fixed set of keys) is a record whose fields
    are [option]s, [None] standing for an absent key.  Calls to the outside
    world (the language model, the device, the callbacks) are functions on an
    abstract world state that is threaded through the code, and every such
    call is recorded in a log so that the order of effects can be stated. *)

From Stdlib Require Import ZArith NArith List Bool Lia QArith DecimalZ Decimal.
From stdpp Require Import base list gmap strings.
From Stdlib Require Import Ascii.

Local Open Scope Z_scope.

(** ** Python strings *)

Module Py.

(** A Python [str] is a sequence of code points. *)
Definition char : Type := N.
Definition str : Type := list char.

(** Source literals are written [py "..."]: the UTF-8 bytes of the Rocq
    literal are decoded into code points. *)
Fixpoint utf8_decode (bs : list N) : str :=
  match bs with
  | [] => []
  | b :: r =>
    if (b <? 128)%N then b :: utf8_decode r
    else if (b <? 224)%N then
      match r with
      | c1 :: r1 => ((b - 192) * 64 + (c1 - 128))%N :: utf8_decode r1
      | _ => []
      end
    else if (b <? 240)%N then
      match r with
      | c1 :: c2 :: r2 =>
          ((b - 224) * 4096 + (c1 - 128) * 64 + (c2 - 128))%N :: utf8_decode r2
      | _ => []
      end
    else
      match r with
      | c1 :: c2 :: c3 :: r3 =>
          ((b - 240) * 262144 + (c1 - 128) * 4096 + (c2 - 128) * 64 + (c3 - 128))%N
            :: utf8_decode r3
      | _ => []
      end
  end.

Definition py (s : string) : str :=
  utf8_decode (map N_of_ascii (String.list_ascii_of_string s)).
Arguments py : simpl never.

(** [str.isspace] per code point: the characters [str.strip()] removes. *)
Definition is_space (c : char) : bool :=
  ((9 <=? c) && (c <=? 13) || (28 <=? c) && (c <=? 32)
   || (c =? 133) || (c =? 160) || (c =? 5760)
   || (8192 <=? c) && (c <=? 8202)
   || (c =? 8232) || (c =? 8233) || (c =? 8239) || (c =? 8287)
   || (c =? 12288))%N.

Fixpoint lstrip (s : str) : str :=
  match s with
  | c :: r => if is_space c then lstrip r else s
  | [] => []
  end.

Definition rstrip (s : str) : str := rev (lstrip (rev s)).

(** [s.strip()] *)
Definition strip (s : str) : str := rstrip (lstrip s).

(** [s.lower()], on the ASCII letters; other code points are kept (the
    keywords the code compares against are ASCII or caseless). *)
Definition lower_char (c : char) : char :=
  if ((65 <=? c) && (c <=? 90))%N then (c + 32)%N else c.

Definition lower (s : str) : str := map lower_char s.

(** [s.upper()], same convention. *)
Definition upper_char (c : char) : char :=
  if ((97 <=? c) && (c <=? 122))%N then (c - 32)%N else c.

Definition upper (s : str) : str := map upper_char s.

Definition eqb (a b : str) : bool := bool_decide (a = b).

(** [s.startswith(p)] *)
Fixpoint startswith (s p : str) {struct p} : bool :=
  match p, s with
  | [], _ => true
  | c :: p', d :: s' => (c =? d)%N && startswith s' p'
  | _ :: _, [] => false
  end.

(** [sub in s] *)
Fixpoint contains (s sub : str) : bool :=
  startswith s sub ||
  match s with
  | [] => false
  | _ :: r => contains r sub
  end.

(** [c in s] for a single character. *)
Definition has_char (s : str) (c : char) : bool := existsb (N.eqb c) s.

(** [s[:n]] and [s[-n:]] for [n > 0]. *)
Definition slice_to (n : nat) (s : str) : str := take n s.
Definition slice_last (n : nat) (s : str) : str := drop (length s - n) s.

(** [s.replace(c, '')] for a one-character [c]. *)
Definition remove_char (c : char) (s : str) : str :=
  filter (fun d => d ≠ c) s.

(** [sep.join(parts)] *)
Fixpoint join (sep : str) (parts : list str) : str :=
  match parts with
  | [] => []
  | [p] => p
  | p :: rest => p ++ sep ++ join sep rest
  end.

(** [s.split(sep, 1)] for a one-character separator: the part before the
    first occurrence and, when there is one, the part after it. *)
Fixpoint split1 (sep : char) (s : str) : str * option str :=
  match s with
  | [] => ([], None)
  | c :: r =>
    if (c =? sep)%N then ([], Some r)
    else let '(a, b) := split1 sep r in (c :: a, b)
  end.

(** [str(n)] for an [int]: decimal digits with a leading minus sign. *)
Fixpoint uint_chars (u : Decimal.uint) : str :=
  match u with
  | Nil => []
  | D0 u => 48%N :: uint_chars u
  | D1 u => 49%N :: uint_chars u
  | D2 u => 50%N :: uint_chars u
  | D3 u => 51%N :: uint_chars u
  | D4 u => 52%N :: uint_chars u
  | D5 u => 53%N :: uint_chars u
  | D6 u => 54%N :: uint_chars u
  | D7 u => 55%N :: uint_chars u
  | D8 u => 56%N :: uint_chars u
  | D9 u => 57%N :: uint_chars u
  end.

Definition str_of_int (z : Z) : str :=
  match Z.to_int z with
  | Pos u => uint_chars u
  | Neg u => 45%N :: uint_chars u
  end.

(** Truthiness of a string: non-empty. *)
Definition truthy (s : str) : bool :=
  match s with [] => false | _ => true end.

(** [a or b] on strings. *)
Definition or_else (a b : str) : str := if truthy a then a else b.

(** Values that can occur in a decoded JSON object of the planner. *)
Inductive value : Type :=
| VNone
| VBool (b : bool)
| VInt (z : Z)
| VStr (s : str).

#[global] Instance value_eq_dec : EqDecision value.
Proof. solve_decision. Defined.

(** [bool(v)] *)
Definition value_truthy (v : value) : bool :=
  match v with
  | VNone => false
  | VBool b => b
  | VInt z => negb (z =? 0)
  | VStr s => truthy s
  end.

(** [a == b]: a [bool] compares as the integer it is. *)
Definition value_eqb (a b : value) : bool :=
  match a, b with
  | VNone, VNone => true
  | VStr s, VStr t => eqb s t
  | VInt x, VInt y => x =? y
  | VBool x, VBool y => Bool.eqb x y
  | VBool x, VInt y | VInt y, VBool x => (if x then 1 else 0) =? y
  | _, _ => false
  end.

(** [str(v)] as an f-string renders it. *)
Definition str_of_value (v : value) : str :=
  match v with
  | VNone => py "None"
  | VBool true => py "True"
  | VBool false => py "False"
  | VInt z => str_of_int z
  | VStr s => s
  end.

(** [isinstance(v, int)]: [bool] is a subclass of [int]. *)
Definition as_int_instance (v : value) : option Z :=
  match v with
  | VInt z => Some z
  | VBool b => Some (if b then 1 else 0)
  | _ => None
  end.

(** Exceptions, and the outcome of a computation that may raise. *)
Inductive exn : Type :=
| ValueError (msg : str)
| TypeError (msg : str)
| IndexError (msg : str)
| TimeoutError
| OtherError (msg : str).

(** [str(e)] *)
Definition exn_str (e : exn) : str :=
  match e with
  | ValueError m | TypeError m | IndexError m | OtherError m => m
  | TimeoutError => []
  end.

Inductive may_raise (A : Type) : Type :=
| Ok (a : A)
| Raise (e : exn).
Arguments Ok {A} a.
Arguments Raise {A} e.

End Py.

Import Py.


(** ** The UI snapshot ([dynamic_planner.py], class [UIContext]) *)

(** One element of the UI hierarchy: a [dict]; a field is [None] when the
    key is absent. *)
Module UIElement.
Record t : Type := mk {
  text : option str;
  content_desc : option str;
  class_name : option str;
  class : option str;
  hint : option str;
  clickable : option bool;
  scrollable : option bool;
  center : option (Z * Z);
}.

(** [e.get(key, '')] *)
Definition get_str (o : option str) : str := default [] o.

#[global] Instance eq_dec : EqDecision t.
Proof. solve_decision. Defined.
End UIElement.

Module UIContext.
Import UIElement.

Record t : Type := mk {
  elements : list UIElement.t;
  screenshot : option (list N);
}.

(** One entry of the index: [(编号, 名称, 元素)]. *)
Definition entry : Type := Z * str * UIElement.t.

(** The locals of the loop of [_build_indexed_elements]. *)
Record locals : Type := mk_locals {
  result : list entry;
  idx : Z;
  name_counter : gmap str Z;
}.

(** [class_name = e.get('class_name', '').lower() or e.get('class', '').lower()] *)
Definition class_name_of (e : UIElement.t) : str :=
  or_else (lower (get_str (class_name e))) (lower (get_str (class e))).

(** [is_input = 'edittext' in class_name or 'input' in class_name] *)
Definition is_input (e : UIElement.t) : bool :=
  contains (class_name_of e) (py "edittext") || contains (class_name_of e) (py "input").

(** [name = text or desc], shortened when longer than 30 characters. *)
Definition label_of (e : UIElement.t) : str :=
  let text := strip (get_str (text e)) in
  let desc := strip (get_str (content_desc e)) in
  let name := or_else text desc in
  if truthy name && (30 <? length name)%nat
  then slice_to 15 name ++ py "..." ++ slice_last 10 name
  else name.

(** The name of an element when the loop counter is [i]: the label, or for
    an input field without one, its hint or a generated placeholder. *)
Definition name_of (i : Z) (e : UIElement.t) : str :=
  let name := label_of e in
  if negb (truthy name) && is_input e then
    let hint := strip (get_str (hint e)) in
    if truthy hint then hint else py "[输入框" ++ str_of_int i ++ py "]"
  else name.

(** [f"{name}@({center[0]},{center[1]})"] *)
Definition with_position (name : str) (c : Z * Z) : str :=
  name ++ py "@(" ++ str_of_int (fst c) ++ py "," ++ str_of_int (snd c) ++ py ")".

(** One iteration of the loop body. *)
Definition build_step (clickable_only : bool) (st : locals) (e : UIElement.t) : locals :=
  let clickable := default false (clickable e) in
  let center := default (0, 0) (center e) in
  let name := name_of (idx st) e in
  let should_include :=
    if clickable_only then truthy name && (clickable || is_input e)
    else truthy name in
  if should_include then
    let '(display_name, counter) :=
      match name_counter st !! name with
      | Some n => (with_position name center, <[name := n + 1]> (name_counter st))
      | None => (name, <[name := 1]> (name_counter st))
      end in
    {| result := result st ++ [(idx st, display_name, e)];
       idx := idx st + 1;
       name_counter := counter |}
  else st.

Definition _build_indexed_elements (self : t) (clickable_only : bool) : list entry :=
  result (fold_left (build_step clickable_only) (elements self)
            {| result := []; idx := 1; name_counter := ∅ |}).

Definition get_indexed_clickable_elements (self : t) : list entry :=
  _build_indexed_elements self true.

Definition get_indexed_all_elements (self : t) : list entry :=
  _build_indexed_elements self false.

(** [all_indexed[index - 1][2]] under the guard
    [isinstance(index, int) and 1 <= index <= len(all_indexed)]; the
    subscript raises [IndexError] outside the list. *)
Definition get_element_by_index (self : t) (index : value) : may_raise (option UIElement.t) :=
  let all_indexed := _build_indexed_elements self false in
  match as_int_instance index with
  | Some i =>
    if (1 <=? i) && (i <=? Z.of_nat (length all_indexed)) then
      match all_indexed !! Z.to_nat (i - 1) with
      | Some en => Ok (Some (snd en))
      | None => Raise (IndexError (py "list index out of range"))
      end
    else Ok None
  | None => Ok None
  end.

Definition get_clickable_elements (self : t) : list str :=
  map (fun en => snd (fst en)) (get_indexed_clickable_elements self).

Definition get_all_elements (self : t) : list str :=
  map (fun en => snd (fst en)) (get_indexed_all_elements self).

End UIContext.

(** ** Planner data ([dynamic_planner.py]) *)

(** A [dict] of action parameters, as decoded from the planner's JSON. *)
Abbreviation params := (gmap string value).

(** [d.get(key, default)] *)
Definition dict_get (d : params) (key : string) (dflt : value) : value :=
  default dflt (d !! key).

(** [key in d] *)
Definition dict_has (d : params) (key : string) : bool :=
  bool_decide (is_Some (d !! key)).

Module CompletedStep.
Record t : Type := mk {
  action : str;
  target : option str;
  description : str;
  success : bool;
  error : option str;
  parameters : params;
  ui_before : list str;
  ui_after : list str;
  ui_changed : bool;
  retry_count : Z;
}.

(** The two assignments the orchestrator makes to a recorded step. *)
Definition set_ui_after (s : t) (v : list str) : t :=
  mk (action s) (target s) (description s) (success s) (error s) (parameters s)
     (ui_before s) v (ui_changed s) (retry_count s).

Definition set_ui_changed (s : t) (v : bool) : t :=
  mk (action s) (target s) (description s) (success s) (error s) (parameters s)
     (ui_before s) (ui_after s) v (retry_count s).
End CompletedStep.

Module NextStep.
Record t : Type := mk {
  action : str;
  target : option str;
  target_index : value;
  parameters : params;
  description : str;
}.

Definition set_target (s : t) (v : option str) : t :=
  mk (action s) v (target_index s) (parameters s) (description s).

Definition set_target_index (s : t) (v : value) : t :=
  mk (action s) (target s) v (parameters s) (description s).

(** [self.parameters[key] = v] *)
Definition set_parameter (s : t) (key : string) (v : value) : t :=
  mk (action s) (target s) (target_index s) (<[key := v]> (parameters s)) (description s).
End NextStep.

Module PlanningResult.
Record t : Type := mk {
  next_step : option NextStep.t;
  next_steps : option (list NextStep.t);
  task_complete : bool;
  reason : str;
  confidence : Q;
}.

Definition has_batch_steps (self : t) : bool :=
  match next_steps self with
  | Some l => (0 <? length l)%nat
  | None => false
  end.

Definition get_all_steps (self : t) : list NextStep.t :=
  if has_batch_steps self then default [] (next_steps self)
  else match next_step self with
       | Some s => [s]
       | None => []
       end.
End PlanningResult.

(** ** Points ([value_objects/point.py]) *)

Module Point.
Record t : Type := mk { x : Z; y : Z }.

Definition __post_init__ (self : t) : may_raise unit :=
  if (x self <? 0) || (y self <? 0)
  then Raise (ValueError (py "Point coordinates must be non-negative"))
  else Ok tt.

(** [Point(x, y)]: the dataclass constructor followed by [__post_init__]. *)
Definition new (x y : Z) : may_raise t :=
  match __post_init__ (mk x y) with
  | Ok _ => Ok (mk x y)
  | Raise e => Raise e
  end.
End Point.

(** ** Stateful code that may raise *)

(** A computation over a state [S]: it ends with a value or an exception,
    and the state reached is kept in both cases (what was done before a
    [raise] stays done). *)
Module SE.
Definition M (S A : Type) : Type := S -> may_raise A * S.

Definition ret {S A} (a : A) : M S A := fun s => (Ok a, s).

Definition bind {S A B} (m : M S A) (f : A -> M S B) : M S B :=
  fun s => match m s with
           | (Ok a, s') => f a s'
           | (Raise e, s') => (Raise e, s')
           end.

Definition raise {S A} (e : exn) : M S A := fun s => (Raise e, s).

Definition get {S} : M S S := fun s => (Ok s, s).

Definition modify {S} (f : S -> S) : M S unit := fun s => (Ok tt, f s).

(** [try: m except Exception as e: h e] *)
Definition try_except {S A} (m : M S A) (h : exn -> M S A) : M S A :=
  fun s => match m s with
           | (Ok a, s') => (Ok a, s')
           | (Raise e, s') => h e s'
           end.

(** A pure computation that may raise. *)
Definition lift {S A} (r : may_raise A) : M S A := fun s => (r, s).
End SE.

#[global] Instance SE_ret {S} : MRet (SE.M S) := fun A => @SE.ret S A.
#[global] Instance SE_bind {S} : MBind (SE.M S) := fun A B f m => @SE.bind S A B m f.

(** ** The action executor ([action_executor.py]) *)

Module AgentResult.
(** [AgentResult]; the [actions] and [data] dictionaries, which the
    orchestrator never reads, are left out. *)
Record t : Type := mk {
  success : bool;
  message : str;
  next_step : option str;
  error : option str;
}.

Definition success_result (message : str) (next_step : option str) : t :=
  mk true message next_step None.

Definition failure_result (error : str) (message : str) : t :=
  mk false message None (Some error).
End AgentResult.

Module AgentContext.
(** [AgentContext]: [steps] is [metadata["plan"]["steps"]] (empty when
    absent), [screen_info] holds the [width] and [height] entries. *)
Record t : Type := mk {
  instruction : str;
  screen_info : option (option Z * option Z);
  ui_elements : list UIElement.t;
  current_step : nat;
  steps : list NextStep.t;
}.
End AgentContext.

Module Executor.

(** What the executor does to the outside: calls of the device controller,
    and sleeps (in milliseconds). *)
Inductive effect : Type :=
| Tap (point : Point.t)
| Swipe (start end_ : Point.t) (duration_ms : value)
| InputText (text : value)
| PressKey (key : value)
| Sleep (ms : Z).

(** The dictionary an [_execute_*] method returns. *)
Record outcome : Type := mk_outcome {
  success : bool;
  error : option str;
  needs_recovery : bool;
}.

(** The dictionary a recovery method returns. *)
Record recovery : Type := mk_recovery {
  recovered : bool;
  action_taken : option str;
  reason : option str;
}.

(** The language model as the executor uses it.  Each field stands for one
    request together with the decoding of its JSON answer; it raises when
    the request or the decoding does. *)
Record LLMProvider (W : Type) : Type := mk_llm {
  (** [_llm_decide_recovery]: the decoded [strategy] and [element_index]. *)
  decide_recovery :
    str -> option str -> AgentContext.t -> NextStep.t -> Z -> W -> may_raise (str * value) * W;
}.
Arguments decide_recovery {W} _ _ _ _ _ _ _.

(** [ActionExecutorAgent]'s fields.  [device] answers a device call: it may
    raise.  [find_element] is [_find_element_by_target_async], the search of
    an element by its text (string rules, then the language model): it
    returns an element or nothing, and nothing proved below depends on
    which. *)
Record t (W : Type) : Type := mk {
  device_controller : option (effect -> W -> option exn * W);
  llm_provider : option (LLMProvider W);
  find_element : str -> list UIElement.t -> W -> option UIElement.t * W;
  max_recovery_attempts : Z;
}.
Arguments device_controller {W} _.
Arguments llm_provider {W} _.
Arguments find_element {W} _ _ _ _.
Arguments max_recovery_attempts {W} _.

(** The mutable part: the world, the effects so far (latest last), and
    [self.recovery_history] (the [failed_target] of each entry). *)
Record state (W : Type) : Type := mk_state {
  world : W;
  log : list effect;
  recovery_history : list (option str);
}.
Arguments mk_state {W} _ _ _.
Arguments world {W} _.
Arguments log {W} _.
Arguments recovery_history {W} _.

Section Methods.
Context {W : Type}.
(** Python's [int(s)] on a string, and [int(n * f)] for a float literal [f]
    (binary floating point is not modelled). *)
Variable int_of_str : str -> may_raise Z.
Variable int_mul : Z -> Q -> Z.
Variable self : t W.

Abbreviation Exec := (SE.M (state W)).

(** [await asyncio.sleep(ms / 1000)] *)
Definition sleep (ms : Z) : Exec unit :=
  SE.modify (fun s => mk_state (world s) (log s ++ [Sleep ms]) (recovery_history s)).

(** [await self.device_controller.<call>]: the call is made, then it
    returns or raises. *)
Definition device (c : effect) : Exec unit :=
  fun s =>
    match device_controller self with
    | Some dev =>
      let '(r, w) := dev c (world s) in
      let s' := mk_state w (log s ++ [c]) (recovery_history s) in
      match r with
      | None => (Ok tt, s')
      | Some e => (Raise e, s')
      end
    | None => (Raise (OtherError (py "'NoneType' object has no attribute")), s)
    end.

(** [int(v)] *)
Definition int_of_value (v : value) : may_raise Z :=
  match v with
  | VInt z => Ok z
  | VBool b => Ok (if b then 1 else 0)
  | VStr s => int_of_str s
  | VNone => Raise (TypeError (py "int() argument must be a string or a number"))
  end.

Definition _execute_tap (target : option str) (parameters : params)
    (context : AgentContext.t) : Exec outcome :=
  point ←
    (if dict_has parameters "x" && dict_has parameters "y" then
       px ← SE.lift (int_of_value (dict_get parameters "x" VNone));
       py_ ← SE.lift (int_of_value (dict_get parameters "y" VNone));
       p ← SE.lift (Point.new px py_);
       mret (Some p)
     else
       match target, AgentContext.ui_elements context with
       | Some tg, _ :: _ =>
         if truthy tg then
           element ← (fun s =>
                        let '(e, w) := find_element self tg (AgentContext.ui_elements context) (world s) in
                        (Ok e, mk_state w (log s) (recovery_history s)));
           match element with
           | Some e =>
             match UIElement.center e with
             | Some c => p ← SE.lift (Point.new (fst c) (snd c)); mret (Some p)
             | None => mret None
             end
           | None => mret None
           end
         else mret None
       | _, _ => mret None
       end);
  match point with
  | None =>
    mret (mk_outcome false
            (Some (py "Could not find target: " ++ from_option id (py "None") target)) true)
  | Some p =>
    device (Tap p);;
    mret (mk_outcome true None false)
  end.

Definition _execute_swipe (parameters : params) (context : AgentContext.t) : Exec outcome :=
  let screen_info := default (None, None) (AgentContext.screen_info context) in
  let width := default 1080 (fst screen_info) in
  let height := default 1920 (snd screen_info) in
  let direction := dict_get parameters "direction" (VStr (py "down")) in
  let duration := dict_get parameters "duration_ms" (VInt 500) in
  let center_x := width `div` 2 in
  let center_y := height `div` 2 in
  let swipe (a b c d : Z) : Exec outcome :=
    start ← SE.lift (Point.new a b);
    end_ ← SE.lift (Point.new c d);
    device (Swipe start end_ duration);;
    mret (mk_outcome true None false) in
  if value_eqb direction (VStr (py "up")) then
    swipe center_x (int_mul height (7 # 10)) center_x (int_mul height (3 # 10))
  else if value_eqb direction (VStr (py "down")) then
    swipe center_x (int_mul height (3 # 10)) center_x (int_mul height (7 # 10))
  else if value_eqb direction (VStr (py "left")) then
    swipe (int_mul width (8 # 10)) center_y (int_mul width (2 # 10)) center_y
  else if value_eqb direction (VStr (py "right")) then
    swipe (int_mul width (2 # 10)) center_y (int_mul width (8 # 10)) center_y
  else
    mret (mk_outcome false
            (Some (py "Unknown direction: " ++ str_of_value direction)) false).

(** [a or b] on values. *)
Definition value_or (a b : value) : value := if value_truthy a then a else b.

Definition _execute_input (parameters : params) (target : option str) : Exec outcome :=
  let text :=
    value_or (value_or (dict_get parameters "text" (VStr []))
                       (dict_get parameters "content" (VStr [])))
             (VStr []) in
  if negb (value_truthy text) then
    mret (mk_outcome false (Some (py "No text provided in parameters")) true)
  else
    device (InputText text);;
    mret (mk_outcome true None false).

Definition _execute_wait (parameters : params) : Exec outcome :=
  match dict_get parameters "duration_ms" (VInt 1000) with
  | VInt ms => sleep ms;; mret (mk_outcome true None false)
  | VBool b => sleep (if b then 1 else 0);; mret (mk_outcome true None false)
  | _ => SE.raise (TypeError (py "unsupported operand type(s) for /"))
  end.

Definition _execute_scroll (parameters : params) (context : AgentContext.t) : Exec outcome :=
  let direction := dict_get parameters "direction" (VStr (py "down")) in
  _execute_swipe {[ "direction" := direction ]} context.

Definition _execute_back : Exec outcome :=
  device (PressKey (VStr (py "BACK")));; mret (mk_outcome true None false).

Definition _execute_home : Exec outcome :=
  device (PressKey (VStr (py "HOME")));; mret (mk_outcome true None false).

(** The table [key_map] of [_execute_press_key]. *)
Definition key_map : list (string * string) :=
  [ ("ENTER", "ENTER"); ("BACK", "BACK"); ("HOME", "HOME"); ("MENU", "MENU");
    ("RECENT", "RECENT"); ("RECENTS", "RECENT"); ("SEARCH", "SEARCH");
    ("VOLUME_UP", "VOLUME_UP"); ("VOLUMEUP", "VOLUME_UP");
    ("VOLUME_DOWN", "VOLUME_DOWN"); ("VOLUMEDOWN", "VOLUME_DOWN");
    ("POWER", "POWER"); ("TAB", "TAB"); ("DELETE", "DEL"); ("BACKSPACE", "DEL");
    ("DEL", "DEL"); ("UP", "UP"); ("DOWN", "DOWN"); ("LEFT", "LEFT");
    ("RIGHT", "RIGHT"); ("CENTER", "CENTER") ].

Definition map_key (key : str) : str :=
  match find (fun kv => eqb (py (fst kv)) key) key_map with
  | Some kv => py (snd kv)
  | None => key
  end.

Definition _execute_press_key (parameters : params) : Exec outcome :=
  match dict_get parameters "key" (VStr (py "ENTER")) with
  | VStr k =>
    device (PressKey (VStr (map_key (upper k))));; mret (mk_outcome true None false)
  | _ => SE.raise (OtherError (py "object has no attribute 'upper'"))
  end.

Definition is_action (a : str) (name : string) : bool := eqb a (py name).

Definition _execute_action (action : str) (target : option str) (parameters : params)
    (context : AgentContext.t) : Exec outcome :=
  if is_action action "tap" || is_action action "click" then
    _execute_tap target parameters context
  else if is_action action "swipe" then _execute_swipe parameters context
  else if is_action action "input" then _execute_input parameters target
  else if is_action action "wait" then _execute_wait parameters
  else if is_action action "scroll" then _execute_scroll parameters context
  else if is_action action "back" then _execute_back
  else if is_action action "home" then _execute_home
  else if is_action action "press_key" then _execute_press_key parameters
  else mret (mk_outcome false (Some (py "Unknown action: " ++ action)) false).

(** ** The recovery engine *)

(** [l[i]] for a Python integer [i]: negative subscripts count from the
    end, and a subscript outside the list raises. *)
Definition py_index {A} (l : list A) (i : Z) : may_raise A :=
  let n := Z.of_nat (length l) in
  let j := if i <? 0 then i + n else i in
  if (0 <=? j) && (j <? n) then
    match l !! Z.to_nat j with
    | Some a => Ok a
    | None => Raise (IndexError (py "list index out of range"))
    end
  else Raise (IndexError (py "list index out of range")).

Definition is_strategy (s : str) (name : string) : bool := eqb s (py name).

(** [f"{elem.get('text') or elem.get('content_desc')}"]: the text when it
    is not empty, else the description as it stands ([None] when absent). *)
Definition text_or_desc (elem : UIElement.t) : str :=
  if truthy (UIElement.get_str (UIElement.text elem)) then UIElement.get_str (UIElement.text elem)
  else match UIElement.content_desc elem with
       | Some desc => desc
       | None => py "None"
       end.

Definition _execute_recovery_strategy (strategy : str) (element_index : value)
    (context : AgentContext.t) (original_target : option str) : Exec recovery :=
  let screen_info := default (None, None) (AgentContext.screen_info context) in
  let width := default 1080 (fst screen_info) in
  let height := default 1920 (snd screen_info) in
  let swipe (a b c d ms : Z) (name : string) : Exec recovery :=
    start ← SE.lift (Point.new a b);
    end_ ← SE.lift (Point.new c d);
    device (Swipe start end_ (VInt ms));;
    sleep 500;;
    mret (mk_recovery true (Some (py name)) None) in
  SE.try_except
    (if is_strategy strategy "scroll_down" then
       swipe (width `div` 2) (int_mul height (7 # 10))
             (width `div` 2) (int_mul height (3 # 10)) 500 "scroll_down"
     else if is_strategy strategy "scroll_up" then
       swipe (width `div` 2) (int_mul height (3 # 10))
             (width `div` 2) (int_mul height (7 # 10)) 500 "scroll_up"
     else if is_strategy strategy "swipe_left" then
       swipe (int_mul width (8 # 10)) (height `div` 2)
             (int_mul width (2 # 10)) (height `div` 2) 300 "swipe_left"
     else if is_strategy strategy "swipe_right" then
       swipe (int_mul width (2 # 10)) (height `div` 2)
             (int_mul width (8 # 10)) (height `div` 2) 300 "swipe_right"
     else if is_strategy strategy "go_back" then
       device (PressKey (VStr (py "BACK")));;
       sleep 500;;
       mret (mk_recovery true (Some (py "go_back")) None)
     else if is_strategy strategy "close_popup" then
       (* [self._handle_obstacles(context.ui_elements)] lacks the [context]
          argument of the method: the call itself raises. *)
       match AgentContext.ui_elements context with
       | _ :: _ =>
         SE.raise (TypeError (py "ActionExecutorAgent._handle_obstacles() missing 1 required positional argument: 'context'"))
       | [] => mret (mk_recovery false None (Some (py "No popup found to close")))
       end
     else if is_strategy strategy "tap_element" && negb (bool_decide (element_index = VNone)) then
       match AgentContext.ui_elements context with
       | [] => mret (mk_recovery false None (Some (py "Invalid element index")))
       | elems =>
         match as_int_instance element_index with
         | None => SE.raise (TypeError (py "'<' not supported between instances"))
         | Some i =>
           if i <? Z.of_nat (length elems) then
             elem ← SE.lift (py_index elems i);
             match UIElement.center elem with
             | Some c =>
               point ← SE.lift (Point.new (fst c) (snd c));
               device (Tap point);;
               sleep 300;;
               mret (mk_recovery true
                       (Some (py "tap_element:" ++ text_or_desc elem)) None)
             | None => mret (mk_recovery false None (Some (py "Invalid element index")))
             end
           else mret (mk_recovery false None (Some (py "Invalid element index")))
         end
       end
     else if is_strategy strategy "wait" then
       sleep 2000;;
       mret (mk_recovery true (Some (py "wait")) None)
     else if is_strategy strategy "give_up" then
       mret (mk_recovery false None (Some (py "LLM decided to give up")))
     else
       mret (mk_recovery false None (Some (py "Unknown strategy: " ++ strategy))))
    (fun e => mret (mk_recovery false None (Some (exn_str e)))).

Definition _rule_based_recovery (failed_action : str) (failed_target : option str)
    (context : AgentContext.t) (attempt_count : Z) : Exec recovery :=
  let strategies_order := [py "scroll_down"; py "scroll_up"; py "go_back"] in
  if attempt_count <? Z.of_nat (length strategies_order) then
    strategy ← SE.lift (py_index strategies_order attempt_count);
    _execute_recovery_strategy strategy VNone context failed_target
  else mret (mk_recovery false None (Some (py "All strategies exhausted"))).

Definition _llm_decide_recovery (llm : LLMProvider W) (failed_action : str)
    (failed_target : option str) (context : AgentContext.t) (step : NextStep.t)
    (attempt_count : Z) : Exec recovery :=
  SE.try_except
    (decision ← (fun s =>
                   let '(r, w) := decide_recovery llm failed_action failed_target
                                    context step attempt_count (world s) in
                   (r, mk_state w (log s) (recovery_history s)));
     _execute_recovery_strategy (fst decision) (snd decision) context failed_target)
    (fun _ => _rule_based_recovery failed_action failed_target context attempt_count).

Definition record_attempt (failed_target : option str) : Exec unit :=
  SE.modify (fun s => mk_state (world s) (log s) (recovery_history s ++ [failed_target])).

Definition _autonomous_recovery (failed_action : str) (failed_target : option str)
    (context : AgentContext.t) (step : NextStep.t) : Exec recovery :=
  s ← SE.get;
  let current_attempts :=
    Z.of_nat (length (filter (fun h => h = failed_target) (recovery_history s))) in
  if max_recovery_attempts self <=? current_attempts then
    mret (mk_recovery false None (Some (py "Max recovery attempts reached")))
  else
    let rule_based :=
      result ← _rule_based_recovery failed_action failed_target context current_attempts;
      record_attempt failed_target;;
      mret result in
    match llm_provider self with
    | Some llm =>
      result ← _llm_decide_recovery llm failed_action failed_target context step
                 current_attempts;
      if recovered result then record_attempt failed_target;; mret result
      else rule_based
    | None => rule_based
    end.

(** [ActionExecutorAgent.execute] *)
Definition execute (context : AgentContext.t) : Exec AgentResult.t :=
  match device_controller self with
  | None =>
    mret (AgentResult.failure_result (py "No device controller available")
            (py "Cannot execute actions without device controller"))
  | Some _ =>
    let steps := AgentContext.steps context in
    let current_step_index := AgentContext.current_step context in
    match steps with
    | [] =>
      mret (AgentResult.failure_result (py "No steps to execute")
              (py "No action plan found in context"))
    | _ =>
      match steps !! current_step_index with
      | None => mret (AgentResult.success_result (py "All steps completed") None)
      | Some step =>
        let action := NextStep.action step in
        let target := NextStep.target step in
        let parameters := NextStep.parameters step in
        SE.try_except
          (result ← _execute_action action target parameters context;
           if negb (success result) && needs_recovery result then
             recovery_result ← _autonomous_recovery action target context step;
             if recovered recovery_result then
               mret (AgentResult.success_result
                       (py "Recovery action taken: " ++
                        from_option id (py "None") (action_taken recovery_result))
                       (Some (py "analyze")))
             else
               mret (AgentResult.failure_result
                       (from_option id (py "Unknown error") (error result))
                       (py "Failed to execute and recover: " ++ action ++ py " (step " ++
                        str_of_int (Z.of_nat current_step_index) ++ py ", recovery failed)"))
           else
             sleep 300;;
             mret (AgentResult.success_result (py "Executed action: " ++ action)
                     (Some (py "validate"))))
          (fun e =>
             mret (AgentResult.failure_result (exn_str e)
                     (py "Failed to execute action: " ++ action)))
      end
    end
  end.

End Methods.
End Executor.

(** ** The orchestrator ([modular_orchestrator.py]) *)

Inductive ExecutionState : Type := IDLE | RUNNING | COMPLETED | FAILED.

Module StepResult.
Record t : Type := mk {
  success : bool;
  action : str;
  target : option str;
  description : str;
  error : option str;
}.
End StepResult.

Module TaskResult.
(** [TaskResult]; [duration_ms], a reading of the wall clock, is left out. *)
Record t : Type := mk {
  success : bool;
  task : str;
  steps_executed : Z;
  completed_steps : list CompletedStep.t;
  error : option str;
  state : ExecutionState;
}.
End TaskResult.

Module DynamicTaskPlanner.
(** The planner as the orchestrator sees it.  [_build_prompt] assembles the
    prompt text (it may raise on ill-typed parameters); [respond] is the
    request to the language model, on the screenshot when there is one,
    followed by [_parse_response]: it raises when either does. *)
Record t (W : Type) : Type := mk {
  _build_prompt : str -> UIContext.t -> list CompletedStep.t -> may_raise str;
  respond : option (list N) -> str -> W -> may_raise PlanningResult.t * W;
}.
Arguments _build_prompt {W} _ _ _ _.
Arguments respond {W} _ _ _ _.

(** [_fallback_plan]: nothing to do, wait and retry. *)
Definition _fallback_plan (task : str) (ui_context : UIContext.t)
    (completed_steps : list CompletedStep.t) : PlanningResult.t :=
  PlanningResult.mk None None false
    (py "LLM调用失败（可能是速率限制），等待重试") 0.

Definition plan_next_step {W} (self : t W) (task : str) (ui_context : UIContext.t)
    (completed_steps : list CompletedStep.t) : SE.M W PlanningResult.t :=
  prompt ← SE.lift (_build_prompt self task ui_context completed_steps);
  SE.try_except
    (respond self (UIContext.screenshot ui_context) prompt)
    (fun _ => mret (_fallback_plan task ui_context completed_steps)).
End DynamicTaskPlanner.

Module Orchestrator.

(** [step.description or ""], [x in ("tap", "click")] *)
Definition is_tap_or_click (action : str) : bool :=
  eqb action (py "tap") || eqb action (py "click").

Definition is_click_or_tap (action : str) : bool :=
  eqb action (py "click") || eqb action (py "tap").

(** [str or default] on an optional string. *)
Definition opt_or (o : option str) (dflt : str) : str :=
  match o with
  | Some s => or_else s dflt
  | None => dflt
  end.

(** Length of the longest suffix of the ledger whose steps satisfy [p]:
    the loops over [reversed(completed_steps)] that count until the first
    step that fails the test. *)
Fixpoint count_leading (p : CompletedStep.t -> bool) (steps : list CompletedStep.t) : nat :=
  match steps with
  | [] => 0
  | s :: rest => if p s then S (count_leading p rest) else 0
  end.

Definition _count_consecutive_failures (completed_steps : list CompletedStep.t) : nat :=
  count_leading (fun step => negb (CompletedStep.success step)) (rev completed_steps).

Definition _count_consecutive_no_change (completed_steps : list CompletedStep.t) : nat :=
  count_leading
    (fun step => CompletedStep.success step && negb (CompletedStep.ui_changed step))
    (rev completed_steps).

(** [f"[{step.action}] {step.error or '未知错误'}"], with the target when
    there is one. *)
Definition failure_reason (step : CompletedStep.t) : str :=
  let err := opt_or (CompletedStep.error step) (py "未知错误") in
  match CompletedStep.target step with
  | Some target =>
    if truthy target
    then py "[" ++ CompletedStep.action step ++ py ":" ++ target ++ py "] " ++ err
    else py "[" ++ CompletedStep.action step ++ py "] " ++ err
  | None => py "[" ++ CompletedStep.action step ++ py "] " ++ err
  end.

(** The loop of [_get_failure_reasons] over the reversed ledger. *)
Fixpoint collect_failures (count : nat) (steps : list CompletedStep.t)
    (failures : list str) : list str :=
  match steps with
  | [] => failures
  | step :: rest =>
    let failures :=
      if negb (CompletedStep.success step) && (length failures <? count)%nat
      then failures ++ [failure_reason step]
      else failures in
    if (count <=? length failures)%nat then failures
    else collect_failures count rest failures
  end.

Definition _get_failure_reasons (completed_steps : list CompletedStep.t) (count : nat) : str :=
  join (py "; ") (rev (collect_failures count (rev completed_steps) [])).

Definition _get_opposite_direction (direction : value) : value :=
  match direction with
  | VStr d =>
    if eqb d (py "up") then VStr (py "down")
    else if eqb d (py "down") then VStr (py "up")
    else if eqb d (py "left") then VStr (py "right")
    else if eqb d (py "right") then VStr (py "left")
    else direction
  | _ => direction
  end.

(** [completed_steps[-2:]] *)
Definition last_two {A} (l : list A) : list A := drop (length l - 2) l.

(** [_check_scroll_stuck]; the result is [VNone] for [None]. *)
Definition _check_scroll_stuck (completed_steps : list CompletedStep.t) : value :=
  if (length completed_steps <? 2)%nat then VNone
  else
    let recent := last_two completed_steps in
    let scroll_no_change :=
      map (fun step => dict_get (CompletedStep.parameters step) "direction" (VStr []))
          (filter (fun step =>
                     eqb (CompletedStep.action step) (py "scroll")
                     && CompletedStep.success step
                     && negb (CompletedStep.ui_changed step) = true) recent) in
    match scroll_no_change with
    | [d1; d2] => if value_eqb d2 d1 then _get_opposite_direction d2 else VNone
    | _ => VNone
    end.

(** [class_name = (elem.get('class_name') or elem.get('class') or '').lower()] *)
Definition input_class (elem : UIElement.t) : bool :=
  let class_name :=
    lower (opt_or (UIElement.class_name elem) (opt_or (UIElement.class elem) [])) in
  contains class_name (py "edittext") || contains class_name (py "input").

Definition digit_pattern : list str :=
  [py "0"; py "1"; py "2"; py "3"; py "4"; py "5"; py "6"; py "7"; py "8"; py "9";
   py "."; py "。"].

Definition _should_convert_clicks_to_input (steps : list NextStep.t)
    (ui_context : UIContext.t) : bool :=
  let is_digit_clicks :=
    forallb (fun step =>
               is_click_or_tap (NextStep.action step)
               && existsb (contains (NextStep.description step)) digit_pattern) steps in
  if negb is_digit_clicks then false
  else existsb input_class (UIContext.elements ui_context).

(** [char in '0123456789.'] *)
Definition keypad_char (c : char) : bool := has_char (py "0123456789.") c.

(** The first keypad character of a description, if any. *)
Definition first_keypad_char (desc : str) : option char := find keypad_char desc.

Definition _extract_digits_from_clicks (steps : list NextStep.t) : str :=
  omap (fun step => first_keypad_char (NextStep.description step)) steps.

Definition _last_step_clicked_input (completed_steps : list CompletedStep.t) : bool :=
  match last completed_steps with
  | None => false
  | Some last_step =>
    if negb (is_tap_or_click (CompletedStep.action last_step)) then false
    else
      let target := lower (opt_or (CompletedStep.target last_step) []) in
      if contains target (py "输入") || contains target (py "input")
         || contains target (py "edit") || contains target (py "搜索")
      then true
      else
        let desc := lower (CompletedStep.description last_step) in
        contains desc (py "输入框") || contains desc (py "搜索框")
        || contains desc (py "edittext")
  end.

Definition _is_digit_clicks (steps : list NextStep.t) : bool :=
  match steps with
  | [] => false
  | _ =>
    forallb (fun step =>
      if negb (is_click_or_tap (NextStep.action step)) then false
      else
        let desc := lower (NextStep.description step) in
        if contains desc (py "第") && contains desc (py "元素") then false
        else if contains desc (py "编号") then false
        else
          let digit_keywords := [py "点击数字"; py "数字键"; py "按键"; py "密码"; py "pin"] in
          let has_digit_keyword := existsb (contains desc) digit_keywords in
          let single_digits :=
            filter (fun d => contains desc d = true)
              [py "0"; py "1"; py "2"; py "3"; py "4"; py "5"; py "6"; py "7"; py "8"; py "9"] in
          has_digit_keyword
          || ((length desc <=? 10)%nat && (0 <? length single_digits)%nat)) steps
  end.

(** The step that replaces a batch of digit clicks. *)
Definition input_step (combined_text : str) : NextStep.t :=
  NextStep.mk (py "input") None VNone {[ "text" := VStr combined_text ]}
    (py "输入 " ++ combined_text).

(** *** Resolving a target index (the first half of the body of the
    execution loop of [execute_task]) *)

(** [element.get('text') or element.get('content_desc') or f"元素{index}"] *)
Definition elem_name_of (element : UIElement.t) (index : value) : str :=
  opt_or (UIElement.text element)
    (opt_or (UIElement.content_desc element) (py "元素" ++ str_of_value index)).

(** The full-width colon of "点击第X个元素：名称". *)
Definition fullwidth_colon : char := 65306%N.

(** The name after the colon of the description, if there is one. *)
Definition target_name_from_desc (description : str) : option str :=
  if truthy description && contains description [fullwidth_colon] then
    match split1 fullwidth_colon description with
    | (_, Some rest) => Some (strip rest)
    | (_, None) => None
    end
  else None.

(** [s.replace(':', '').replace('：', '').replace(' ', '').lower()] *)
Definition cleaned (s : str) : str :=
  lower (remove_char 32%N (remove_char fullwidth_colon (remove_char 58%N s))).

(** Drop the first of the prefixes 单曲, 歌曲, 专辑, 视频, 音乐 that matches. *)
Definition strip_prefix (s : str) : str :=
  match find (startswith s) [py "单曲"; py "歌曲"; py "专辑"; py "视频"; py "音乐"] with
  | Some prefix => drop (length prefix) s
  | None => s
  end.

(** The locals of the matching loop. *)
Record matching : Type := mk_matching {
  matched_element : option UIElement.t;
  matched_index : value;
  best_match_score : Z;
}.

(** The loop [for idx, name, elem in all_indexed], from strict to loose;
    an exact match ends it. *)
Fixpoint match_loop (target_name target_cleaned target_keywords : str)
    (all_indexed : list UIContext.entry) (m : matching) : matching :=
  match all_indexed with
  | [] => m
  | (idx, name, elem) :: rest =>
    let name_cleaned := cleaned name in
    let upgrade (score : Z) :=
      if best_match_score m <? score then mk_matching (Some elem) (VInt idx) score else m in
    if eqb target_name name || eqb target_cleaned name_cleaned then
      mk_matching (Some elem) (VInt idx) 100
    else if contains name target_name || contains target_name name then
      match_loop target_name target_cleaned target_keywords rest (upgrade 80)
    else if contains name_cleaned target_cleaned || contains target_cleaned name_cleaned then
      match_loop target_name target_cleaned target_keywords rest (upgrade 70)
    else if truthy target_keywords && (1 <? length target_keywords)%nat
            && (contains name_cleaned target_keywords
                || contains target_keywords name_cleaned) then
      match_loop target_name target_cleaned target_keywords rest (upgrade 60)
    else
      match_loop target_name target_cleaned target_keywords rest m
  end.

(** The element another index is corrected to, when the description names
    an element other than the one at the given index. *)
Definition rematch (ui_context : UIContext.t) (target_name : str) : matching :=
  let all_indexed := UIContext.get_indexed_all_elements ui_context in
  let target_cleaned := cleaned target_name in
  let target_keywords := strip_prefix target_cleaned in
  let m := match_loop target_name target_cleaned target_keywords all_indexed
             (mk_matching None VNone 0) in
  match matched_element m with
  | Some _ => if 60 <=? best_match_score m then m else mk_matching None VNone (best_match_score m)
  | None => mk_matching None VNone (best_match_score m)
  end.

(** The step as the loop leaves it before execution: with a target index
    on a tap or click, the element of that index in the snapshot the plan
    was made on (or the element the description is re-matched to) gives the
    step its coordinates and its target name. *)
Definition resolve_target_index (ui_context : UIContext.t) (next_step : NextStep.t)
    : may_raise NextStep.t :=
  if negb (bool_decide (NextStep.target_index next_step = VNone))
     && is_tap_or_click (NextStep.action next_step) then
    match UIContext.get_element_by_index ui_context (NextStep.target_index next_step) with
    | Raise e => Raise e
    | Ok None => Ok next_step
    | Ok (Some element) =>
      let elem_name := elem_name_of element (NextStep.target_index next_step) in
      let center := default (0, 0) (UIElement.center element) in
      let '(next_step, elem_name, center) :=
        match target_name_from_desc (NextStep.description next_step) with
        | Some target_name =>
          if truthy target_name && negb (contains elem_name target_name) then
            let m := rematch ui_context target_name in
            match matched_element m with
            | Some element =>
              (NextStep.set_target_index next_step (matched_index m),
               elem_name_of element (matched_index m),
               default (0, 0) (UIElement.center element))
            | None => (next_step, elem_name, center)
            end
          else (next_step, elem_name, center)
        | None => (next_step, elem_name, center)
        end in
      let next_step := NextStep.set_parameter next_step "x" (VInt (fst center)) in
      let next_step := NextStep.set_parameter next_step "y" (VInt (snd center)) in
      Ok (NextStep.set_target next_step (Some elem_name))
    end
  else Ok next_step.

(** The correction of a stuck scroll:
    [for next_step in all_steps: if next_step.action == "scroll": ...] *)
Definition correct_scroll (completed_steps : list CompletedStep.t) (next_step : NextStep.t)
    : NextStep.t :=
  if eqb (NextStep.action next_step) (py "scroll") then
    let reverse_dir := _check_scroll_stuck completed_steps in
    if value_truthy reverse_dir then
      let original_dir := dict_get (NextStep.parameters next_step) "direction" (VStr []) in
      if negb (value_eqb original_dir reverse_dir)
      then NextStep.set_parameter next_step "direction" reverse_dir
      else next_step
    else next_step
  else next_step.

(** The two rewrites of a batch of digit clicks into one text input, then
    the scroll correction: the steps the loop goes on to execute. *)
Definition convert_batch (plan_result : PlanningResult.t) (ui_context : UIContext.t)
    (all_steps : list NextStep.t) : list NextStep.t :=
  if PlanningResult.has_batch_steps plan_result then
    if _should_convert_clicks_to_input all_steps ui_context then
      let combined_text := _extract_digits_from_clicks all_steps in
      if truthy combined_text then [input_step combined_text] else all_steps
    else all_steps
  else all_steps.

Definition convert_after_input (completed_steps : list CompletedStep.t)
    (all_steps : list NextStep.t) : list NextStep.t :=
  if (0 <? length completed_steps)%nat && _last_step_clicked_input completed_steps then
    if _is_digit_clicks all_steps then
      let combined_text := _extract_digits_from_clicks all_steps in
      if truthy combined_text then [input_step combined_text] else all_steps
    else all_steps
  else all_steps.

Definition steps_to_execute (plan_result : PlanningResult.t) (ui_context : UIContext.t)
    (completed_steps : list CompletedStep.t) : list NextStep.t :=
  let all_steps := PlanningResult.get_all_steps plan_result in
  let all_steps := convert_batch plan_result ui_context all_steps in
  let all_steps := convert_after_input completed_steps all_steps in
  map (correct_scroll completed_steps) all_steps.

(** *** The loop *)

(** The device as the orchestrator uses it: the UI dump, and the
    screenshot (already compressed); both may raise. *)
Record DeviceController (W : Type) : Type := mk_device {
  get_ui_hierarchy : W -> may_raise (list UIElement.t) * W;
  take_screenshot : W -> may_raise (option (list N)) * W;
}.
Arguments get_ui_hierarchy {W} _ _.
Arguments take_screenshot {W} _ _.

(** [ModularOrchestrator]'s fields.  [action_executor] is
    [action_executor.execute] run under [asyncio.wait_for]: it answers with
    a result or raises ([TimeoutError] when the time is up). *)
Record t (W : Type) : Type := mk {
  planner : DynamicTaskPlanner.t W;
  action_executor : AgentContext.t -> W -> may_raise AgentResult.t * W;
  device_controller : option (DeviceController W);
  max_steps : Z;
  step_timeout_ms : Z;
  on_progress : option (Z -> Z -> str -> str -> str -> W -> may_raise unit * W);
  stop_check : option (W -> may_raise bool * W);
}.
Arguments planner {W} _.
Arguments action_executor {W} _ _ _.
Arguments device_controller {W} _.
Arguments max_steps {W} _.
Arguments step_timeout_ms {W} _.
Arguments on_progress {W} _.
Arguments stop_check {W} _.

(** What the loop does, in order (latest last). *)
Inductive event : Type :=
| StopChecked (answer : bool)
| Captured (ui_context : UIContext.t)
| Planned (plan_result : PlanningResult.t)
| Slept (ms : Z)
| Progress (current total : Z) (action description target : str)
| Executed (next_step : NextStep.t) (step_result : StepResult.t).

(** The world, the events so far, [self.state], and the two locals of
    [execute_task] that live across iterations. *)
Record state (W : Type) : Type := mk_state {
  world : W;
  trace : list event;
  exec_state : ExecutionState;
  completed_steps : list CompletedStep.t;
  step_count : Z;
}.
Arguments mk_state {W} _ _ _ _ _.
Arguments world {W} _.
Arguments trace {W} _.
Arguments exec_state {W} _.
Arguments completed_steps {W} _.
Arguments step_count {W} _.

(** How an iteration of the [while] loop ends. *)
Inductive control : Type :=
| Continue
| Break
| Return (r : TaskResult.t).

Section Loop.
Context {W : Type}.
Variable self : t W.

Abbreviation Orch := (SE.M (state W)).

(** A call to the outside. *)
Definition call {A} (f : W -> may_raise A * W) : Orch A :=
  fun s =>
    let '(r, w) := f (world s) in
    (r, mk_state w (trace s) (exec_state s) (completed_steps s) (step_count s)).

Definition emit (e : event) : Orch unit :=
  SE.modify (fun s =>
    mk_state (world s) (trace s ++ [e]) (exec_state s) (completed_steps s) (step_count s)).

(** [await asyncio.sleep(ms / 1000)] *)
Definition sleep (ms : Z) : Orch unit := emit (Slept ms).

(** [self.state = v] *)
Definition set_exec_state (v : ExecutionState) : Orch unit :=
  SE.modify (fun s =>
    mk_state (world s) (trace s) v (completed_steps s) (step_count s)).

(** [step_count += 1] *)
Definition incr_step_count : Orch unit :=
  SE.modify (fun s =>
    mk_state (world s) (trace s) (exec_state s) (completed_steps s) (step_count s + 1)).

(** [completed_steps.append(step)] *)
Definition append_step (step : CompletedStep.t) : Orch unit :=
  SE.modify (fun s =>
    mk_state (world s) (trace s) (exec_state s) (completed_steps s ++ [step]) (step_count s)).

(** [l[-1].field = v]: an assignment to the last element of a list. *)
Definition update_last {A} (f : A -> A) (l : list A) : list A :=
  match last l with
  | Some a => <[ (length l - 1)%nat := f a ]> l
  | None => l
  end.

(** [completed_steps[-1].ui_after = ui_after[:20]] and
    [completed_steps[-1].ui_changed = ui_changed] *)
Definition update_last_step (ui_after : list str) (ui_changed : bool) : Orch unit :=
  SE.modify (fun s =>
    mk_state (world s) (trace s) (exec_state s)
      (update_last
         (fun step =>
            CompletedStep.set_ui_changed
              (CompletedStep.set_ui_after step (take 20 ui_after)) ui_changed)
         (completed_steps s))
      (step_count s)).

Definition _get_ui_context : Orch UIContext.t :=
  ui ← match device_controller self with
       | Some dc =>
         elements ← SE.try_except (call (get_ui_hierarchy dc)) (fun _ => mret []);
         screenshot ← SE.try_except (call (take_screenshot dc)) (fun _ => mret None);
         mret (UIContext.mk elements screenshot)
       | None => mret (UIContext.mk [] None)
       end;
  emit (Captured ui);;
  mret ui.

Definition _execute_step (step : NextStep.t) (ui_context : UIContext.t) : Orch StepResult.t :=
  let context :=
    AgentContext.mk (NextStep.description step) None (UIContext.elements ui_context)
      0%nat [step] in
  step_result ←
    SE.try_except
      (result ← call (action_executor self context);
       mret (StepResult.mk (AgentResult.success result) (NextStep.action step)
               (NextStep.target step) (NextStep.description step)
               (if negb (AgentResult.success result) then AgentResult.error result else None)))
      (fun e =>
         match e with
         | TimeoutError =>
           mret (StepResult.mk false (NextStep.action step) (NextStep.target step)
                   (NextStep.description step) (Some (py "执行超时")))
         | _ =>
           mret (StepResult.mk false (NextStep.action step) (NextStep.target step)
                   (NextStep.description step) (Some (exn_str e)))
         end);
  emit (Executed step step_result);;
  mret step_result.

(** [self.on_progress(len(completed_steps), len(completed_steps) + 1, ...)] *)
Definition notify_progress (next_step : NextStep.t) : Orch unit :=
  match on_progress self with
  | Some f =>
    s ← SE.get;
    let n := Z.of_nat (length (completed_steps s)) in
    let target := opt_or (NextStep.target next_step) [] in
    emit (Progress n (n + 1) (NextStep.action next_step)
            (NextStep.description next_step) target);;
    call (f n (n + 1) (NextStep.action next_step) (NextStep.description next_step) target)
  | None => mret tt
  end.

(** The record appended after a step's execution:
    [CompletedStep(action=next_step.action, ..., ui_changed=False)];
    [first] is [step_idx == 0]. *)
Definition record_of (ui_before : list str) (first : bool) (next_step : NextStep.t)
    (step_result : StepResult.t) : CompletedStep.t :=
  CompletedStep.mk (NextStep.action next_step) (NextStep.target next_step)
    (NextStep.description next_step) (StepResult.success step_result)
    (if negb (StepResult.success step_result) then StepResult.error step_result else None)
    (NextStep.parameters next_step)
    (if first then take 20 ui_before else []) [] false 0.

(** The loop [for step_idx, next_step in enumerate(all_steps)]: resolve,
    notify, execute, wait, record; a failure ends a batch. *)
Fixpoint run_steps (batch : bool) (ui_context : UIContext.t) (ui_before : list str)
    (first : bool) (all_steps : list NextStep.t) : Orch unit :=
  match all_steps with
  | [] => mret tt
  | next_step :: rest =>
    next_step ← SE.lift (resolve_target_index ui_context next_step);
    notify_progress next_step;;
    step_result ← _execute_step next_step ui_context;
    sleep (if batch then 100 else 500);;
    append_step (record_of ui_before first next_step step_result);;
    if negb (StepResult.success step_result) && batch then mret tt
    else run_steps batch ui_context ui_before false rest
  end.

(** [set(ui_before) != set(ui_after)] *)
Definition ui_differs (ui_before ui_after : list str) : bool :=
  bool_decide (list_to_set ui_before ≠@{gset str} list_to_set ui_after).

Definition failed_result (task : str) (error : str) : Orch TaskResult.t :=
  set_exec_state FAILED;;
  s ← SE.get;
  mret (TaskResult.mk false task (Z.of_nat (length (completed_steps s)))
          (completed_steps s) (Some error) FAILED).

(** The end of an iteration, once the steps are executed: the UI is
    captured again, the last record receives the UI difference, and three
    failures in a row end the task. *)
Definition finish_batch (task : str) (ui_before : list str) : Orch control :=
  sleep 300;;
  ui_after_context ← _get_ui_context;
  let ui_after := UIContext.get_all_elements ui_after_context in
  let ui_changed := ui_differs ui_before ui_after in
  update_last_step ui_after ui_changed;;
  s ← SE.get;
  let consecutive_failures := _count_consecutive_failures (completed_steps s) in
  if (3 <=? consecutive_failures)%nat then
    let failure_reasons := _get_failure_reasons (completed_steps s) 3 in
    let error_msg :=
      py "连续" ++ str_of_int (Z.of_nat consecutive_failures)
      ++ py "次操作失败，任务终止。失败原因: " ++ failure_reasons in
    r ← failed_result task error_msg;
    mret (Return r)
  else mret Continue.

(** One iteration of the [while] loop, after the stop check. *)
Definition iteration (task : str) : Orch control :=
  incr_step_count;;
  ui_context ← _get_ui_context;
  s ← SE.get;
  plan_result ← call (DynamicTaskPlanner.plan_next_step (planner self) task ui_context
                        (completed_steps s));
  emit (Planned plan_result);;
  if PlanningResult.task_complete plan_result then
    set_exec_state COMPLETED;; mret Break
  else
    match PlanningResult.get_all_steps plan_result with
    | [] =>
      if Qeq_bool (PlanningResult.confidence plan_result) 0
      then sleep 5000;; mret Continue
      else mret Continue
    | _ =>
      let all_steps := steps_to_execute plan_result ui_context (completed_steps s) in
      let ui_before := UIContext.get_all_elements ui_context in
      run_steps (PlanningResult.has_batch_steps plan_result) ui_context ui_before true
        all_steps;;
      finish_batch task ui_before
    end.

(** The stop check at the top of an iteration:
    [self.stop_check and self.stop_check()] *)
Definition check_stop : Orch bool :=
  match stop_check self with
  | Some f => b ← call f; emit (StopChecked b);; mret b
  | None => mret false
  end.

(** The [while step_count < self.max_steps] loop with its [else] branch
    and the code after it.  [fuel] bounds the number of iterations; the
    answer is [None] only when it runs out. *)
Fixpoint loop (fuel : nat) (task : str) : Orch (option TaskResult.t) :=
  match fuel with
  | O => mret None
  | S fuel =>
    s ← SE.get;
    if step_count s <? max_steps self then
      stop ← check_stop;
      if (stop : bool) then
        r ← failed_result task (py "用户停止了任务");
        mret (Some r)
      else
        c ← iteration task;
        match c with
        | Continue => loop fuel task
        | Break =>
          s ← SE.get;
          mret (Some (TaskResult.mk true task (Z.of_nat (length (completed_steps s)))
                        (completed_steps s) None COMPLETED))
        | Return r => mret (Some r)
        end
    else
      r ← failed_result task
             (py "达到最大步数限制 (" ++ str_of_int (max_steps self) ++ py ")");
      mret (Some r)
  end.

(** The state [execute_task] starts from. *)
Definition initial (w : W) : state W := mk_state w [] RUNNING [] 0.

(** [execute_task]: the loop under [try], and the [except] clause that
    turns any exception into a failed result. *)
Definition execute_task (task : str) (w : W) : option TaskResult.t * state W :=
  let m :=
    SE.try_except (loop (S (Z.to_nat (max_steps self))) task)
      (fun e => r ← failed_result task (exn_str e); mret (Some r)) in
  match m (initial w) with
  | (Ok r, s) => (r, s)
  | (Raise _, s) => (None, s)
  end.

End Loop.
End Orchestrator.

(** ** Notions used to state the properties *)

Module Index.
Import UIElement UIContext.

(** The parts of an index entry. *)
Definition index_of (en : entry) : Z := fst (fst en).
Definition display_of (en : entry) : str := snd (fst en).
Definition element_of (en : entry) : UIElement.t := snd en.

(** The name an entry had before names were told apart, and its centre. *)
Definition base_of (en : entry) : str := name_of (index_of en) (element_of en).
Definition center_of (en : entry) : Z * Z := default (0, 0) (center (element_of en)).

(** The elements the builder keeps: those with a name (a label, or for an
    input field without one its hint or placeholder) and, when only
    clickable elements are asked for, clickable or an input field. *)
Definition included (clickable_only : bool) (e : UIElement.t) : bool :=
  let named := truthy (label_of e) || is_input e in
  if clickable_only then named && (default false (clickable e) || is_input e)
  else named.

(** The display name the builder gives to a name, knowing the names seen
    before it. *)
Definition disambiguated (seen : list str) (name : str) (c : Z * Z) : str :=
  if bool_decide (name ∈ seen) then with_position name c else name.

(** The character [@]. *)
Definition at_sign : char := 64%N.

(** The sequence [1, 2, ..., n]. *)
Definition one_to (n : nat) : list Z := map Z.of_nat (seq 1 n).

(** Follows the spec's words: "an element qualifies if it is clickable OR
    scrollable OR an input-class element OR carries non-empty text/label". *)
Definition spec_qualifies (e : UIElement.t) : bool :=
  default false (clickable e)
  || default false (scrollable e)
  || is_input e
  || truthy (strip (get_str (text e)))
  || truthy (strip (get_str (content_desc e))).

(** An index that is out of range for a snapshot, read as
    [isinstance(index, int)] reads it: a value that is no [int] (a [bool]
    is one: [False] is 0 and [True] is 1), or an [int] below 1 or above
    the number of indexed elements. *)
Definition out_of_range (self : UIContext.t) (index : value) : Prop :=
  match as_int_instance index with
  | Some i => i < 1 \/ Z.of_nat (length (get_indexed_all_elements self)) < i
  | None => True
  end.

(** Decimal digits, and the minus sign: the characters of a rendered
    integer. *)
Definition int_char (c : char) : Prop := (48 <= c <= 57)%N \/ c = 45%N.

(** The invariant of the loop, after the elements [es]. *)
Record build_inv (co : bool) (es : list UIElement.t) (st : locals) : Prop := {
  inv_idx : idx st = Z.of_nat (length (result st)) + 1;
  inv_indices : map index_of (result st) = one_to (length (result st));
  inv_elements : map element_of (result st) = filter (fun e => included co e = true) es;
  inv_counter : forall n, is_Some (name_counter st !! n) <-> n ∈ map base_of (result st);
  inv_display : forall i en, result st !! i = Some en ->
    display_of en = disambiguated (map base_of (take i (result st))) (base_of en) (center_of en);
}.

(** Sample elements: a labelled button and a clickable icon without text. *)
Definition button (label : string) (c : Z * Z) : UIElement.t :=
  UIElement.mk (Some (py label)) None (Some (py "android.widget.Button")) None None
    (Some true) (Some false) (Some c).

Definition icon (c : Z * Z) : UIElement.t :=
  UIElement.mk (Some []) (Some []) (Some (py "android.widget.ImageView")) None None
    (Some true) (Some false) (Some c).

Definition text_field (c : Z * Z) : UIElement.t :=
  UIElement.mk (Some []) None (Some (py "android.widget.EditText")) None None
    (Some true) (Some false) (Some c).

Definition snapshot (es : list UIElement.t) : UIContext.t := UIContext.mk es None.

End Index.

Module Notions.
Import Orchestrator.




(** A decimal digit. *)
Definition decimal_digit (c : char) : Prop := (48 <= c <= 57)%N.

(** A proposal to tap the single digit [d]: a tap or click whose
    description carries exactly one keypad character, the digit [d]. *)
Definition single_digit_tap (step : NextStep.t) (d : char) : Prop :=
  is_click_or_tap (NextStep.action step) = true
  /\ decimal_digit d
  /\ filter (fun c => keypad_char c = true) (NextStep.description step) = [d].

(** The characters the batch test looks for in a description: the keypad
    characters and the ideographic full stop. *)
Definition ideographic_full_stop : char := 12290%N.

Definition pattern_char (c : char) : Prop :=
  keypad_char c = true \/ c = ideographic_full_stop.

(** A step the batch test takes for a digit click: a click or tap whose
    description holds one of these characters (the target and the target
    index are not looked at). *)
Definition digit_click (step : NextStep.t) : Prop :=
  is_click_or_tap (NextStep.action step) = true
  /\ exists c, c ∈ NextStep.description step /\ pattern_char c.

(** What a description contributes to the text that is typed: its first
    keypad character, when it has one. *)
Inductive contribution (description : str) : option char -> Prop :=
| contributes (before after : str) (c : char) :
    description = before ++ c :: after ->
    Forall (fun b => keypad_char b = false) before ->
    keypad_char c = true ->
    contribution description (Some c)
| contributes_nothing :
    Forall (fun b => keypad_char b = false) description ->
    contribution description None.

(** The text of a batch: the contributions of its steps, in their order. *)
Inductive batch_text : list NextStep.t -> str -> Prop :=
| batch_text_nil : batch_text [] []
| batch_text_some (step : NextStep.t) (steps : list NextStep.t) (c : char) (text : str) :
    contribution (NextStep.description step) (Some c) ->
    batch_text steps text ->
    batch_text (step :: steps) (c :: text)
| batch_text_none (step : NextStep.t) (steps : list NextStep.t) (text : str) :
    contribution (NextStep.description step) None ->
    batch_text steps text ->
    batch_text (step :: steps) text.

(** A proposal to tap the key [key], described by [description]. *)
Definition tap_key (key description : string) : NextStep.t :=
  NextStep.mk (py "tap") (Some (py key)) VNone ∅ (py description).

(** Two taps on the keys 1 and 2 that are described in words, and three
    taps on the keys 7, 8 and 9 whose descriptions begin with a counter. *)
Definition worded_taps : list NextStep.t :=
  [tap_key "1" "tap key one"; tap_key "2" "tap key two"].

Definition counted_taps : list NextStep.t :=
  [tap_key "7" "1/3: tap 7"; tap_key "8" "2/3: tap 8"; tap_key "9" "3/3: tap 9"].

(** A batch decision proposing the steps [steps]. *)
Definition batch_of (steps : list NextStep.t) : PlanningResult.t :=
  PlanningResult.mk None (Some steps) false [] (8 # 10).

(** A proposal to click the digit key [d], as the planner's prompt words it. *)
Definition click_digit (index : Z) (d : string) : NextStep.t :=
  NextStep.mk (py "click") None (VInt index) ∅ (py "点击数字" ++ py d).

(** A recorded scroll without effect. *)
Definition idle_scroll (d : string) : CompletedStep.t :=
  CompletedStep.mk (py "scroll") None (py "scroll") true None
    {[ "direction" := VStr (py d) ]} [] [] false 0.

(** A proposal to scroll. *)
Definition scroll_to (d : string) : NextStep.t :=
  NextStep.mk (py "scroll") None VNone {[ "direction" := VStr (py d) ]} (py "scroll").

(** A decision of one step. *)
Definition single_of (step : NextStep.t) : PlanningResult.t :=
  PlanningResult.mk (Some step) None false [] (8 # 10).

End Notions.

Module ResolutionNotions.
Import UIContext Index Orchestrator.

(** How well the display name of an indexed element matches the name a
    description gives: 100 for the same name, as given or once cleaned (no
    colon, no space, lower case); 80 when one contains the other; 70 when
    one contains the other once cleaned; 60 when one contains the other
    once the target has also lost its prefix and keeps two characters at
    least; 0 otherwise. *)
Definition match_score (target_name name : str) : Z :=
  let target_cleaned := cleaned target_name in
  let target_keywords := strip_prefix target_cleaned in
  let name_cleaned := cleaned name in
  if eqb target_name name || eqb target_cleaned name_cleaned then 100
  else if contains name target_name || contains target_name name then 80
  else if contains name_cleaned target_cleaned || contains target_cleaned name_cleaned then 70
  else if truthy target_keywords && (1 <? length target_keywords)%nat
          && (contains name_cleaned target_keywords
              || contains target_keywords name_cleaned) then 60
  else 0.

Definition score_of (target_name : str) (en : entry) : Z :=
  match_score target_name (display_of en).

(** The entry a name is re-matched to: an entry of the index with the
    highest score, 60 at least, and the first one of these. *)
Definition best_match (ui_context : UIContext.t) (target_name : str) (en : entry) : Prop :=
  exists before after,
    get_indexed_all_elements ui_context = before ++ en :: after
    /\ 60 <= score_of target_name en
    /\ Forall (fun other => score_of target_name other < score_of target_name en) before
    /\ Forall (fun other => score_of target_name other <= score_of target_name en) after.

(** No entry of the index matches the name. *)
Definition no_match (ui_context : UIContext.t) (target_name : str) : Prop :=
  Forall (fun en => score_of target_name en < 60) (get_indexed_all_elements ui_context).

(** The step that a tap or click on the element [e], of index [index],
    becomes: the element's name is the target, its centre replaces the
    coordinates of the parameters. *)
Definition resolved (next_step : NextStep.t) (index : value) (e : UIElement.t) : NextStep.t :=
  NextStep.mk (NextStep.action next_step) (Some (elem_name_of e index)) index
    (<["y" := VInt (snd (default (0, 0) (UIElement.center e)))]>
       (<["x" := VInt (fst (default (0, 0) (UIElement.center e)))]>
          (NextStep.parameters next_step)))
    (NextStep.description next_step).

(** The index of a decision stands: its description names no element, or
    the name it gives is empty or part of the name of the element at the
    index, or no entry matches it. *)
Definition index_stands (ui_context : UIContext.t) (next_step : NextStep.t)
    (e : UIElement.t) : Prop :=
  match target_name_from_desc (NextStep.description next_step) with
  | None => True
  | Some target_name =>
    target_name = []
    \/ contains (elem_name_of e (NextStep.target_index next_step)) target_name = true
    \/ no_match ui_context target_name
  end.

End ResolutionNotions.

Module ExecNotions.
Import Executor.

Definition nonneg_point (p : Point.t) : Prop := 0 <= Point.x p /\ 0 <= Point.y p.

(** A tap or swipe whose points have non-negative coordinates (any other
    effect is fine). *)
Definition nonneg_effect (e : effect) : Prop :=
  match e with
  | Tap p => nonneg_point p
  | Swipe a b _ => nonneg_point a /\ nonneg_point b
  | _ => True
  end.

(** From [s] to [s'] the log only grew, by such effects. *)
Definition extends_safely {W} (s s' : state W) : Prop :=
  exists effects, log s' = log s ++ effects /\ Forall nonneg_effect effects.

(** A computation that only adds such effects, however it ends. *)
Definition safe {W A} (m : SE.M (state W) A) : Prop :=
  forall s, extends_safely s (snd (m s)).

(** Whenever the computation returns a value, the value satisfies [Q]. *)
Definition returns {W A} (Q : A -> Prop) (m : SE.M (state W) A) : Prop :=
  forall s a s', m s = (Ok a, s') -> Q a.

(** A device that accepts every call, and an executor on it. *)
Definition accepting_device : effect -> unit -> option exn * unit :=
  fun _ w => (None, w).

Definition sample_executor : Executor.t unit :=
  Executor.mk unit (Some accepting_device) None (fun _ _ w => (None, w)) 3.

(** Sample built-ins: no string is a number; exact scaling. *)
Definition no_int_of_str (s : str) : may_raise Z :=
  Raise (ValueError (py "invalid literal for int()")).

Definition exact_mul (n : Z) (f : Q) : Z := (n * Qnum f) `quot` Zpos (Qden f).

(** A tap proposal with explicit coordinates. *)
Definition tap_at (a b : Z) : NextStep.t :=
  NextStep.mk (py "tap") None VNone {[ "x" := VInt a; "y" := VInt b ]} (py "tap").

(** The context [_execute_step] builds for a step. *)
Definition context_of (step : NextStep.t) (elements : list UIElement.t) : AgentContext.t :=
  AgentContext.mk (NextStep.description step) None elements 0%nat [step].

End ExecNotions.

Module ResolutionSample.
Import Index ExecNotions.

(** A decision that carries both a target index and explicit coordinates,
    on a snapshot whose first element is a button at (100, 200). *)
Definition both_given : NextStep.t :=
  NextStep.mk (py "tap") None (VInt 1) {[ "x" := VInt 5; "y" := VInt 6 ]} (py "tap OK").

Definition one_button : UIContext.t := snapshot [button "OK" (100, 200)].

(** The same decision with negative coordinates. *)
Definition negative_given : NextStep.t :=
  NextStep.mk (py "tap") None (VInt 1) {[ "x" := VInt (-5); "y" := VInt (-6) ]} (py "tap OK").

(** A decision whose index is that of another element than the one its
    description names, on a snapshot of two buttons. *)
Definition two_buttons : UIContext.t :=
  snapshot [button "Cancel" (10, 20); button "OK" (100, 200)].

Definition misnumbered : NextStep.t :=
  NextStep.mk (py "tap") None (VInt 1) ∅ (py "点击第1个元素：OK").

(** The effects of executing a step on the sample executor. *)
Definition effects_of (step : NextStep.t) (ui_context : UIContext.t) : list Executor.effect :=
  Executor.log
    (snd (Executor.execute no_int_of_str exact_mul sample_executor
            (context_of step (UIContext.elements ui_context))
            (Executor.mk_state tt [] []))).

(** The result of executing a step on the sample executor. *)
Definition result_of (step : NextStep.t) (ui_context : UIContext.t)
    : may_raise AgentResult.t :=
  fst (Executor.execute no_int_of_str exact_mul sample_executor
         (context_of step (UIContext.elements ui_context))
         (Executor.mk_state tt [] [])).

End ResolutionSample.

Module LoopNotions.
Import Orchestrator.

(** The executions among some events, in order. *)
Definition executed_of (events : list event) : list (NextStep.t * StepResult.t) :=
  omap (fun ev => match ev with
                  | Executed next_step step_result => Some (next_step, step_result)
                  | _ => None
                  end) events.

(** The records of a sequence of executions, as they are appended. *)
Fixpoint records_of (ui_before : list str) (first : bool)
    (executed : list (NextStep.t * StepResult.t)) : list CompletedStep.t :=
  match executed with
  | [] => []
  | (next_step, step_result) :: rest =>
    record_of ui_before first next_step step_result :: records_of ui_before false rest
  end.

(** The assignments made to the last record when a batch is done. *)
Definition finalize (ui_after : list str) (ui_changed : bool) (step : CompletedStep.t)
    : CompletedStep.t :=
  CompletedStep.set_ui_changed (CompletedStep.set_ui_after step (take 20 ui_after)) ui_changed.

(** The message of a task ended by failures in a row. *)
Definition failure_message (ledger : list CompletedStep.t) : str :=
  py "连续" ++ str_of_int (Z.of_nat (_count_consecutive_failures ledger))
  ++ py "次操作失败，任务终止。失败原因: " ++ _get_failure_reasons ledger 3.

(** The result of a task that failed with the ledger [ledger]. *)
Definition failed_with (task : str) (ledger : list CompletedStep.t) (error : str)
    : TaskResult.t :=
  TaskResult.mk false task (Z.of_nat (length ledger)) ledger (Some error) FAILED.

(** The step of the planner's list that an executed step comes from. *)
Definition resolved_from (ui_context : UIContext.t) (steps : list NextStep.t)
    (p : NextStep.t * StepResult.t) : Prop :=
  exists step, step ∈ steps /\ resolve_target_index ui_context step = Ok (fst p).

(** Two records that differ at most in [ui_after] and [ui_changed]. *)
Definition same_but_ui (a b : CompletedStep.t) : Prop :=
  CompletedStep.set_ui_changed (CompletedStep.set_ui_after a (CompletedStep.ui_after b))
    (CompletedStep.ui_changed b) = b.

(** The ledger ends with three failed steps [a], [b], [c], in this order. *)
Definition ends_with_failures (ledger : list CompletedStep.t) (a b c : CompletedStep.t) : Prop :=
  (exists earlier, ledger = earlier ++ [a; b; c])
  /\ CompletedStep.success a = false
  /\ CompletedStep.success b = false
  /\ CompletedStep.success c = false.

(** Fewer than three failures at the end of the ledger. *)
Definition few_failures (ledger : list CompletedStep.t) : Prop :=
  (_count_consecutive_failures ledger < 3)%nat.

(** A result is in order when its ledger ends with fewer than three
    failures, or when it is the failed result that reports them. *)
Definition in_order (task : str) (t : TaskResult.t) : Prop :=
  few_failures (TaskResult.completed_steps t)
  \/ t = failed_with task (TaskResult.completed_steps t)
           (failure_message (TaskResult.completed_steps t)).

End LoopNotions.

Module LoopSamples.
Import Index Notions Orchestrator.

Definition sample_task : str := py "open settings".

(** An executor that reports success, and one that reports a failure. *)
Definition succeeding (context : AgentContext.t) (w : nat) : may_raise AgentResult.t * nat :=
  (Ok (AgentResult.success_result (py "Executed action") None), w).

Definition failing (context : AgentContext.t) (w : nat) : may_raise AgentResult.t * nat :=
  (Ok (AgentResult.failure_result (py "device rejected the action") (py "Failed")), w).

(** A planner that always answers with the same decision, and one whose
    language model cannot be reached. *)
Definition constant_planner (plan : PlanningResult.t) : DynamicTaskPlanner.t nat :=
  DynamicTaskPlanner.mk nat (fun _ _ _ => Ok []) (fun _ _ w => (Ok plan, w)).

Definition unreachable_planner : DynamicTaskPlanner.t nat :=
  DynamicTaskPlanner.mk nat (fun _ _ _ => Ok [])
    (fun _ _ w => (Raise (OtherError (py "rate limit exceeded")), w)).

(** A screen that shows "A" at the first capture and "B" afterwards; the
    world counts the captures. *)
Definition changing_screen : DeviceController nat :=
  mk_device nat
    (fun w => (Ok [button (if Nat.eqb w 0 then "A" else "B") (10, 20)], S w))
    (fun w => (Ok None, w)).

(** Orchestrators: the language model is unreachable (budget 2); the caller
    asks to stop; a tap on a changing screen; every action fails; the
    planner keeps scrolling down. *)
Definition unreachable : Orchestrator.t nat :=
  mk nat unreachable_planner succeeding None 2 30000 None None.

Definition stopping : Orchestrator.t nat :=
  mk nat (constant_planner (single_of (scroll_to "down"))) succeeding None 10 30000 None
    (Some (fun w => (Ok true, w))).

Definition tapping : Orchestrator.t nat :=
  mk nat (constant_planner (single_of (ExecNotions.tap_at 10 20))) succeeding
    (Some changing_screen) 5 30000 None None.

Definition always_failing : Orchestrator.t nat :=
  mk nat (constant_planner (single_of (ExecNotions.tap_at 10 20))) failing None 10 30000
    None None.


(** The planner keeps proposing a tap on "Login", named by its text, and
    the executor does not find it. *)
Definition tap_login : NextStep.t :=
  NextStep.mk (py "tap") (Some (py "Login")) VNone ∅ (py "tap the login button").

Definition not_finding (context : AgentContext.t) (w : nat) : may_raise AgentResult.t * nat :=
  (Ok (AgentResult.failure_result (py "Could not find target: Login") (py "Failed")), w).

Definition login_missing : Orchestrator.t nat :=
  mk nat (constant_planner (single_of tap_login)) not_finding None 10 30000 None None.

(** The record of such a failed tap. *)
Definition failed_login : CompletedStep.t :=
  CompletedStep.mk (py "tap") (Some (py "Login")) (py "tap the login button") false
    (Some (py "Could not find target: Login")) ∅ [] [] false 0.


(** The state of [tapping] after the plan of its first iteration. *)
Definition tapping_screen : UIContext.t := snapshot [button "A" (10, 20)].

Definition tapping_planned : state nat :=
  mk_state 1%nat [Captured tapping_screen; Planned (single_of (ExecNotions.tap_at 10 20))]
    RUNNING [] 1.

End LoopSamples.


Local Open Scope Z_scope.

(** ** Further notions on the index and on the ledger *)

Module IndexNotions.
Import Py UIElement UIContext Index.

(** An element with a text or a label of its own, once stripped. *)
Definition labelled (e : UIElement.t) : bool :=
  truthy (strip (get_str (text e))) || truthy (strip (get_str (content_desc e))).

(** Clickable, or an input field. *)
Definition actionable (e : UIElement.t) : bool :=
  default false (clickable e) || is_input e.

End IndexNotions.

Module LedgerNotions.
Import Py Orchestrator.

(** A recorded step that failed. *)
Definition failed (step : CompletedStep.t) : bool := negb (CompletedStep.success step).

(** The last [n] elements of a list. *)
Definition last_n {A} (n : nat) (l : list A) : list A := drop (length l - n) l.

(** A recorded scroll that succeeded and left the UI as it was. *)
Definition no_effect_scroll (step : CompletedStep.t) : bool :=
  eqb (CompletedStep.action step) (py "scroll")
  && CompletedStep.success step
  && negb (CompletedStep.ui_changed step).

(** [step.parameters.get("direction", "")] *)
Definition direction_of (step : CompletedStep.t) : value :=
  dict_get (CompletedStep.parameters step) "direction" (VStr []).

(** The four directions that have an opposite. *)
Definition known_direction (v : value) : Prop :=
  v = VStr (py "up") \/ v = VStr (py "down") \/ v = VStr (py "left") \/ v = VStr (py "right").

End LedgerNotions.

(** ** Further notions on the executor *)

Module ExecMore.
Import Py Executor.

(** A call of the device controller (a sleep is none). *)
Definition is_call (e : effect) : bool :=
  match e with
  | Sleep _ => false
  | _ => true
  end.

(** Two ways of weighing an effect: device calls only, or everything. *)
Definition call_weight (e : effect) : nat := if is_call e then 1 else 0.
Definition any_weight (e : effect) : nat := 1.

Definition weight (mu : effect -> nat) (effects : list effect) : nat :=
  sum_list (map mu effects).

(** The number of device calls among some effects. *)
Definition calls (effects : list effect) : nat := weight call_weight effects.

(** A computation whose effects weigh at most [n] and that leaves the
    recovery history alone, however it ends. *)
Definition cost_le {W A} (mu : effect -> nat) (n : nat) (m : SE.M (state W) A) : Prop :=
  forall s, exists effects,
    log (snd (m s)) = log s ++ effects
    /\ recovery_history (snd (m s)) = recovery_history s
    /\ (weight mu effects <= n)%nat.

(** A computation that never raises. *)
Definition never_raises {W A} (m : SE.M (state W) A) : Prop :=
  forall s, exists a, fst (m s) = Ok a.

(** The number of recovery attempts recorded for a target. *)
Definition attempts_for {W} (target : option str) (s : state W) : Z :=
  Z.of_nat (length (filter (fun h => h = target) (recovery_history s))).

End ExecMore.

(** ** Further notions on the loop *)

Module TraceNotions.
Import Py Orchestrator.

Definition is_planned (ev : event) : bool :=
  match ev with Planned _ => true | _ => false end.

Definition is_captured (ev : event) : bool :=
  match ev with Captured _ => true | _ => false end.

Definition is_stop_checked (ev : event) : bool :=
  match ev with StopChecked _ => true | _ => false end.

(** How often an event of some kind occurs. *)
Definition occurrences (kind : event -> bool) (events : list event) : nat :=
  length (filter (fun ev => kind ev = true) events).

(** The weight of some events, for a weight [mu] of each. *)
Definition trace_weight (mu : event -> nat) (events : list event) : nat :=
  sum_list (map mu events).

(** A computation whose events weigh at most [n], however it ends. *)
Definition emits_le {W A} (mu : event -> nat) (n : nat) (m : SE.M (state W) A) : Prop :=
  forall s, exists events,
    trace (snd (m s)) = trace s ++ events /\ (trace_weight mu events <= n)%nat.

(** The last event of a trace is the plan [plan]. *)
Definition ends_with_plan (events : list event) (plan : PlanningResult.t) : Prop :=
  exists earlier, events = earlier ++ [Planned plan].

(** A result that agrees with the state the task ends in: it counts and
    carries the ledger, its state is the orchestrator's, and it is either a
    success (completed, no error, the last event being a plan that says the
    task is complete) or a failure (failed, with an error). *)
Definition result_of_state {W} (task : str) (t : TaskResult.t) (s' : state W) : Prop :=
  TaskResult.task t = task
  /\ TaskResult.steps_executed t = Z.of_nat (length (TaskResult.completed_steps t))
  /\ TaskResult.completed_steps t = completed_steps s'
  /\ TaskResult.state t = exec_state s'
  /\ ((TaskResult.success t = true /\ TaskResult.state t = COMPLETED
       /\ TaskResult.error t = None
       /\ exists plan, PlanningResult.task_complete plan = true
                       /\ ends_with_plan (trace s') plan)
      \/ (TaskResult.success t = false /\ TaskResult.state t = FAILED
          /\ is_Some (TaskResult.error t))).

End TraceNotions.

Module MoreSamples.
Import Py Index Notions Orchestrator LoopSamples.

(** A planner that taps once and then says the task is complete (the
    ledger tells it where it is), and an orchestrator on it. *)
Definition tap_then_complete : DynamicTaskPlanner.t nat :=
  DynamicTaskPlanner.mk nat (fun _ _ ledger => Ok (str_of_int (Z.of_nat (length ledger))))
    (fun _ prompt w =>
       (Ok (if eqb prompt (py "0") then single_of (ExecNotions.tap_at 10 20)
            else PlanningResult.mk None None true (py "done") 1), w)).

Definition completing : Orchestrator.t nat :=
  mk nat tap_then_complete succeeding None 5 30000 None None.

(** A batch of three scrolls whose second one fails. *)
Definition second_fails (context : AgentContext.t) (w : nat) : may_raise AgentResult.t * nat :=
  (Ok (if Nat.eqb w 1 then AgentResult.failure_result (py "rejected") (py "Failed")
       else AgentResult.success_result (py "Executed action") None), S w).

Definition batching : Orchestrator.t nat :=
  mk nat (constant_planner
            (batch_of [scroll_to "down"; scroll_to "down"; scroll_to "down"]))
    second_fails None 5 30000 None None.

End MoreSamples.

(** ** The rest of [Point] ([value_objects/point.py]) *)

Module PointMethods.
Import Py.

(** [Point.offset]: a new point, validated like any other. *)
Definition offset (self : Point.t) (dx dy : Z) : may_raise Point.t :=
  Point.new (Point.x self + dx) (Point.y self + dy).

(** [0 <= self.x < width and 0 <= self.y < height] *)
Definition is_within_bounds (self : Point.t) (width height : Z) : bool :=
  (0 <=? Point.x self) && (Point.x self <? width)
  && ((0 <=? Point.y self) && (Point.y self <? height)).

End PointMethods.

(** ** Screen information ([value_objects/screen_info.py]) *)

Module ScreenInfo.
Import Py.

Section WithFloat.
(** Binary floating point is not modelled: a [float] is a value of an
    unspecified type, of which the validation only uses the test
    [x <= 0]. *)
Variable float : Type.
Variable le_zero : float -> bool.

Record t : Type := mk {
  width : Z;
  height : Z;
  density : float;
  orientation : str;
  scale_factor : float;
}.

Definition __post_init__ (self : t) : may_raise unit :=
  if (width self <=? 0) || (height self <=? 0) then
    Raise (ValueError (py "Screen dimensions must be positive"))
  else if le_zero (density self) then
    Raise (ValueError (py "Screen density must be positive"))
  else if le_zero (scale_factor self) then
    Raise (ValueError (py "Scale factor must be positive"))
  else if negb (eqb (orientation self) (py "portrait")
                || eqb (orientation self) (py "landscape")) then
    Raise (ValueError (py "Orientation must be 'portrait' or 'landscape'"))
  else Ok tt.

(** [ScreenInfo(...)]: the dataclass constructor followed by
    [__post_init__]. *)
Definition new (width height : Z) (density : float) (orientation : str)
    (scale_factor : float) : may_raise t :=
  let self := mk width height density orientation scale_factor in
  match __post_init__ self with
  | Ok _ => Ok self
  | Raise e => Raise e
  end.

(** [Point(self.width // 2, self.height // 2)] *)
Definition center (self : t) : may_raise Point.t :=
  Point.new (width self `div` 2) (height self `div` 2).

Definition is_portrait (self : t) : bool := eqb (orientation self) (py "portrait").

Definition is_landscape (self : t) : bool := eqb (orientation self) (py "landscape").

Definition contains_point (self : t) (point : Point.t) : bool :=
  PointMethods.is_within_bounds point (width self) (height self).

(** [get_safe_area]: the two corners, each a validated point. *)
Definition get_safe_area (self : t) (margin : Z) : may_raise (Point.t * Point.t) :=
  match Point.new margin margin with
  | Raise e => Raise e
  | Ok top_left =>
    match Point.new (width self - margin) (height self - margin) with
    | Raise e => Raise e
    | Ok bottom_right => Ok (top_left, bottom_right)
    end
  end.

End WithFloat.

Arguments mk {float} _ _ _ _ _.
Arguments width {float} _.
Arguments height {float} _.
Arguments density {float} _.
Arguments orientation {float} _.
Arguments scale_factor {float} _.
Arguments __post_init__ {float} _ _.
Arguments new {float} _ _ _ _ _ _.
Arguments center {float} _.
Arguments is_portrait {float} _.
Arguments is_landscape {float} _.
Arguments contains_point {float} _ _.
Arguments get_safe_area {float} _ _.

End ScreenInfo.

(** ** The controller's view of an element
    ([infrastructure/devices/base_controller.py], class [UIElement]) *)

Module BaseController.
Module UIElement.
Import Py.

Record t : Type := mk {
  id : option str;
  text : option str;
  content_desc : option str;
  class_name : option str;
  bounds : option (Point.t * Point.t);
  clickable : bool;
  scrollable : bool;
  enabled : bool;
  visible : bool;
  attributes : option params;
}.

(** The property [center]: the middle of the bounds, a validated point, or
    [None] without bounds. *)
Definition center (self : t) : may_raise (option Point.t) :=
  match bounds self with
  | Some (top_left, bottom_right) =>
    match Point.new ((Point.x top_left + Point.x bottom_right) `div` 2)
                    ((Point.y top_left + Point.y bottom_right) `div` 2) with
    | Ok p => Ok (Some p)
    | Raise e => Raise e
    end
  | None => Ok None
  end.

End UIElement.
End BaseController.

(** ** The task manager ([dynamic_planner.py], class [TaskExecutionManager]) *)

Module TaskStatus.
Inductive t : Type := PENDING | IN_PROGRESS | COMPLETED | FAILED.

#[global] Instance eq_dec : EqDecision t.
Proof. solve_decision. Defined.

(** [status.value] *)
Definition value (s : t) : Py.str :=
  match s with
  | PENDING => Py.py "pending"
  | IN_PROGRESS => Py.py "in_progress"
  | COMPLETED => Py.py "completed"
  | FAILED => Py.py "failed"
  end.
End TaskStatus.

Module TaskExecutionManager.
Import Py.

(** The fields set by [__init__] and never reassigned. *)
Record t (W : Type) : Type := mk {
  planner : DynamicTaskPlanner.t W;
  max_steps : Z;
}.
Arguments planner {W} _.
Arguments max_steps {W} _.

(** The world and the mutable fields. *)
Record state (W : Type) : Type := mk_state {
  world : W;
  completed_steps : list CompletedStep.t;
  current_task : str;
  status : TaskStatus.t;
}.
Arguments mk_state {W} _ _ _ _.
Arguments world {W} _.
Arguments completed_steps {W} _.
Arguments current_task {W} _.
Arguments status {W} _.

(** The state [__init__] leaves. *)
Definition initial {W} (w : W) : state W := mk_state w [] [] TaskStatus.PENDING.

(** One entry of the [steps] list of [get_progress]. *)
Record step_summary : Type := mk_summary {
  summary_action : str;
  summary_target : option str;
  summary_description : str;
  summary_success : bool;
}.

(** The dictionary [get_progress] returns. *)
Record progress : Type := mk_progress {
  progress_task : str;
  progress_status : str;
  progress_completed_steps : Z;
  progress_max_steps : Z;
  progress_steps : list step_summary;
}.

Section Methods.
Context {W : Type}.
Variable self : t W.

Definition start_task (task : str) : SE.M (state W) unit :=
  SE.modify (fun s => mk_state (world s) [] task TaskStatus.IN_PROGRESS).

(** [self.status = v] *)
Definition set_status (v : TaskStatus.t) : SE.M (state W) unit :=
  SE.modify (fun s => mk_state (world s) (completed_steps s) (current_task s) v).

Definition get_next_step (ui_context : UIContext.t) : SE.M (state W) PlanningResult.t :=
  s ← SE.get;
  if negb (bool_decide (status s = TaskStatus.IN_PROGRESS)) then
    mret (PlanningResult.mk None None true (py "任务未在进行中") (8 # 10))
  else if Z.of_nat (length (completed_steps s)) >=? max_steps self then
    set_status TaskStatus.FAILED;;
    mret (PlanningResult.mk None None true
            (py "达到最大步数限制(" ++ str_of_int (max_steps self) ++ py ")") (8 # 10))
  else
    result ← (fun s0 : state W =>
                let '(r, w) :=
                  DynamicTaskPlanner.plan_next_step (planner self) (current_task s0)
                    ui_context (completed_steps s0) (world s0) in
                (r, mk_state w (completed_steps s0) (current_task s0) (status s0)));
    (if PlanningResult.task_complete result then set_status TaskStatus.COMPLETED
     else mret tt);;
    mret result.

Definition record_step (step : CompletedStep.t) : SE.M (state W) unit :=
  SE.modify (fun s =>
    mk_state (world s) (completed_steps s ++ [step]) (current_task s) (status s)).

Definition get_progress (s : state W) : progress :=
  mk_progress (current_task s) (TaskStatus.value (status s))
    (Z.of_nat (length (completed_steps s))) (max_steps self)
    (map (fun step =>
            mk_summary (CompletedStep.action step) (CompletedStep.target step)
              (CompletedStep.description step) (CompletedStep.success step))
         (completed_steps s)).

End Methods.
(** What [get_progress] lists for a recorded step. *)
Definition summary_of (step : CompletedStep.t) : step_summary :=
  mk_summary (CompletedStep.action step) (CompletedStep.target step)
    (CompletedStep.description step) (CompletedStep.success step).

(** The state after [record_step] has been called on each of [steps] in
    turn. *)
Definition after_records {W} (steps : list CompletedStep.t) (s : state W) : state W :=
  fold_left (fun s step => snd (record_step step s)) steps s.

(** The decision with which the manager ends a task by itself. *)
Definition stop_plan (reason : str) : PlanningResult.t :=
  PlanningResult.mk None None true reason (8 # 10).

End TaskExecutionManager.

(** ** [UIContext.has_element] ([dynamic_planner.py]) *)

Module UIContextMore.
Import Py UIElement.

Definition has_element (self : UIContext.t) (name : str) : bool :=
  let name_lower := lower name in
  existsb (fun e =>
             let text := lower (strip (get_str (text e))) in
             let desc := lower (strip (get_str (content_desc e))) in
             contains text name_lower || contains desc name_lower)
    (UIContext.elements self).

End UIContextMore.

(** ** Further notions on the rewrites of the planner's steps *)

Module RewriteNotions.
Import Py Orchestrator.

(** A description that refers to an element by its number ("第X个元素",
    "编号"), as [_is_digit_clicks] tests it on the lower-cased text. *)
Definition index_phrasing (description : str) : bool :=
  let desc := lower description in
  (contains desc (py "第") && contains desc (py "元素")) || contains desc (py "编号").

End RewriteNotions.

(** ** More Python built-ins *)

Module PyMore.
Import Py.

(** [s.replace(old, new)]: the occurrences of [old] are replaced from left
    to right, without overlap ([skip] counts the characters of an
    occurrence still to be passed over); with an empty [old], [new] is put
    before every character and at the end. *)
Fixpoint replace_from (skip : nat) (old new : str) (s : str) : str :=
  match s with
  | [] => []
  | c :: r =>
    match skip with
    | S k => replace_from k old new r
    | O =>
      if startswith s old then new ++ replace_from (length old - 1) old new r
      else c :: replace_from 0 old new r
    end
  end.

Definition replace (s old new : str) : str :=
  match old with
  | [] => new ++ flat_map (fun c => c :: new) s
  | _ => replace_from 0 old new s
  end.

(** [s.split()]: the maximal runs of characters that are not whitespace;
    [word] is the run being read. *)
Fixpoint split_from (word : str) (s : str) : list str :=
  match s with
  | [] => if truthy word then [word] else []
  | c :: r =>
    if is_space c then
      if truthy word then word :: split_from [] r else split_from [] r
    else split_from (word ++ [c]) r
  end.

Definition split (s : str) : list str := split_from [] s.

(** [l.sort(key=key)]: a stable sort, here by insertion from the right:
    an element goes before the first one whose key is not smaller. *)
Fixpoint insert_by {A} (key : A -> Z) (x : A) (l : list A) : list A :=
  match l with
  | [] => [x]
  | y :: r => if key x <=? key y then x :: l else y :: insert_by key x r
  end.

Definition sort_by {A} (key : A -> Z) (l : list A) : list A :=
  foldr (insert_by key) [] l.

(** A list in ascending order of the keys. *)
Fixpoint sorted_by {A} (key : A -> Z) (l : list A) : Prop :=
  match l with
  | [] => True
  | x :: r => Forall (fun y => key x <= key y) r /\ sorted_by key r
  end.

End PyMore.

(** ** The search of an element by its text ([action_executor.py]) *)

Module ElementSearch.
Import Py PyMore UIElement.

Definition stop_words : list str :=
  [py "app"; py "icon"; py "button"; py "the"; py "a"; py "an"; py "click"; py "tap";
   py "open"; py "launch"; py "打开"; py "点击"; py "按钮"; py "图标"].

Definition _extract_keywords (target : str) : list str :=
  let words := split (replace (replace target (py ",") (py " ")) (py ".") (py " ")) in
  let keywords :=
    filter (fun w => (w ∉ stop_words) /\ (2 <= length w)%nat) words in
  let clean_target :=
    fold_left (fun clean sw => replace clean sw []) stop_words (concat (split target)) in
  if truthy clean_target && (2 <=? length clean_target)%nat
  then keywords ++ [clean_target]
  else keywords.

(** The local function [is_valid_target]: clickable, and not in the top
    150 pixels. *)
Definition is_valid_target (elem : UIElement.t) : bool :=
  if negb (default false (clickable elem)) then false
  else if snd (default (0, 0) (center elem)) <? 150 then false
  else true.

(** The body of the loop over the elements: the candidate an element
    gives, with its priority (the text kept for the log is left out). *)
Definition candidate_of (target_lower : str) (keywords : list str) (element : UIElement.t)
    : option (UIElement.t * Z) :=
  let text := or_else (get_str (text element)) [] in
  let content_desc := or_else (get_str (content_desc element)) [] in
  let text_lower := lower text in
  let desc_lower := lower content_desc in
  if truthy text && eqb text_lower target_lower then Some (element, 1)
  else if truthy content_desc && eqb desc_lower target_lower then Some (element, 1)
  else if truthy text && contains text_lower target_lower then Some (element, 2)
  else if truthy content_desc && contains desc_lower target_lower then Some (element, 2)
  else
    let matched_keywords :=
      filter (fun keyword =>
                truthy keyword && (2 <=? length keyword)%nat
                && (contains text_lower keyword || contains desc_lower keyword) = true)
        keywords in
    match matched_keywords with
    | [] => None
    | _ => Some (element, 5 - Z.min (Z.of_nat (length matched_keywords)) 3)
    end.

Definition _find_element_by_target_simple (target : str) (ui_elements : list UIElement.t)
    : option UIElement.t :=
  let target_lower := lower target in
  let keywords := _extract_keywords target_lower in
  let candidates := omap (candidate_of target_lower keywords) ui_elements in
  match candidates with
  | [] => None
  | _ =>
    let candidates := sort_by snd candidates in
    match find (fun c => is_valid_target (fst c)) candidates with
    | Some c => Some (fst c)
    | None => option_map fst (head candidates)
    end
  end.

(** [_find_element_by_target], the synchronous entry. *)
Definition _find_element_by_target (target : str) (ui_elements : list UIElement.t)
    : option UIElement.t :=
  _find_element_by_target_simple target ui_elements.

(** An element whose text is the target, letter case apart. *)
Definition exact_match (target : str) (element : UIElement.t) : bool :=
  truthy (get_str (text element)) && eqb (lower (get_str (text element))) (lower target).

(** An element the search considers for a target. *)
Definition considered (target : str) (element : UIElement.t) : bool :=
  bool_decide (is_Some (candidate_of (lower target) (_extract_keywords (lower target))
                          element)).

End ElementSearch.

Module SearchNotions.
Import Py UIElement ElementSearch.

(** An element whose text, or else whose label, is the target, letter
    case apart: the matches of the highest priority. *)
Definition exact_text_or_label (target : str) (element : UIElement.t) : bool :=
  exact_match target element
  || (truthy (get_str (content_desc element))
      && eqb (lower (get_str (content_desc element))) (lower target)).

End SearchNotions.


(** * Properties *)

Import Py.
Local Open Scope Z_scope.

(** ** Strings *)

Section Strings.
Import Index.

Lemma truthy_nonempty (s : str) : truthy s = true <-> s <> [].
Proof. destruct s; simpl; split; congruence. Qed.

Lemma truthy_app_l (a b : str) : truthy a = true -> truthy (a ++ b) = true.
Proof. destruct a; simpl; congruence. Qed.

Lemma eqb_true (a b : str) : eqb a b = true <-> a = b.
Proof. unfold eqb. apply bool_decide_eq_true. Qed.

Lemma eqb_refl (a : str) : eqb a a = true.
Proof. by apply eqb_true. Qed.

Lemma uint_chars_digits (u : Decimal.uint) :
  Forall (fun c => (48 <= c <= 57)%N) (uint_chars u).
Proof. induction u; simpl; constructor; auto; lia. Qed.

Lemma str_of_int_chars (z : Z) : Forall int_char (str_of_int z).
Proof.
  unfold str_of_int. destruct (Z.to_int z) as [u|u].
  - eapply Forall_impl; [apply uint_chars_digits|]. intros c Hc. by left.
  - constructor; [by right|].
    eapply Forall_impl; [apply uint_chars_digits|]. intros c Hc. by left.
Qed.

Lemma uint_chars_inj (u v : Decimal.uint) : uint_chars u = uint_chars v -> u = v.
Proof.
  revert v. induction u; intros v; destruct v; simpl; intros H;
    try discriminate; try reflexivity;
    injection H as H; f_equal; auto.
Qed.

Lemma str_of_int_inj (a b : Z) : str_of_int a = str_of_int b -> a = b.
Proof.
  unfold str_of_int. intros H.
  rewrite <- (DecimalZ.of_to a), <- (DecimalZ.of_to b).
  destruct (Z.to_int a) as [u|u], (Z.to_int b) as [v|v].
  - by rewrite (uint_chars_inj _ _ H).
  - exfalso. pose proof (uint_chars_digits u) as Hd. rewrite H in Hd.
    inversion Hd; subst. lia.
  - exfalso. pose proof (uint_chars_digits v) as Hd. rewrite <- H in Hd.
    inversion Hd; subst. lia.
  - injection H as H. by rewrite (uint_chars_inj _ _ H).
Qed.

(** Cutting two equal strings at the first occurrence of a character. *)
Lemma app_cut (c : char) (a b x y : str) :
  c ∉ a -> c ∉ b -> a ++ c :: x = b ++ c :: y -> a = b /\ x = y.
Proof.
  revert b. induction a as [|d a IH]; intros [|e b] Ha Hb H; simpl in H.
  - injection H as H. done.
  - injection H as -> H. apply not_elem_of_cons in Hb as [? _]. done.
  - injection H as <- H. apply not_elem_of_cons in Ha as [? _]. done.
  - injection H as -> H.
    apply not_elem_of_cons in Ha as [_ Ha]. apply not_elem_of_cons in Hb as [_ Hb].
    destruct (IH b Ha Hb H) as [-> ->]. done.
Qed.

Lemma int_char_not (c : char) (z : Z) :
  ~ int_char c -> c ∉ str_of_int z.
Proof.
  intros Hc Hin. pose proof (str_of_int_chars z) as HF.
  rewrite Forall_forall in HF. by apply Hc, HF.
Qed.

End Strings.

(** ** The unified index *)

Section BuildIndex.
Import UIElement UIContext Index.

Lemma with_position_eq (name : str) (c : Z * Z) :
  with_position name c
  = name ++ at_sign :: 40%N :: str_of_int (fst c) ++ 44%N :: str_of_int (snd c) ++ [41%N].
Proof. reflexivity. Qed.

Lemma with_position_at (name : str) (c : Z * Z) : at_sign ∈ with_position name c.
Proof. rewrite with_position_eq. apply elem_of_app. right. apply elem_of_cons. by left. Qed.

(** Names without [@] and their centres can be read back from the
    display name. *)
Lemma with_position_inj (n1 n2 : str) (c1 c2 : Z * Z) :
  at_sign ∉ n1 -> at_sign ∉ n2 ->
  with_position n1 c1 = with_position n2 c2 -> n1 = n2 /\ c1 = c2.
Proof.
  intros H1 H2 H. rewrite !with_position_eq in H.
  apply app_cut in H as [-> H]; [|done|done]. split; [done|].
  injection H as H.
  apply app_cut in H as [Hx H].
  - apply app_inj_tail in H as [Hy _].
    destruct c1, c2; simpl in *. f_equal; by apply str_of_int_inj.
  - apply int_char_not. unfold int_char. lia.
  - apply int_char_not. unfold int_char. lia.
Qed.

(** The placeholder of an unnamed input field is not empty. *)
Lemma name_of_truthy (i : Z) (e : UIElement.t) :
  truthy (name_of i e) = truthy (label_of e) || is_input e.
Proof.
  unfold name_of. destruct (truthy (label_of e)) eqn:Hl; simpl; [done|].
  destruct (is_input e); simpl; [|done].
  destruct (truthy (strip (get_str (hint e)))) eqn:Hh; [done|].
  reflexivity.
Qed.

Lemma should_include_included (co : bool) (i : Z) (e : UIElement.t) :
  (if co then truthy (name_of i e) && (default false (clickable e) || is_input e)
   else truthy (name_of i e)) = included co e.
Proof. unfold included. rewrite name_of_truthy. by destruct co. Qed.

(** What one iteration does, by whether the element is kept. *)
Lemma build_step_skip (co : bool) (st : locals) (e : UIElement.t) :
  included co e = false -> build_step co st e = st.
Proof.
  intros H. unfold build_step. rewrite should_include_included, H. done.
Qed.

Lemma build_step_keep (co : bool) (st : locals) (e : UIElement.t) :
  included co e = true ->
  let name := name_of (idx st) e in
  let c := default (0, 0) (center e) in
  build_step co st e =
    {| result := result st ++
                 [(idx st,
                   if bool_decide (is_Some (name_counter st !! name))
                   then with_position name c else name, e)];
       idx := idx st + 1;
       name_counter :=
         <[name := match name_counter st !! name with Some n => n + 1 | None => 1 end]>
           (name_counter st) |}.
Proof.
  intros H name c. unfold build_step. rewrite should_include_included, H.
  fold name. fold c. destruct (name_counter st !! name); reflexivity.
Qed.

Lemma one_to_snoc (n : nat) : one_to (S n) = one_to n ++ [Z.of_nat n + 1].
Proof.
  unfold one_to. rewrite seq_S, map_app. simpl. do 2 f_equal. lia.
Qed.

Lemma build_inv_init (co : bool) :
  build_inv co [] {| result := []; idx := 1; name_counter := ∅ |}.
Proof.
  split; simpl; try done.
  - intros n. rewrite lookup_empty. split; [by intros [? ?]|]. by intros ?%elem_of_nil.
Qed.

Lemma build_inv_step (co : bool) (es : list UIElement.t) (st : locals) (e : UIElement.t) :
  build_inv co es st -> build_inv co (es ++ [e]) (build_step co st e).
Proof.
  intros [Hidx Hind Hel Hcnt Hdisp].
  destruct (included co e) eqn:Hinc.
  - rewrite build_step_keep by done. cbv zeta.
    set (name := name_of (idx st) e). set (c := default (0, 0) (center e)).
    split; simpl.
    + rewrite length_app. simpl. lia.
    + rewrite map_app, length_app. simpl.
      rewrite Nat.add_1_r, one_to_snoc, Hind. unfold index_of; simpl.
      by rewrite Hidx.
    + rewrite map_app, filter_app, Hel. simpl.
      rewrite filter_cons_True by done. by rewrite filter_nil.
    + intros n. rewrite map_app. simpl. rewrite elem_of_app, list_elem_of_singleton.
      unfold base_of at 2, index_of, element_of; simpl. fold name.
      destruct (decide (n = name)) as [->|Hne].
      * rewrite lookup_insert_eq. split; [by right|by eauto].
      * rewrite lookup_insert_ne by done. rewrite Hcnt. split; [by left|].
        intros [?|?]; done.
    + intros i en Hi.
      destruct (decide (i < length (result st))%nat) as [Hlt|Hge].
      * rewrite lookup_app_l in Hi by done.
        rewrite take_app_le by lia. by apply Hdisp.
      * rewrite lookup_app_r in Hi by lia.
        destruct (i - length (result st))%nat eqn:Hd; [|by destruct n].
        simpl in Hi. injection Hi as <-.
        assert (i = length (result st)) as -> by lia.
        rewrite take_app_length.
        unfold display_of, disambiguated, base_of, center_of, index_of, element_of; simpl.
        fold name. fold c.
        rewrite (bool_decide_ext _ _ (Hcnt name)). reflexivity.
  - rewrite build_step_skip by done.
    split; try done.
    rewrite filter_app, Hel. rewrite filter_cons_False, filter_nil, app_nil_r; [done|].
    by rewrite Hinc.
Qed.

Lemma build_inv_all (co : bool) (es : list UIElement.t) :
  build_inv co es
    (fold_left (build_step co) es {| result := []; idx := 1; name_counter := ∅ |}).
Proof.
  induction es as [|e es IH] using rev_ind.
  - apply build_inv_init.
  - rewrite fold_left_app. simpl. by apply build_inv_step.
Qed.

End BuildIndex.

Section BuildIndexClaims.
Import UIElement UIContext Index.

(** Display names are pairwise distinct when no kept name contains [@] and
    no two kept elements share both name and centre. *)
Lemma display_names_distinct (r : list entry) :
  (forall i en, r !! i = Some en ->
     display_of en = disambiguated (map base_of (take i r)) (base_of en) (center_of en)) ->
  (forall en, en ∈ r -> at_sign ∉ base_of en) ->
  (forall i j a b, (i < j)%nat -> r !! i = Some a -> r !! j = Some b ->
     base_of a = base_of b -> center_of a <> center_of b) ->
  NoDup (map display_of r).
Proof.
  intros Hdisp Hat Hpos.
  assert (forall i j a b, (i < j)%nat -> r !! i = Some a -> r !! j = Some b ->
            display_of a <> display_of b) as Hlt.
  { intros i j a b Hij Ha Hb Heq.
    rewrite (Hdisp _ _ Ha), (Hdisp _ _ Hb) in Heq. unfold disambiguated in Heq.
    assert (at_sign ∉ base_of a) as Haa by (apply Hat; eapply list_elem_of_lookup_2; eauto).
    assert (at_sign ∉ base_of b) as Hab by (apply Hat; eapply list_elem_of_lookup_2; eauto).
    assert (base_of a ∈ map base_of (take j r)) as Hseen.
    { apply list_elem_of_In, in_map, list_elem_of_In, elem_of_take. eauto. }
    destruct (bool_decide (base_of b ∈ map base_of (take j r))) eqn:Hb'.
    - destruct (bool_decide (base_of a ∈ map base_of (take i r))) eqn:Ha'.
      + apply with_position_inj in Heq as [Hn Hc]; [|done|done].
        by apply (Hpos i j a b).
      + apply Haa. rewrite Heq. apply with_position_at.
    - apply bool_decide_eq_false in Hb'.
      destruct (bool_decide (base_of a ∈ map base_of (take i r))) eqn:Ha'.
      + apply Hab. rewrite <- Heq. apply with_position_at.
      + apply Hb'. by rewrite <- Heq. }
  apply NoDup_alt. intros i j x Hi Hj.
  change (map display_of r) with (display_of <$> r) in Hi, Hj.
  rewrite list_lookup_fmap in Hi, Hj.
  destruct (r !! i) as [a|] eqn:Ha; [|done].
  destruct (r !! j) as [b|] eqn:Hb; [|done].
  simpl in Hi, Hj. injection Hi as Hi. injection Hj as Hj.
  destruct (Nat.lt_trichotomy i j) as [Hij|[->|Hij]]; [|done|].
  - exfalso. apply (Hlt i j a b); congruence.
  - exfalso. apply (Hlt j i b a); congruence.
Qed.

(** C1, as amended.  For every snapshot and both values of
    [clickable_only], the indices of the result are exactly [1..N], where
    [N] is the number of elements the builder keeps (the [included] ones, in
    order); an entry whose name was not seen before shows the name itself,
    one whose name was seen before shows [name@(x,y)]; and no two entries
    share a display name when no kept name contains [@] and no two kept
    elements share both name and centre. *)
Theorem build_index_amended (self : UIContext.t) (clickable_only : bool) :
  let r := _build_indexed_elements self clickable_only in
  map index_of r = one_to (length r)
  /\ length r = length (filter (fun e => included clickable_only e = true) (elements self))
  /\ map element_of r = filter (fun e => included clickable_only e = true) (elements self)
  /\ (forall i en, r !! i = Some en ->
        display_of en = disambiguated (map base_of (take i r)) (base_of en) (center_of en))
  /\ ((forall en, en ∈ r -> at_sign ∉ base_of en) ->
      (forall i j a b, (i < j)%nat -> r !! i = Some a -> r !! j = Some b ->
         base_of a = base_of b -> center_of a <> center_of b) ->
      NoDup (map display_of r)).
Proof.
  intros r. destruct (build_inv_all clickable_only (elements self))
    as [Hidx Hind Hel Hcnt Hdisp].
  fold (_build_indexed_elements self clickable_only) in *. fold r in Hidx, Hind, Hel, Hcnt, Hdisp.
  repeat split; try done.
  - by rewrite <- Hel, length_map.
  - by apply display_names_distinct.
Qed.

(** A snapshot with a repeated name at different places. *)
Lemma build_index_amended_witness :
  NoDup (map display_of
           (_build_indexed_elements
              (snapshot [button "OK" (10, 20); button "OK" (30, 40); text_field (5, 5)])
              false)).
Proof.
  pose proof (build_index_amended
                (snapshot [button "OK" (10, 20); button "OK" (30, 40); text_field (5, 5)])
                false) as (_ & _ & _ & _ & H).
  apply H.
  - intros en Hen. vm_compute in Hen.
    repeat (apply elem_of_cons in Hen as [->|Hen]); [| | |by apply elem_of_nil in Hen];
      vm_compute; intros Hin;
      repeat (apply elem_of_cons in Hin as [Hin|Hin]; [discriminate Hin|]);
      by apply elem_of_nil in Hin.
  - intros i j a b Hij Ha Hb. vm_compute in Ha, Hb.
    destruct i as [|[|[|i]]]; try discriminate Ha;
      destruct j as [|[|[|j]]]; try discriminate Hb; try lia;
      injection Ha as <-; injection Hb as <-; vm_compute; congruence.
Defined.

(** C1, as stated, fails.  A clickable icon without text qualifies in the
    spec's sense and gets no index; and three buttons of the same name at
    the same place give the display name [A@(1,2)] twice. *)
Lemma build_index_counterexample :
  length (_build_indexed_elements (snapshot [icon (5, 5)]) false)
    <> length (filter (fun e => spec_qualifies e = true) [icon (5, 5)])
  /\ ~ NoDup (map display_of
                (_build_indexed_elements
                   (snapshot [button "A" (1, 2); button "A" (1, 2); button "A" (1, 2)])
                   false)).
Proof.
  split.
  - vm_compute. discriminate.
  - intros H. rewrite NoDup_alt in H. specialize (H 1%nat 2%nat (py "A@(1,2)")).
    vm_compute in H. by specialize (H eq_refl eq_refl).
Qed.

End BuildIndexClaims.

Section Lookup.
Import UIElement UIContext Index.

(** Inside the range the subscript is valid: the lookup gives the element
    of that index and never raises. *)
Lemma lookup_in_range (self : UIContext.t) (index : value) (i : Z) :
  as_int_instance index = Some i ->
  1 <= i <= Z.of_nat (length (get_indexed_all_elements self)) ->
  exists en, get_indexed_all_elements self !! Z.to_nat (i - 1) = Some en
             /\ get_element_by_index self index = Ok (Some (element_of en)).
Proof.
  intros Hi Hr. unfold get_element_by_index, get_indexed_all_elements in *. rewrite Hi.
  replace ((1 <=? i) && (i <=? Z.of_nat (length (_build_indexed_elements self false))))
    with true by (symmetry; apply andb_true_intro; split; lia).
  destruct (_build_indexed_elements self false !! Z.to_nat (i - 1)) as [en|] eqn:Hen.
  - eauto.
  - apply lookup_ge_None in Hen. lia.
Qed.

(** An element found by index is an element of the index. *)
Lemma lookup_some_entry (self : UIContext.t) (index : value) (e : UIElement.t) :
  get_element_by_index self index = Ok (Some e) ->
  exists en, en ∈ get_indexed_all_elements self /\ element_of en = e.
Proof.
  unfold get_element_by_index, get_indexed_all_elements.
  destruct (as_int_instance index) as [i|]; [|discriminate].
  destruct (_ && _); [|discriminate].
  destruct (_build_indexed_elements self false !! Z.to_nat (i - 1)) as [en|] eqn:Hen;
    [|discriminate].
  intros [= <-]. exists en. split; [|done]. eapply list_elem_of_lookup_2; eauto.
Qed.

Lemma lookup_never_raises (self : UIContext.t) (index : value) :
  exists r, get_element_by_index self index = Ok r.
Proof.
  destruct (as_int_instance index) as [i|] eqn:Hi.
  - destruct (decide (1 <= i <= Z.of_nat (length (get_indexed_all_elements self)))) as [Hr|Hr].
    + destruct (lookup_in_range self index i Hi Hr) as (en & _ & ->). eauto.
    + unfold get_element_by_index. rewrite Hi.
      fold (get_indexed_all_elements self).
      replace ((1 <=? i) && (i <=? Z.of_nat (length (get_indexed_all_elements self))))
        with false; [eauto|].
      symmetry. apply andb_false_iff. lia.
  - unfold get_element_by_index. rewrite Hi. eauto.
Qed.

(** Outside the range the lookup returns [None]. *)
Lemma lookup_outside (self : UIContext.t) (index : value) :
  out_of_range self index -> get_element_by_index self index = Ok None.
Proof.
  unfold out_of_range, get_element_by_index.
  fold (get_indexed_all_elements self).
  destruct (as_int_instance index) as [i|]; [|done].
  intros Hr.
  replace ((1 <=? i) && (i <=? Z.of_nat (length (get_indexed_all_elements self))))
    with false; [done|].
  symmetry. apply andb_false_iff. lia.
Qed.

(** The entry at position [i - 1] has the index [i]. *)
Lemma index_of_entry (self : UIContext.t) (i : Z) (en : entry) :
  1 <= i ->
  get_indexed_all_elements self !! Z.to_nat (i - 1) = Some en -> index_of en = i.
Proof.
  intros Hi Hen.
  destruct (build_inv_all false (elements self)) as [_ Hidx _ _ _].
  fold (_build_indexed_elements self false) in Hidx.
  fold (get_indexed_all_elements self) in Hidx.
  assert (map index_of (get_indexed_all_elements self) !! Z.to_nat (i - 1) = Some (index_of en))
    as Hm by (by rewrite list_lookup_fmap, Hen).
  rewrite Hidx in Hm. unfold one_to in Hm. rewrite list_lookup_fmap in Hm.
  destruct (seq 1 _ !! Z.to_nat (i - 1)) as [k|] eqn:Hk; [|discriminate].
  apply lookup_seq in Hk as [-> _]. injection Hm as <-. lia.
Qed.

(** C2, as amended.  The lookup never raises.  It returns [None] exactly
    for an index that is out of range, the index being read as
    [isinstance(index, int)] reads it: an [int] stands for itself, a
    [bool] is an [int] too ([False] is 0 and [True] is 1), and any other
    value (None, a string) is no index.  So an [int] below 1 or above the
    number of indexed elements, [False], and every value that is neither
    an [int] nor a [bool] give [None]; an index inside the range gives the
    element of the entry that carries this index, and [True] is inside
    the range as soon as there is one element. *)
Theorem lookup_out_of_range (self : UIContext.t) (index : value) :
  (exists r, get_element_by_index self index = Ok r)
  /\ (out_of_range self index <-> get_element_by_index self index = Ok None)
  /\ ((forall z, index <> VInt z) -> (forall b, index <> VBool b) ->
      get_element_by_index self index = Ok None)
  /\ (forall z, index = VInt z ->
        z < 1 \/ Z.of_nat (length (get_indexed_all_elements self)) < z ->
        get_element_by_index self index = Ok None)
  /\ (index = VBool false -> get_element_by_index self index = Ok None)
  /\ (forall i, as_int_instance index = Some i ->
        1 <= i <= Z.of_nat (length (get_indexed_all_elements self)) ->
        exists en, en ∈ get_indexed_all_elements self
                   /\ index_of en = i
                   /\ get_element_by_index self index = Ok (Some (element_of en))).
Proof.
  split; [apply lookup_never_raises|].
  split; [|split; [|split; [|split]]].
  - split; [apply lookup_outside|].
    intros Hnone. unfold out_of_range.
    destruct (as_int_instance index) as [i|] eqn:Hi; [|done].
    destruct (decide (1 <= i <= Z.of_nat (length (get_indexed_all_elements self))))
      as [Hr|Hr]; [|lia].
    destruct (lookup_in_range self index i Hi Hr) as (en & _ & Hsome). congruence.
  - intros Hint Hbool. apply lookup_outside. unfold out_of_range.
    destruct index; simpl; try done; [by destruct (Hbool b)|by destruct (Hint z)].
  - intros z -> Hz. by apply lookup_outside.
  - intros ->. apply lookup_outside. unfold out_of_range. simpl. left. lia.
  - intros i Hi Hr. destruct (lookup_in_range self index i Hi Hr) as (en & Hen & Hsome).
    exists en. split; [by eapply list_elem_of_lookup_2|]. split; [|done].
    apply (index_of_entry self); [lia|done].
Qed.

(** The indices 7 and 0, [False] and the string "1" in a snapshot of one
    element. *)
Lemma lookup_out_of_range_witness :
  get_element_by_index (snapshot [button "OK" (10, 20)]) (VInt 7) = Ok None
  /\ get_element_by_index (snapshot [button "OK" (10, 20)]) (VInt 0) = Ok None
  /\ get_element_by_index (snapshot [button "OK" (10, 20)]) (VBool false) = Ok None
  /\ get_element_by_index (snapshot [button "OK" (10, 20)]) (VStr (py "1")) = Ok None.
Proof.
  split; [|split; [|split]].
  - apply (proj1 (proj1 (proj2
      (lookup_out_of_range (snapshot [button "OK" (10, 20)]) (VInt 7))))).
    unfold out_of_range. simpl as_int_instance. right. vm_compute. reflexivity.
  - apply (proj1 (proj1 (proj2
      (lookup_out_of_range (snapshot [button "OK" (10, 20)]) (VInt 0))))).
    unfold out_of_range. simpl as_int_instance. left. lia.
  - apply (proj1 (proj1 (proj2
      (lookup_out_of_range (snapshot [button "OK" (10, 20)]) (VBool false))))).
    unfold out_of_range. simpl as_int_instance. left. lia.
  - apply (proj1 (proj1 (proj2
      (lookup_out_of_range (snapshot [button "OK" (10, 20)]) (VStr (py "1")))))).
    exact I.
Defined.

(** C2, as stated, fails.  [True] is not an integer index, yet the lookup
    does not return [None] for it: in a snapshot of one element it returns
    that element, the element of index 1. *)
Lemma lookup_out_of_range_counterexample :
  (forall z, VBool true <> VInt z)
  /\ get_element_by_index (snapshot [button "OK" (10, 20)]) (VBool true)
     = Ok (Some (button "OK" (10, 20)))
  /\ get_element_by_index (snapshot [button "OK" (10, 20)]) (VInt 1)
     = Ok (Some (button "OK" (10, 20))).
Proof.
  split; [discriminate|]. split; vm_compute; reflexivity.
Qed.

End Lookup.


Import Py.
Local Open Scope Z_scope.

(** ** The rewrites of the planner's steps *)

Section ScrollCorrection.
Import Orchestrator Notions.

Lemma last_two_app {A} (l : list A) (a b : A) : last_two (l ++ [a; b]) = [a; b].
Proof.
  unfold last_two. rewrite length_app. simpl.
  replace (length l + 2 - 2)%nat with (length l) by lia.
  by rewrite drop_app_length.
Qed.








End ScrollCorrection.

Section DigitBatch.
Import Orchestrator Notions.

Lemma startswith_single (c : char) (s : str) : startswith (c :: s) [c] = true.
Proof. simpl. by rewrite N.eqb_refl. Qed.

Lemma contains_char (c : char) (s : str) : c ∈ s -> contains s [c] = true.
Proof.
  induction s as [|d s IH]; intros Hin.
  - by apply elem_of_nil in Hin.
  - apply elem_of_cons in Hin as [->|Hin].
    + unfold contains; fold contains. by rewrite startswith_single.
    + unfold contains; fold contains. rewrite (IH Hin). apply orb_true_r.
Qed.

Lemma decimal_digit_cases (d : char) :
  decimal_digit d ->
  d = 48%N \/ d = 49%N \/ d = 50%N \/ d = 51%N \/ d = 52%N \/ d = 53%N \/ d = 54%N
  \/ d = 55%N \/ d = 56%N \/ d = 57%N.
Proof. unfold decimal_digit. lia. Qed.

Lemma decimal_digit_keypad (d : char) : decimal_digit d -> keypad_char d = true.
Proof.
  intros H. apply decimal_digit_cases in H.
  repeat (destruct H as [->|H]; [reflexivity|]). by subst.
Qed.

(** The description of a single-digit tap passes the digit test. *)
Lemma has_digit (desc : str) (d : char) :
  decimal_digit d -> d ∈ desc -> existsb (contains desc) digit_pattern = true.
Proof.
  intros Hd Hin. apply existsb_exists. exists [d]. split.
  - apply decimal_digit_cases in Hd. unfold digit_pattern.
    repeat (destruct Hd as [->|Hd]; [vm_compute; tauto|]). subst. vm_compute. tauto.
  - by apply contains_char.
Qed.

Lemma filter_singleton_elem (P : char -> Prop) `{forall c, Decision (P c)} (s : str) (d : char) :
  filter P s = [d] -> d ∈ s.
Proof.
  unfold str in *. intros Hf. assert (d ∈ filter P s) as Hin by (rewrite Hf; apply elem_of_cons; by left).
  by apply list_elem_of_filter in Hin as [_ ?].
Qed.

(** With exactly one keypad character in the description, that character
    is the one extracted. *)
Lemma first_keypad_single (desc : str) (d : char) :
  filter (fun c => keypad_char c = true) desc = [d] -> first_keypad_char desc = Some d.
Proof.
  unfold first_keypad_char, str in *. induction desc as [|c desc IH]; intros Hf.
  - discriminate.
  - simpl. destruct (keypad_char c) eqn:Hc.
    + rewrite filter_cons_True in Hf by done. by injection Hf as ->.
    + rewrite filter_cons_False in Hf by (by rewrite Hc). by apply IH.
Qed.

Lemma extract_digits_cons (step : NextStep.t) (steps : list NextStep.t) :
  _extract_digits_from_clicks (step :: steps)
  = match first_keypad_char (NextStep.description step) with
    | Some c => c :: _extract_digits_from_clicks steps
    | None => _extract_digits_from_clicks steps
    end.
Proof. reflexivity. Qed.

Lemma input_step_kept (completed_steps : list CompletedStep.t) (text : str) :
  map (correct_scroll completed_steps)
      (convert_after_input completed_steps [input_step text])
  = [input_step text].
Proof.
  unfold convert_after_input.
  replace (_is_digit_clicks [input_step text]) with false by reflexivity.
  by destruct (_ && _).
Qed.

(** What [find] returns is the contribution of a description. *)
Lemma first_keypad_contribution (desc : str) (o : option char) :
  contribution desc o -> first_keypad_char desc = o.
Proof.
  unfold first_keypad_char. intros [before after c -> Hb Hc|Hd].
  - induction Hb as [|b before Hb _ IH]; simpl.
    + by rewrite Hc.
    + by rewrite Hb.
  - induction Hd as [|b desc Hb _ IH]; simpl; [done|]. by rewrite Hb.
Qed.

(** Every description has a contribution. *)
Lemma contribution_exists (desc : str) : contribution desc (first_keypad_char desc).
Proof.
  unfold first_keypad_char. induction desc as [|b desc IH]; simpl.
  - by constructor.
  - destruct (keypad_char b) eqn:Hb.
    + by apply (contributes _ [] desc b).
    + destruct IH as [before after c Hd Hbef Hc|Hd].
      * apply (contributes _ (b :: before) after c); [by rewrite Hd|by constructor|done].
      * constructor. by constructor.
Qed.

Lemma batch_text_extract (steps : list NextStep.t) (text : str) :
  batch_text steps text -> _extract_digits_from_clicks steps = text.
Proof.
  induction 1 as [|step steps c text Hc _ IH|step steps text Hc _ IH]; [done| |];
    by rewrite extract_digits_cons, (first_keypad_contribution _ _ Hc), IH.
Qed.

Lemma batch_text_exists (steps : list NextStep.t) :
  batch_text steps (_extract_digits_from_clicks steps).
Proof.
  induction steps as [|step steps IH]; [constructor|].
  rewrite extract_digits_cons.
  pose proof (contribution_exists (NextStep.description step)) as Hc.
  destruct (first_keypad_char (NextStep.description step)); by constructor.
Qed.

Lemma startswith_char (s : str) (c : char) : startswith s [c] = true -> head s = Some c.
Proof.
  destruct s as [|d s]; simpl; [done|]. rewrite andb_true_r.
  intros H. apply N.eqb_eq in H. by subst.
Qed.

Lemma contains_char_inv (c : char) (s : str) : contains s [c] = true -> c ∈ s.
Proof.
  induction s as [|d s IH]; unfold contains; fold contains.
  - simpl. discriminate.
  - intros H. apply orb_true_iff in H as [H|H].
    + apply startswith_char in H. injection H as ->. by left.
    + right. by apply IH.
Qed.

(** The strings of [digit_pattern] are the characters [pattern_char]. *)
Lemma digit_pattern_chars (d : str) :
  d ∈ digit_pattern <-> exists c, d = [c] /\ pattern_char c.
Proof.
  unfold digit_pattern, pattern_char, ideographic_full_stop, keypad_char, has_char. split.
  - intros H.
    repeat (apply elem_of_cons in H as [->|H];
            [eexists; split; [reflexivity|vm_compute; tauto]|]).
    by apply elem_of_nil in H.
  - intros (c & -> & [H| ->]).
    + apply existsb_exists in H as (k & Hk & Hc). apply N.eqb_eq in Hc. subst k.
      vm_compute in Hk.
      repeat (destruct Hk as [<-|Hk]; [vm_compute; repeat (try (by left); right)|]).
      done.
    + vm_compute. repeat (try (by left); right).
Qed.

(** The test of [_should_convert_clicks_to_input] on one step. *)
Lemma digit_click_test (step : NextStep.t) :
  is_click_or_tap (NextStep.action step)
  && existsb (contains (NextStep.description step)) digit_pattern = true
  <-> digit_click step.
Proof.
  unfold digit_click. rewrite andb_true_iff, existsb_exists. split.
  - intros (Ha & d & Hd & Hc). split; [done|].
    apply list_elem_of_In, digit_pattern_chars in Hd as (c & -> & Hp).
    exists c. split; [|done]. by apply contains_char_inv.
  - intros (Ha & c & Hc & Hp). split; [done|]. exists [c]. split.
    + apply list_elem_of_In, digit_pattern_chars. eauto.
    + by apply contains_char.
Qed.

Lemma digit_clicks_test (steps : list NextStep.t) :
  forallb (fun step =>
             is_click_or_tap (NextStep.action step)
             && existsb (contains (NextStep.description step)) digit_pattern) steps = true
  <-> Forall digit_click steps.
Proof.
  rewrite forallb_forall, Forall_forall. split; intros H step Hin.
  - apply digit_click_test, H. by apply list_elem_of_In.
  - apply digit_click_test, H. by apply list_elem_of_In.
Qed.

Lemma should_convert_iff (steps : list NextStep.t) (ui_context : UIContext.t) :
  _should_convert_clicks_to_input steps ui_context = true
  <-> Forall digit_click steps
      /\ existsb input_class (UIContext.elements ui_context) = true.
Proof.
  unfold _should_convert_clicks_to_input. rewrite <- digit_clicks_test.
  destruct (forallb _ steps); simpl; intuition congruence.
Qed.

(** A single-digit tap is a digit click, and its digit is its contribution. *)
Lemma single_digit_click (step : NextStep.t) (d : char) :
  single_digit_tap step d ->
  digit_click step /\ contribution (NextStep.description step) (Some d).
Proof.
  intros (Ha & Hd & Hf). split.
  - split; [done|]. exists d. split; [by eapply filter_singleton_elem|].
    left. by apply decimal_digit_keypad.
  - pose proof (contribution_exists (NextStep.description step)) as Hc.
    by rewrite (first_keypad_single _ _ Hf) in Hc.
Qed.

Lemma single_digits_batch (steps : list NextStep.t) (digits : str) :
  Forall2 single_digit_tap steps digits ->
  Forall digit_click steps /\ batch_text steps digits.
Proof.
  induction 1 as [|step d steps digits Hs _ [IH1 IH2]]; [by split; constructor|].
  apply single_digit_click in Hs as [H1 H2]. split; by constructor.
Qed.

(** A click or tap is no scroll: the scroll correction leaves it alone. *)
Lemma correct_scroll_click (completed_steps : list CompletedStep.t) (step : NextStep.t) :
  is_click_or_tap (NextStep.action step) = true -> correct_scroll completed_steps step = step.
Proof.
  unfold is_click_or_tap, correct_scroll. intros H.
  apply orb_true_iff in H as [H|H]; apply eqb_true in H; by rewrite H.
Qed.

(** Without a text to type no rewrite takes place. *)
Lemma no_text_no_rewrite (plan_result : PlanningResult.t) (ui_context : UIContext.t)
    (completed_steps : list CompletedStep.t) (steps : list NextStep.t) :
  Forall digit_click steps ->
  _extract_digits_from_clicks steps = [] ->
  map (correct_scroll completed_steps)
    (convert_after_input completed_steps (convert_batch plan_result ui_context steps))
  = steps.
Proof.
  intros Hall Hx.
  assert (convert_batch plan_result ui_context steps = steps) as ->.
  { unfold convert_batch. rewrite Hx. cbn [truthy]. by repeat case_match. }
  assert (convert_after_input completed_steps steps = steps) as ->.
  { unfold convert_after_input. rewrite Hx. cbn [truthy]. by repeat case_match. }
  clear Hx. induction Hall as [|step steps [Ha _] _ IH]; [done|].
  cbn [map]. by rewrite IH, correct_scroll_click.
Qed.

(** C6, as amended.  Take a batch decision, and a snapshot and a ledger.
    The batch test reads the descriptions only: a step is a digit click
    when it is a click or tap whose description holds one of the
    characters 0 to 9, the full stop, or the ideographic full stop; the
    characters typed are the first of 0 to 9 and the full stop in each
    description, in the order of the batch.  (1) When every step is a
    digit click, the snapshot holds an input-class element and the text is
    not empty, the steps that are executed are exactly one [input] action
    with this text.  (2) In particular, when every description holds
    exactly one keypad character, a digit, the text is these digits.
    (3) When some step is no digit click, or there is no input-class
    element, or the text is empty, the batch rewrite leaves the steps as
    they are; (4) digit clicks without a text are executed as proposed.
    Index phrasing is not looked for. *)
Theorem digit_batch_becomes_input (plan_result : PlanningResult.t)
    (steps : list NextStep.t) (ui_context : UIContext.t)
    (completed_steps : list CompletedStep.t) :
  PlanningResult.next_steps plan_result = Some steps ->
  steps <> [] ->
  (forall text,
     Forall digit_click steps ->
     existsb input_class (UIContext.elements ui_context) = true ->
     batch_text steps text ->
     text <> [] ->
     steps_to_execute plan_result ui_context completed_steps
     = [NextStep.mk (py "input") None VNone {[ "text" := VStr text ]} (py "输入 " ++ text)])
  /\ (forall digits,
        Forall2 single_digit_tap steps digits ->
        existsb input_class (UIContext.elements ui_context) = true ->
        steps_to_execute plan_result ui_context completed_steps
        = [NextStep.mk (py "input") None VNone {[ "text" := VStr digits ]}
             (py "输入 " ++ digits)]
        /\ length digits = length steps)
  /\ (~ Forall digit_click steps
      \/ existsb input_class (UIContext.elements ui_context) = false
      \/ batch_text steps [] ->
      convert_batch plan_result ui_context steps = steps)
  /\ (Forall digit_click steps ->
      batch_text steps [] ->
      steps_to_execute plan_result ui_context completed_steps = steps).
Proof.
  intros Hplan Hne.
  assert (PlanningResult.has_batch_steps plan_result = true) as Hbatch.
  { unfold PlanningResult.has_batch_steps. rewrite Hplan. by destruct steps. }
  assert (PlanningResult.get_all_steps plan_result = steps) as Hall.
  { unfold PlanningResult.get_all_steps. by rewrite Hbatch, Hplan. }
  assert (forall text,
            Forall digit_click steps ->
            existsb input_class (UIContext.elements ui_context) = true ->
            batch_text steps text ->
            text <> [] ->
            steps_to_execute plan_result ui_context completed_steps = [input_step text])
    as Hmain.
  { intros text Hclicks Hinput Htext Hnonempty.
    unfold steps_to_execute. rewrite Hall.
    assert (convert_batch plan_result ui_context steps = [input_step text]) as ->.
    { unfold convert_batch. rewrite Hbatch.
      rewrite (proj2 (should_convert_iff steps ui_context)) by done.
      rewrite (batch_text_extract _ _ Htext). by destruct text. }
    apply input_step_kept. }
  split; [|split; [|split]].
  - exact Hmain.
  - intros digits Hdigits Hinput.
    pose proof (Forall2_length _ _ _ Hdigits) as Hlen.
    apply single_digits_batch in Hdigits as [Hclicks Htext].
    split; [|done]. apply Hmain; try done.
    destruct digits; [|done]. destruct steps; [done|discriminate].
  - intros Hcase. unfold convert_batch. rewrite Hbatch.
    destruct (_should_convert_clicks_to_input steps ui_context) eqn:Hconv; [|done].
    apply should_convert_iff in Hconv as [Hclicks Hinput].
    destruct Hcase as [Hno|[Hno|Hno]].
    + done.
    + congruence.
    + by rewrite (batch_text_extract _ _ Hno).
  - intros Hclicks Hno. unfold steps_to_execute. rewrite Hall.
    apply no_text_no_rewrite; [done|]. by apply batch_text_extract.
Qed.

(** The planner proposes the six digit keys of a passcode one by one while
    the screen shows a text field: one input of the six digits is executed. *)
Lemma digit_batch_becomes_input_witness :
  steps_to_execute
    (batch_of [click_digit 1 "1"; click_digit 2 "2"; click_digit 3 "3";
               click_digit 4 "4"; click_digit 5 "5"; click_digit 6 "6"])
    (Index.snapshot [Index.text_field (540, 300)]) []
  = [NextStep.mk (py "input") None VNone {[ "text" := VStr (py "123456") ]}
       (py "输入 " ++ py "123456")].
Proof.
  apply (digit_batch_becomes_input
           (batch_of [click_digit 1 "1"; click_digit 2 "2"; click_digit 3 "3";
                      click_digit 4 "4"; click_digit 5 "5"; click_digit 6 "6"])
           [click_digit 1 "1"; click_digit 2 "2"; click_digit 3 "3";
            click_digit 4 "4"; click_digit 5 "5"; click_digit 6 "6"]
           (Index.snapshot [Index.text_field (540, 300)]) []).
  - reflexivity.
  - discriminate.
  - vm_compute. repeat constructor; try discriminate.
  - reflexivity.
Defined.

(** C6, as stated, fails.  The screen shows a text field and no
    description uses index phrasing.  Two taps on the keys 1 and 2 that
    are described in words are executed as two taps: nothing is typed.
    Three taps on the keys 7, 8 and 9 whose descriptions begin with a
    counter become one input, of the text 123 and not 789. *)
Lemma digit_batch_counterexample :
  steps_to_execute (batch_of worded_taps) (Index.snapshot [Index.text_field (540, 300)]) []
  = worded_taps
  /\ map NextStep.target worded_taps = [Some (py "1"); Some (py "2")]
  /\ steps_to_execute (batch_of counted_taps) (Index.snapshot [Index.text_field (540, 300)]) []
     = [input_step (py "123")]
  /\ map NextStep.target counted_taps = [Some (py "7"); Some (py "8"); Some (py "9")]
  /\ input_step (py "123") <> input_step (py "789")
  /\ Forall (fun step => RewriteNotions.index_phrasing (NextStep.description step) = false)
       (worded_taps ++ counted_taps).
Proof.
  split; [vm_compute; reflexivity|]. split; [reflexivity|].
  split; [vm_compute; reflexivity|]. split; [reflexivity|].
  split; [vm_compute; discriminate|].
  repeat constructor.
Qed.

End DigitBatch.

(** ** Resolving a target index *)

Section Resolution.
Import UIElement UIContext Index Orchestrator Notions ResolutionNotions.

(** The matching loop picks an element of the list it goes through. *)
Lemma match_loop_element (tn tc tk : str) (entries : list entry) (m : matching)
    (e : UIElement.t) :
  matched_element (match_loop tn tc tk entries m) = Some e ->
  matched_element m = Some e \/ exists en, en ∈ entries /\ element_of en = e.
Proof.
  revert m. induction entries as [|[[i name] el] entries IH]; intros m H; simpl in H.
  - by left.
  - assert (forall score,
              matched_element
                (if best_match_score m <? score then mk_matching (Some el) (VInt i) score else m)
              = Some e ->
              matched_element m = Some e
              \/ exists en, en ∈ (i, name, el) :: entries /\ element_of en = e) as Hup.
    { intros score Hs. destruct (_ <? score); [|by left].
      simpl in Hs. injection Hs as <-. right. exists (i, name, el).
      split; [apply elem_of_cons; by left|done]. }
    assert (forall m', matched_element (match_loop tn tc tk entries m') = Some e ->
              (matched_element m' = Some e ->
               matched_element m = Some e
               \/ exists en, en ∈ (i, name, el) :: entries /\ element_of en = e) ->
              matched_element m = Some e
              \/ exists en, en ∈ (i, name, el) :: entries /\ element_of en = e) as Hrec.
    { intros m' Hm' Hk. destruct (IH _ Hm') as [Hl|(en & Hen & He)]; [by apply Hk|].
      right. exists en. split; [apply elem_of_cons; by right|done]. }
    destruct (_ || _) in H.
    { simpl in H. injection H as <-. right. exists (i, name, el).
      split; [apply elem_of_cons; by left|done]. }
    destruct (_ || _) in H; [by eapply Hrec; eauto|].
    destruct (_ || _) in H; [by eapply Hrec; eauto|].
    destruct (_ && _) in H; [by eapply Hrec; eauto|].
    eapply Hrec; eauto.
Qed.

Lemma rematch_element (ui_context : UIContext.t) (target_name : str) (e : UIElement.t) :
  matched_element (rematch ui_context target_name) = Some e ->
  exists en, en ∈ get_indexed_all_elements ui_context /\ element_of en = e.
Proof.
  unfold rematch. intros H.
  destruct (matched_element (match_loop _ _ _ _ _)) as [e'|] eqn:Hm; [|done].
  destruct (60 <=? _); [|done].
  rewrite Hm in H. injection H as <-.
  apply match_loop_element in Hm as [Hm|Hm]; [done|done].
Qed.

(** Without an integer there is nothing to look up. *)
Lemma lookup_none (ui_context : UIContext.t) :
  get_element_by_index ui_context VNone = Ok None.
Proof. reflexivity. Qed.

(** With a target index that resolves, a tap or click gets the centre of
    an indexed element of the same snapshot as its coordinates, whatever
    coordinates the decision carried. *)
Lemma resolve_by_index (ui_context : UIContext.t) (next_step : NextStep.t) (e : UIElement.t) :
  is_tap_or_click (NextStep.action next_step) = true ->
  get_element_by_index ui_context (NextStep.target_index next_step) = Ok (Some e) ->
  exists en index name,
    en ∈ get_indexed_all_elements ui_context
    /\ resolve_target_index ui_context next_step
       = Ok (NextStep.mk (NextStep.action next_step) (Some name) index
               (<["y" := VInt (snd (center_of en))]>
                  (<["x" := VInt (fst (center_of en))]> (NextStep.parameters next_step)))
               (NextStep.description next_step)).
Proof.
  intros Htap Hlook.
  assert (NextStep.target_index next_step <> VNone) as Hidx.
  { intros Heq. rewrite Heq, lookup_none in Hlook. discriminate. }
  destruct (lookup_some_entry _ _ _ Hlook) as (en0 & Hen0 & He0).
  unfold resolve_target_index.
  rewrite (bool_decide_eq_false_2 _ Hidx), Htap, Hlook. simpl negb. cbn [andb].
  destruct (target_name_from_desc _) as [tn|].
  - destruct (truthy tn && negb (contains _ tn)).
    + destruct (matched_element (rematch ui_context tn)) as [e'|] eqn:Hm.
      * apply rematch_element in Hm as (en & Hen & <-).
        exists en, (matched_index (rematch ui_context tn)). eexists. split; [done|].
        reflexivity.
      * subst e. exists en0. eexists. eexists. split; [done|]. reflexivity.
    + subst e. exists en0. eexists. eexists. split; [done|]. reflexivity.
  - subst e. exists en0. eexists. eexists. split; [done|]. reflexivity.
Qed.

(** Without a target index, or with one that does not resolve, or for
    another action, the step is left as the planner proposed it. *)
Lemma resolve_without_index (ui_context : UIContext.t) (next_step : NextStep.t) :
  is_tap_or_click (NextStep.action next_step) = false
  \/ get_element_by_index ui_context (NextStep.target_index next_step) = Ok None ->
  resolve_target_index ui_context next_step = Ok next_step.
Proof.
  unfold resolve_target_index. intros [H|H].
  - rewrite H. by rewrite andb_false_r.
  - rewrite H. by destruct (_ && _).
Qed.

Lemma resolve_never_raises (ui_context : UIContext.t) (next_step : NextStep.t) :
  exists s, resolve_target_index ui_context next_step = Ok s.
Proof.
  destruct (is_tap_or_click (NextStep.action next_step)) eqn:Htap.
  - destruct (lookup_never_raises ui_context (NextStep.target_index next_step)) as [[e|] Hr].
    + destruct (resolve_by_index _ _ _ Htap Hr) as (? & ? & ? & _ & ->). eauto.
    + rewrite resolve_without_index; eauto.
  - rewrite resolve_without_index; eauto.
Qed.



(** *** The element a description is re-matched to *)

Lemma match_score_values (target_name name : str) :
  match_score target_name name = 0 \/ match_score target_name name = 60
  \/ match_score target_name name = 70 \/ match_score target_name name = 80
  \/ match_score target_name name = 100.
Proof. unfold match_score. cbv zeta. repeat case_match; tauto. Qed.

(** One round of the matching loop, by the score of the entry. *)
Lemma match_loop_cons (target_name : str) (en : entry) (entries : list entry) (m : matching) :
  match_loop target_name (cleaned target_name) (strip_prefix (cleaned target_name))
    (en :: entries) m
  = if score_of target_name en =? 100 then
      mk_matching (Some (element_of en)) (VInt (index_of en)) 100
    else if score_of target_name en =? 0 then
      match_loop target_name (cleaned target_name) (strip_prefix (cleaned target_name))
        entries m
    else
      match_loop target_name (cleaned target_name) (strip_prefix (cleaned target_name))
        entries
        (if best_match_score m <? score_of target_name en
         then mk_matching (Some (element_of en)) (VInt (index_of en)) (score_of target_name en)
         else m).
Proof.
  destruct en as [[i name] el]. unfold score_of, match_score, display_of, element_of, index_of.
  cbn [match_loop fst snd]. cbv zeta.
  repeat (case_match; cbn [Z.eqb Pos.eqb]; try reflexivity).
Qed.

(** The matching loop keeps what it has, or moves to the first entry of
    the highest score. *)
Lemma match_loop_best (target_name : str) (entries : list entry) :
  forall m : matching,
    0 <= best_match_score m < 100 ->
    (match_loop target_name (cleaned target_name) (strip_prefix (cleaned target_name))
       entries m = m
     /\ Forall (fun en => score_of target_name en <= best_match_score m) entries)
    \/ exists before en after,
         entries = before ++ en :: after
         /\ match_loop target_name (cleaned target_name)
              (strip_prefix (cleaned target_name)) entries m
            = mk_matching (Some (element_of en)) (VInt (index_of en))
                (score_of target_name en)
         /\ best_match_score m < score_of target_name en
         /\ Forall (fun o => score_of target_name o < score_of target_name en) before
         /\ Forall (fun o => score_of target_name o <= score_of target_name en) after.
Proof.
  induction entries as [|en entries IH]; intros m Hm.
  - left. by split.
  - rewrite match_loop_cons.
    pose proof (match_score_values target_name (display_of en)) as Hv.
    fold (score_of target_name en) in Hv.
    destruct (score_of target_name en =? 100) eqn:H100.
    { apply Z.eqb_eq in H100. right. exists [], en, entries.
      rewrite H100. repeat split; try done; try lia.
      apply Forall_forall. intros o _.
      pose proof (match_score_values target_name (display_of o)) as Ho.
      fold (score_of target_name o) in Ho. lia. }
    apply Z.eqb_neq in H100.
    destruct (score_of target_name en =? 0) eqn:H0.
    { apply Z.eqb_eq in H0. destruct (IH m Hm) as [[Heq Hall]|Hex].
      - left. split; [done|]. constructor; [lia|done].
      - destruct Hex as (before & en' & after & -> & Heq & Hlt & Hb & Ha).
        right. exists (en :: before), en', after.
        repeat split; try done. constructor; [lia|done]. }
    apply Z.eqb_neq in H0.
    destruct (best_match_score m <? score_of target_name en) eqn:Hup.
    + apply Z.ltb_lt in Hup.
      destruct (IH (mk_matching (Some (element_of en)) (VInt (index_of en))
                      (score_of target_name en))) as [[Heq Hall]|Hex].
      * simpl. lia.
      * right. exists [], en, entries. by repeat split.
      * destruct Hex as (before & en' & after & -> & Heq & Hlt & Hb & Ha).
        simpl in Hlt. right. exists (en :: before), en', after.
        repeat split; try done; [lia|]. by constructor.
    + apply Z.ltb_ge in Hup. destruct (IH m Hm) as [[Heq Hall]|Hex].
      * left. split; [done|]. by constructor.
      * destruct Hex as (before & en' & after & -> & Heq & Hlt & Hb & Ha).
        right. exists (en :: before), en', after.
        repeat split; try done. constructor; [lia|done].
Qed.

(** Re-matching finds nothing when no entry matches, and the best match
    otherwise. *)
Lemma rematch_spec (ui_context : UIContext.t) (target_name : str) :
  (no_match ui_context target_name
   /\ matched_element (rematch ui_context target_name) = None)
  \/ exists en,
       best_match ui_context target_name en
       /\ rematch ui_context target_name
          = mk_matching (Some (element_of en)) (VInt (index_of en))
              (score_of target_name en).
Proof.
  unfold rematch. cbv zeta.
  destruct (match_loop_best target_name (get_indexed_all_elements ui_context)
              (mk_matching None VNone 0)) as [[-> Hall]|Hex]; [simpl; lia| |].
  - left. split; [|done]. unfold no_match. eapply Forall_impl; [exact Hall|].
    simpl. intros en. lia.
  - destruct Hex as (before & en & after & Hl & -> & Hlt & Hb & Ha).
    simpl in Hlt. cbn [matched_element best_match_score].
    pose proof (match_score_values target_name (display_of en)) as Hv.
    fold (score_of target_name en) in Hv.
    assert (60 <= score_of target_name en) as H60 by lia.
    replace (60 <=? score_of target_name en) with true by (symmetry; by apply Z.leb_le).
    right. exists en. split; [|done]. by exists before, after.
Qed.

(** There is one best match at most. *)
Lemma best_match_unique (ui_context : UIContext.t) (target_name : str) (en1 en2 : entry) :
  best_match ui_context target_name en1 -> best_match ui_context target_name en2 ->
  en1 = en2.
Proof.
  intros (b1 & a1 & H1 & _ & Hb1 & Ha1) (b2 & a2 & H2 & _ & Hb2 & Ha2).
  rewrite H1 in H2. clear H1.
  destruct (decide (length b1 = length b2)) as [Heq|Hne].
  - apply app_inj_1 in H2 as [_ H2]; [|done]. by injection H2.
  - exfalso.
    assert (forall (x y : entry) b a b' a',
              b ++ x :: a = b' ++ y :: a' -> (length b < length b')%nat ->
              x ∈ b' /\ y ∈ a) as Hsplit.
    { intros x y b a b' a' Heq Hlt. split.
      - assert ((b ++ x :: a) !! length b = Some x) as Hx by (by apply list_lookup_middle).
        rewrite Heq, lookup_app_l in Hx by done. by eapply list_elem_of_lookup_2.
      - assert ((b' ++ y :: a') !! length b' = Some y) as Hy by (by apply list_lookup_middle).
        rewrite <- Heq, lookup_app_r in Hy by lia.
        destruct (length b' - length b)%nat as [|k] eqn:Hk; [lia|].
        simpl in Hy. by eapply list_elem_of_lookup_2. }
    destruct (decide (length b1 < length b2)%nat) as [Hlt|Hge].
    + destruct (Hsplit _ _ _ _ _ _ H2 Hlt) as [Hx Hy].
      rewrite Forall_forall in Hb2, Ha1.
      specialize (Hb2 _ Hx). specialize (Ha1 _ Hy). lia.
    + symmetry in H2. destruct (Hsplit _ _ _ _ _ _ H2 ltac:(lia)) as [Hx Hy].
      rewrite Forall_forall in Hb1, Ha2.
      specialize (Hb1 _ Hx). specialize (Ha2 _ Hy). lia.
Qed.

(** The element found at an index is the element of the entry that
    carries this index. *)
Lemma lookup_entry (ui_context : UIContext.t) (index : value) (e : UIElement.t) :
  get_element_by_index ui_context index = Ok (Some e) ->
  exists i name,
    as_int_instance index = Some i
    /\ (i, name, e) ∈ get_indexed_all_elements ui_context.
Proof.
  intros Hlook. destruct (as_int_instance index) as [i|] eqn:Hi.
  2:{ unfold get_element_by_index in Hlook. by rewrite Hi in Hlook. }
  destruct (decide (1 <= i <= Z.of_nat (length (get_indexed_all_elements ui_context))))
    as [Hr|Hr].
  - destruct (lookup_in_range ui_context index i Hi Hr) as (en & Hen & Hsome).
    rewrite Hlook in Hsome. injection Hsome as ->.
    exists i, (display_of en). split; [done|].
    apply (index_of_entry ui_context) in Hen as Hidx; [|lia].
    apply list_elem_of_lookup_2 in Hen. destruct en as [[j name] el].
    unfold index_of in Hidx. simpl in *. by subst.
  - rewrite lookup_outside in Hlook; [discriminate|].
    unfold out_of_range. rewrite Hi. lia.
Qed.

(** When the index stands, the step is resolved to the element at the
    index. *)
Lemma resolve_index_stands (ui_context : UIContext.t) (next_step : NextStep.t)
    (e : UIElement.t) :
  is_tap_or_click (NextStep.action next_step) = true ->
  get_element_by_index ui_context (NextStep.target_index next_step) = Ok (Some e) ->
  index_stands ui_context next_step e ->
  resolve_target_index ui_context next_step
  = Ok (resolved next_step (NextStep.target_index next_step) e).
Proof.
  intros Htap Hlook Hstands.
  assert (NextStep.target_index next_step <> VNone) as Hidx.
  { intros Heq. rewrite Heq, lookup_none in Hlook. discriminate. }
  unfold resolve_target_index, index_stands in *.
  rewrite (bool_decide_eq_false_2 _ Hidx), Htap, Hlook. simpl negb. cbn [andb].
  destruct (target_name_from_desc _) as [tn|]; [|reflexivity].
  destruct Hstands as [->|[Hin|Hno]]; [reflexivity| |].
  - rewrite Hin. cbn [negb]. rewrite andb_false_r. reflexivity.
  - destruct (truthy tn && negb _); [|reflexivity].
    destruct (rematch_spec ui_context tn) as [[_ ->]|(en & Hbest & _)]; [reflexivity|].
    exfalso. destruct Hbest as (before & after & Hl & H60 & _).
    unfold no_match in Hno. rewrite Hl, Forall_app, Forall_cons in Hno.
    destruct Hno as (_ & Hlt & _). lia.
Qed.

(** When the description names another element that has a match, the
    step is resolved to the best match. *)
Lemma resolve_rematched (ui_context : UIContext.t) (next_step : NextStep.t)
    (e : UIElement.t) (target_name : str) (en : entry) :
  is_tap_or_click (NextStep.action next_step) = true ->
  get_element_by_index ui_context (NextStep.target_index next_step) = Ok (Some e) ->
  target_name_from_desc (NextStep.description next_step) = Some target_name ->
  target_name <> [] ->
  contains (elem_name_of e (NextStep.target_index next_step)) target_name = false ->
  best_match ui_context target_name en ->
  resolve_target_index ui_context next_step
  = Ok (resolved next_step (VInt (index_of en)) (element_of en)).
Proof.
  intros Htap Hlook Hdesc Hne Hnot Hbest.
  assert (NextStep.target_index next_step <> VNone) as Hidx.
  { intros Heq. rewrite Heq, lookup_none in Hlook. discriminate. }
  unfold resolve_target_index.
  rewrite (bool_decide_eq_false_2 _ Hidx), Htap, Hlook. simpl negb. cbn [andb].
  rewrite Hdesc, Hnot. replace (truthy target_name) with true by (by destruct target_name).
  cbn [negb andb].
  destruct (rematch_spec ui_context target_name) as [[Hno _]|(en' & Hbest' & ->)].
  - exfalso. destruct Hbest as (before & after & Hl & H60 & _).
    unfold no_match in Hno. rewrite Hl, Forall_app, Forall_cons in Hno.
    destruct Hno as (_ & Hlt & _). lia.
  - rewrite (best_match_unique _ _ _ _ Hbest Hbest'). reflexivity.
Qed.

End Resolution.


Import Py.
Local Open Scope Z_scope.

(** ** Points and the action executor *)

Section Points.
Import ExecNotions.

Lemma point_new_ok (a b : Z) (p : Point.t) :
  Point.new a b = Ok p -> p = Point.mk a b /\ nonneg_point p.
Proof.
  unfold Point.new, Point.__post_init__, nonneg_point. simpl.
  destruct (a <? 0) eqn:Ha; simpl; [discriminate|].
  destruct (b <? 0) eqn:Hb; simpl; [discriminate|].
  intros [= <-]. simpl. split; [done|]. lia.
Qed.

Lemma point_new_negative (a b : Z) :
  a < 0 \/ b < 0 ->
  Point.new a b = Raise (ValueError (py "Point coordinates must be non-negative")).
Proof.
  intros H. unfold Point.new, Point.__post_init__. simpl.
  replace ((a <? 0) || (b <? 0)) with true; [done|].
  symmetry. apply orb_true_iff. lia.
Qed.

Lemma point_new_nonneg (a b : Z) :
  0 <= a -> 0 <= b -> Point.new a b = Ok (Point.mk a b).
Proof.
  intros Ha Hb. unfold Point.new, Point.__post_init__. simpl.
  replace ((a <? 0) || (b <? 0)) with false; [done|].
  symmetry. apply orb_false_iff. lia.
Qed.

End Points.

Section ExecutorSafety.
Import Executor ExecNotions.
Context {W : Type}.
Variable int_of_str : str -> may_raise Z.
Variable int_mul : Z -> Q -> Z.
Variable self : Executor.t W.

Lemma extends_refl (s : state W) : extends_safely s s.
Proof. exists []. by rewrite app_nil_r. Qed.

Lemma extends_trans (s1 s2 s3 : state W) :
  extends_safely s1 s2 -> extends_safely s2 s3 -> extends_safely s1 s3.
Proof.
  intros (e1 & H1 & F1) (e2 & H2 & F2). exists (e1 ++ e2). split.
  - by rewrite H2, H1, app_assoc.
  - by apply Forall_app.
Qed.

Lemma extends_same_log (s s' : state W) : log s' = log s -> extends_safely s s'.
Proof. intros H. exists []. by rewrite app_nil_r. Qed.

Lemma safe_ret {A} (a : A) : safe (mret a : SE.M (state W) A).
Proof. intros s. apply extends_refl. Qed.

Lemma safe_bind {A B} (m : SE.M (state W) A) (k : A -> SE.M (state W) B) :
  safe m -> (forall a, safe (k a)) -> safe (m ≫= k).
Proof.
  intros Hm Hk s. unfold mbind, SE_bind, SE.bind.
  specialize (Hm s). destruct (m s) as [[a|e] s1]; simpl in *; [|done].
  eapply extends_trans; [done|]. apply Hk.
Qed.

Lemma safe_try {A} (m : SE.M (state W) A) (h : exn -> SE.M (state W) A) :
  safe m -> (forall e, safe (h e)) -> safe (SE.try_except m h).
Proof.
  intros Hm Hh s. unfold SE.try_except.
  specialize (Hm s). destruct (m s) as [[a|e] s1]; simpl in *; [done|].
  eapply extends_trans; [done|]. apply Hh.
Qed.

Lemma safe_lift {A} (r : may_raise A) : safe (SE.lift r : SE.M (state W) A).
Proof. intros s. apply extends_refl. Qed.

Lemma safe_raise {A} (e : exn) : safe (SE.raise e : SE.M (state W) A).
Proof. intros s. apply extends_refl. Qed.

Lemma safe_get : safe (SE.get : SE.M (state W) (state W)).
Proof. intros s. apply extends_refl. Qed.

(** A point that comes out of the constructor is non-negative. *)
Lemma safe_bind_point {B} (a b : Z) (k : Point.t -> SE.M (state W) B) :
  (forall p, nonneg_point p -> safe (k p)) -> safe (SE.lift (Point.new a b) ≫= k).
Proof.
  intros Hk s. unfold mbind, SE_bind, SE.bind, SE.lift.
  destruct (Point.new a b) as [p|e] eqn:Hp; simpl; [|apply extends_refl].
  apply Hk. by apply point_new_ok in Hp as [_ ?].
Qed.

Lemma safe_sleep (ms : Z) : safe (sleep ms : SE.M (state W) unit).
Proof. intros s. exists [Sleep ms]. split; [done|]. by repeat constructor. Qed.

Lemma safe_device (c : effect) : nonneg_effect c -> safe (device self c).
Proof.
  intros Hc s. unfold device. destruct (device_controller self) as [dev|].
  - destruct (dev c (world s)) as [[e|] w]; simpl;
      (exists [c]; split; [done|by repeat constructor]).
  - apply extends_refl.
Qed.

Lemma safe_record_attempt (target : option str) :
  safe (record_attempt target : SE.M (state W) unit).
Proof. intros s. by apply extends_same_log. Qed.

End ExecutorSafety.

Create HintDb safe.
#[local] Hint Resolve safe_ret safe_lift safe_raise safe_get safe_sleep
  safe_record_attempt : safe.

(** Goes through a computation built from the steps above. *)
Ltac safe_step :=
  match goal with
  | |- ExecNotions.safe (SE.lift (Point.new _ _) ≫= _) =>
    apply safe_bind_point; intros ? ?
  | |- ExecNotions.safe (_ ≫= _) => apply safe_bind; [|intros ?]
  | |- ExecNotions.safe (SE.try_except _ _) => apply safe_try; [|intros ?]
  | |- ExecNotions.safe (Executor.device _ _) => apply safe_device; simpl; auto
  | |- ExecNotions.safe (if ?b then _ else _) => destruct b
  | |- ExecNotions.safe (match ?x with _ => _ end) => destruct x
  | |- ExecNotions.safe _ => solve [auto with safe]
  end.

Section ExecutorMethods.
Import Executor ExecNotions.
Context {W : Type}.
Variable int_of_str : str -> may_raise Z.
Variable int_mul : Z -> Q -> Z.
Variable self : Executor.t W.

Lemma safe_bind_returns {A B} (Q : A -> Prop) (m : SE.M (state W) A)
    (k : A -> SE.M (state W) B) :
  returns Q m -> safe m -> (forall a, Q a -> safe (k a)) -> safe (m ≫= k).
Proof.
  intros HQ Hm Hk s. unfold mbind, SE_bind, SE.bind.
  specialize (Hm s). specialize (HQ s).
  destruct (m s) as [[a|e] s1]; simpl in *; [|done].
  eapply extends_trans; [done|]. apply Hk. by eapply HQ.
Qed.

(** The oracle that looks an element up leaves the log alone. *)
Lemma safe_find_element (tg : str) (elements : list UIElement.t) :
  safe (fun s : state W =>
          let '(e, w) := find_element self tg elements (world s) in
          (Ok e, mk_state w (log s) (recovery_history s))).
Proof.
  intros s. destruct (find_element self tg elements (world s)) as [e w].
  by apply extends_same_log.
Qed.

Lemma safe_execute_tap target parameters context :
  safe (_execute_tap int_of_str self target parameters context).
Proof.
  unfold _execute_tap.
  apply (safe_bind_returns (fun o => forall p, o = Some p -> nonneg_point p)).
  - intros s o s'. destruct (_ && _).
    + unfold mbind, SE_bind, SE.bind, SE.lift, mret, SE_ret, SE.ret.
      destruct (int_of_value _ _) as [a|]; [|discriminate].
      destruct (int_of_value _ _) as [b|]; [|discriminate].
      destruct (Point.new a b) as [p|] eqn:Hp; [|discriminate].
      intros [= <- _] p' [= <-]. by apply point_new_ok in Hp as [_ ?].
    + destruct target as [tg|]; [|by intros [= <- _]].
      destruct (AgentContext.ui_elements context); [by intros [= <- _]|].
      destruct (truthy tg); [|by intros [= <- _]].
      unfold mbind, SE_bind, SE.bind, SE.lift, mret, SE_ret, SE.ret.
      destruct (find_element self tg _ (world s)) as [[e|] w]; [|by intros [= <- _]].
      destruct (UIElement.center e) as [c|]; [|by intros [= <- _]].
      destruct (Point.new _ _) as [p|] eqn:Hp; [|discriminate].
      intros [= <- _] p' [= <-]. by apply point_new_ok in Hp as [_ ?].
  - destruct (_ && _).
    + repeat safe_step.
    + destruct target as [tg|]; [|auto with safe].
      destruct (AgentContext.ui_elements context); [auto with safe|].
      destruct (truthy tg); [|auto with safe].
      apply safe_bind; [apply safe_find_element|].
      intros [e|]; [|auto with safe].
      destruct (UIElement.center e); [|auto with safe]. repeat safe_step.
  - intros [p|] Hp; [|auto with safe].
    apply safe_bind; [|auto with safe]. apply safe_device. simpl. by apply Hp.
Qed.

Lemma safe_execute_swipe parameters context :
  safe (_execute_swipe int_mul self parameters context).
Proof.
  unfold _execute_swipe. cbv zeta.
  repeat (destruct (value_eqb _ _); [repeat safe_step; by repeat split|]).
  auto with safe.
Qed.

Lemma safe_execute_input parameters target :
  safe (_execute_input self parameters target).
Proof. unfold _execute_input. cbv zeta. repeat safe_step. Qed.

Lemma safe_execute_wait parameters : safe (_execute_wait parameters : SE.M (state W) outcome).
Proof. unfold _execute_wait. repeat safe_step. Qed.

Lemma safe_execute_scroll parameters context :
  safe (_execute_scroll int_mul self parameters context).
Proof. apply safe_execute_swipe. Qed.

Lemma safe_execute_back : safe (_execute_back self).
Proof. unfold _execute_back. repeat safe_step. Qed.

Lemma safe_execute_home : safe (_execute_home self).
Proof. unfold _execute_home. repeat safe_step. Qed.

Lemma safe_execute_press_key parameters : safe (_execute_press_key self parameters).
Proof. unfold _execute_press_key. repeat safe_step. Qed.

Lemma safe_execute_action action target parameters context :
  safe (_execute_action int_of_str int_mul self action target parameters context).
Proof.
  unfold _execute_action.
  destruct (_ || _); [apply safe_execute_tap|].
  destruct (is_action _ _); [apply safe_execute_swipe|].
  destruct (is_action _ _); [apply safe_execute_input|].
  destruct (is_action _ _); [apply safe_execute_wait|].
  destruct (is_action _ _); [apply safe_execute_scroll|].
  destruct (is_action _ _); [apply safe_execute_back|].
  destruct (is_action _ _); [apply safe_execute_home|].
  destruct (is_action _ _); [apply safe_execute_press_key|].
  auto with safe.
Qed.

Lemma safe_recovery_strategy strategy element_index context original_target :
  safe (_execute_recovery_strategy int_mul self strategy element_index context
          original_target).
Proof.
  unfold _execute_recovery_strategy. cbv zeta.
  apply safe_try; [|intros ?; auto with safe].
  do 4 (match goal with
        | |- context [is_strategy ?a ?b] =>
          destruct (is_strategy a b); [repeat safe_step; by repeat split|]
        end).
  do 2 (match goal with
        | |- context [is_strategy ?a ?b] => destruct (is_strategy a b); [repeat safe_step|]
        end).
  destruct (_ && _).
  { destruct (AgentContext.ui_elements context) as [|el els]; [auto with safe|].
    destruct (as_int_instance element_index) as [i|]; [|auto with safe].
    destruct (_ <? _); [|auto with safe].
    apply safe_bind; [auto with safe|]. intros elem.
    destruct (UIElement.center elem); [|auto with safe].
    repeat safe_step. }
  repeat safe_step.
Qed.

Lemma safe_rule_based failed_action failed_target context attempt_count :
  safe (_rule_based_recovery int_mul self failed_action failed_target context attempt_count).
Proof.
  unfold _rule_based_recovery. cbv zeta.
  destruct (_ <? _); [|auto with safe].
  apply safe_bind; [auto with safe|]. intros ?. apply safe_recovery_strategy.
Qed.

Lemma safe_llm_decide llm failed_action failed_target context step attempt_count :
  safe (_llm_decide_recovery int_mul self llm failed_action failed_target context step
          attempt_count).
Proof.
  unfold _llm_decide_recovery.
  apply safe_try; [|intros ?; apply safe_rule_based].
  apply safe_bind; [|intros ?; apply safe_recovery_strategy].
  intros s. destruct (decide_recovery _ _ _ _ _ _ _) as [r w].
  by apply extends_same_log.
Qed.

Lemma safe_autonomous failed_action failed_target context step :
  safe (_autonomous_recovery int_mul self failed_action failed_target context step).
Proof.
  unfold _autonomous_recovery.
  apply safe_bind; [auto with safe|]. intros s0.
  destruct (_ <=? _); [auto with safe|].
  assert (safe (result ← _rule_based_recovery int_mul self failed_action failed_target
                            context
                            (Z.of_nat (length (filter (fun h => h = failed_target)
                                                 (recovery_history s0))));
                record_attempt failed_target;; mret result)) as Hrule.
  { apply safe_bind; [apply safe_rule_based|]. intros ?. repeat safe_step. }
  destruct (llm_provider self) as [llm|]; [|done].
  apply safe_bind; [apply safe_llm_decide|]. intros r.
  destruct (recovered r); [repeat safe_step|done].
Qed.

(** Every tap and swipe [execute] issues carries non-negative
    coordinates, whatever the device and the language model answer and
    however the call ends. *)
Lemma safe_execute context : safe (execute int_of_str int_mul self context).
Proof.
  unfold execute. destruct (device_controller self); [|auto with safe].
  destruct (AgentContext.steps context) as [|st sts]; [auto with safe|].
  destruct (_ !! _) as [step|]; [|auto with safe].
  apply safe_try; [|intros ?; auto with safe].
  apply safe_bind; [apply safe_execute_action|]. intros result.
  destruct (_ && _).
  - apply safe_bind; [apply safe_autonomous|]. intros r.
    destruct (recovered r); auto with safe.
  - repeat safe_step.
Qed.

(** A tap or click whose parameters carry a coordinate that [int()] turns
    into a negative number fails before any device call: the state, and so
    the log, is as before. *)
Lemma execute_negative_tap context step (vx vy : value) (a b : Z) (s : state W) :
  is_Some (device_controller self) ->
  AgentContext.steps context !! AgentContext.current_step context = Some step ->
  Orchestrator.is_tap_or_click (NextStep.action step) = true ->
  NextStep.parameters step !! "x" = Some vx ->
  NextStep.parameters step !! "y" = Some vy ->
  int_of_value int_of_str vx = Ok a ->
  int_of_value int_of_str vy = Ok b ->
  a < 0 \/ b < 0 ->
  execute int_of_str int_mul self context s
  = (Ok (AgentResult.failure_result (py "Point coordinates must be non-negative")
           (py "Failed to execute action: " ++ NextStep.action step)), s).
Proof.
  intros [dev Hdev] Hstep Htap Hx Hy Ha Hb Hneg. unfold execute. rewrite Hdev.
  destruct (AgentContext.steps context) as [|st sts] eqn:Hsteps; [done|].
  rewrite Hstep. unfold SE.try_except, mbind, SE_bind, SE.bind.
  unfold _execute_action. unfold Orchestrator.is_tap_or_click in Htap.
  unfold is_action. rewrite Htap.
  unfold _execute_tap, dict_has, dict_get. rewrite Hx, Hy. simpl.
  unfold mbind, SE_bind, SE.bind, SE.lift. rewrite Ha, Hb.
  by rewrite (point_new_negative a b Hneg).
Qed.

(** With non-negative coordinates in the parameters the tap goes to that
    point; the target text is not consulted. *)
Lemma execute_tap_explicit target parameters context (a b : Z) (s : state W) dev :
  device_controller self = Some dev ->
  parameters !! "x" = Some (VInt a) ->
  parameters !! "y" = Some (VInt b) ->
  0 <= a -> 0 <= b ->
  _execute_tap int_of_str self target parameters context s
  = (match fst (dev (Tap (Point.mk a b)) (world s)) with
     | None => Ok (mk_outcome true None false)
     | Some e => Raise e
     end,
     mk_state (snd (dev (Tap (Point.mk a b)) (world s)))
       (log s ++ [Tap (Point.mk a b)]) (recovery_history s)).
Proof.
  intros Hdev Hx Hy Ha Hb. unfold _execute_tap, dict_has, dict_get.
  rewrite Hx, Hy. simpl.
  unfold mbind, SE_bind, SE.bind, SE.lift. simpl.
  rewrite (point_new_nonneg a b Ha Hb). simpl.
  unfold device. rewrite Hdev.
  by destruct (dev _ _) as [[e|] w].
Qed.

End ExecutorMethods.

Section ExecutorClaims.
Import UIContext Index Orchestrator Executor ExecNotions ResolutionSample ResolutionNotions.

(** C10, as amended.  Every constructed [Point] has non-negative
    coordinates, and a negative coordinate makes the constructor raise
    [ValueError]; so every tap and swipe the executor issues to the device
    carries non-negative coordinates.  A tap or click that reaches the
    executor with an [x] or [y] that [int()] turns into a negative number
    fails there before any device call.  The coordinates of a decision
    reach the executor as they are when the decision has no target index
    or one that does not resolve; when the target index resolves, they are
    replaced by the centre of an indexed element before the executor runs. *)
Theorem executor_coordinates_nonnegative {W : Type} (int_of_str : str -> may_raise Z)
    (int_mul : Z -> Q -> Z) (self : Executor.t W) :
  (forall a b p, Point.new a b = Ok p -> nonneg_point p)
  /\ (forall a b, a < 0 \/ b < 0 ->
        Point.new a b = Raise (ValueError (py "Point coordinates must be non-negative")))
  /\ (forall context s,
        extends_safely s (snd (execute int_of_str int_mul self context s)))
  /\ (forall context step vx vy a b s,
        is_Some (device_controller self) ->
        AgentContext.steps context !! AgentContext.current_step context = Some step ->
        is_tap_or_click (NextStep.action step) = true ->
        NextStep.parameters step !! "x" = Some vx ->
        NextStep.parameters step !! "y" = Some vy ->
        int_of_value int_of_str vx = Ok a ->
        int_of_value int_of_str vy = Ok b ->
        a < 0 \/ b < 0 ->
        execute int_of_str int_mul self context s
        = (Ok (AgentResult.failure_result (py "Point coordinates must be non-negative")
                 (py "Failed to execute action: " ++ NextStep.action step)), s))
  /\ (forall ui_context step,
        NextStep.target_index step = VNone
        \/ get_element_by_index ui_context (NextStep.target_index step) = Ok None ->
        resolve_target_index ui_context step = Ok step)
  /\ (forall ui_context step e,
        is_tap_or_click (NextStep.action step) = true ->
        get_element_by_index ui_context (NextStep.target_index step) = Ok (Some e) ->
        exists en step',
          en ∈ get_indexed_all_elements ui_context
          /\ resolve_target_index ui_context step = Ok step'
          /\ NextStep.parameters step' !! "x" = Some (VInt (fst (center_of en)))
          /\ NextStep.parameters step' !! "y" = Some (VInt (snd (center_of en)))).
Proof.
  split; [|split; [|split; [|split; [|split]]]].
  - intros a b p Hp. by apply point_new_ok in Hp as [_ ?].
  - apply point_new_negative.
  - intros context s. apply safe_execute.
  - intros context step vx vy a b s. apply execute_negative_tap.
  - intros ui_context step [Hnone|Hnone].
    + apply resolve_without_index. right. by rewrite Hnone.
    + apply resolve_without_index. by right.
  - intros ui_context step e Htap Hlook.
    destruct (resolve_by_index _ _ _ Htap Hlook) as (en & index & name & Hen & Hres).
    exists en. eexists. split; [done|]. split; [exact Hres|].
    cbn [NextStep.parameters]. split.
    + rewrite lookup_insert_ne by done. apply lookup_insert_eq.
    + apply lookup_insert_eq.
Qed.

(** A tap at (-5, 7) on the sample executor: a failed result, an empty log. *)
Lemma executor_coordinates_nonnegative_witness :
  execute no_int_of_str exact_mul sample_executor (context_of (tap_at (-5) 7) [])
    (Executor.mk_state tt [] [])
  = (Ok (AgentResult.failure_result (py "Point coordinates must be non-negative")
           (py "Failed to execute action: " ++ py "tap")),
     Executor.mk_state tt [] []).
Proof.
  destruct (executor_coordinates_nonnegative no_int_of_str exact_mul sample_executor)
    as (_ & _ & _ & H & _).
  apply (H (context_of (tap_at (-5) 7) []) (tap_at (-5) 7) (VInt (-5)) (VInt 7) (-5) 7).
  - by eexists.
  - reflexivity.
  - reflexivity.
  - reflexivity.
  - reflexivity.
  - reflexivity.
  - reflexivity.
  - left. lia.
Defined.

(** C10, as stated, fails in its last clause.  The decision carries the
    negative coordinates (-5, -6) and the target index 1; the button of
    index 1 is at (100, 200).  The step does not fail: the coordinates are
    replaced, the device is asked to tap (100, 200), and the result is a
    success. *)
Lemma executor_coordinates_counterexample :
  exists step,
    NextStep.parameters negative_given !! "x" = Some (VInt (-5))
    /\ NextStep.parameters negative_given !! "y" = Some (VInt (-6))
    /\ resolve_target_index one_button negative_given = Ok step
    /\ effects_of step one_button = [Tap (Point.mk 100 200); Sleep 300]
    /\ result_of step one_button
       = Ok (AgentResult.success_result (py "Executed action: " ++ py "tap")
               (Some (py "validate"))).
Proof.
  eexists. split; [reflexivity|]. split; [reflexivity|].
  split; [vm_compute; reflexivity|].
  split; vm_compute; reflexivity.
Qed.

(** C9, as amended.  For a tap or click, the target index comes first.
    When it resolves in the snapshot the plan was made on, the element it
    resolves to is the element of the entry that carries this index.  The
    step is then resolved to this element, unless its description names
    (after a full-width colon) an element whose name is not part of this
    element's name and that has a match in the index: then it is resolved
    to the best match, the first entry of the highest score.  Either way
    the centre of the element that is resolved to replaces whatever
    coordinates the decision carried, and its name becomes the target.
    The decision's own coordinates stand only when there is no target
    index or it does not resolve; the executor then taps the coordinates
    of the parameters without looking at the target text. *)
Theorem resolution_order (ui_context : UIContext.t) (next_step : NextStep.t) :
  (forall e,
     is_tap_or_click (NextStep.action next_step) = true ->
     get_element_by_index ui_context (NextStep.target_index next_step) = Ok (Some e) ->
     (exists i name,
        as_int_instance (NextStep.target_index next_step) = Some i
        /\ (i, name, e) ∈ get_indexed_all_elements ui_context)
     /\ (index_stands ui_context next_step e ->
         resolve_target_index ui_context next_step
         = Ok (resolved next_step (NextStep.target_index next_step) e))
     /\ (forall target_name en,
           target_name_from_desc (NextStep.description next_step) = Some target_name ->
           target_name <> [] ->
           contains (elem_name_of e (NextStep.target_index next_step)) target_name = false ->
           best_match ui_context target_name en ->
           resolve_target_index ui_context next_step
           = Ok (resolved next_step (VInt (index_of en)) (element_of en)))
     /\ (index_stands ui_context next_step e
         \/ exists target_name en,
              target_name_from_desc (NextStep.description next_step) = Some target_name
              /\ target_name <> []
              /\ contains (elem_name_of e (NextStep.target_index next_step)) target_name
                 = false
              /\ best_match ui_context target_name en))
  /\ (is_tap_or_click (NextStep.action next_step) = false
      \/ get_element_by_index ui_context (NextStep.target_index next_step) = Ok None ->
      resolve_target_index ui_context next_step = Ok next_step)
  /\ (forall (W : Type) (int_of_str : str -> may_raise Z) (self : Executor.t W) dev
        target context (a b : Z) (s : Executor.state W),
        device_controller self = Some dev ->
        NextStep.parameters next_step !! "x" = Some (VInt a) ->
        NextStep.parameters next_step !! "y" = Some (VInt b) ->
        0 <= a -> 0 <= b ->
        Executor.log
          (snd (_execute_tap int_of_str self target (NextStep.parameters next_step) context s))
        = Executor.log s ++ [Tap (Point.mk a b)]).
Proof.
  split; [|split].
  - intros e Htap Hlook. split; [by apply lookup_entry|].
    split; [by apply resolve_index_stands|].
    split; [intros target_name en; by apply resolve_rematched|].
    unfold index_stands.
    destruct (target_name_from_desc (NextStep.description next_step)) as [tn|]; [|by left].
    destruct tn as [|c tn]; [left; by left|].
    destruct (contains (elem_name_of e (NextStep.target_index next_step)) (c :: tn)) eqn:Hc;
      [left; right; by left|].
    destruct (rematch_spec ui_context (c :: tn)) as [[Hno _]|(en & Hbest & _)].
    + left. right. by right.
    + right. exists (c :: tn), en. by repeat split.
  - apply resolve_without_index.
  - intros W int_of_str self dev target context a b s Hdev Hx Hy Ha Hb.
    by rewrite (execute_tap_explicit int_of_str self target _ context a b s dev).
Qed.

(** The index stands: the tap on index 1 is resolved to the button of
    index 1.  The description names another element: the tap on index 1
    whose description names "OK" is resolved to the button "OK", of index
    2. *)
Lemma resolution_order_witness :
  resolve_target_index one_button both_given
  = Ok (resolved both_given (VInt 1) (button "OK" (100, 200)))
  /\ resolve_target_index two_buttons misnumbered
     = Ok (resolved misnumbered (VInt 2) (button "OK" (100, 200))).
Proof.
  split.
  - destruct (resolution_order one_button both_given) as (H & _ & _).
    destruct (H (button "OK" (100, 200))) as (_ & Hstands & _ & _).
    + reflexivity.
    + reflexivity.
    + apply Hstands. exact I.
  - destruct (resolution_order two_buttons misnumbered) as (H & _ & _).
    destruct (H (button "Cancel" (10, 20))) as (_ & _ & Hmatch & _).
    + reflexivity.
    + reflexivity.
    + apply (Hmatch (py "OK") (2, py "OK", button "OK" (100, 200))).
      * reflexivity.
      * discriminate.
      * reflexivity.
      * exists [(1, py "Cancel", button "Cancel" (10, 20))], [].
        split; [reflexivity|]. split; [vm_compute; discriminate|].
        split; [|constructor]. repeat constructor.
Defined.

(** C9, as stated, fails.  The decision carries the coordinates (5, 6)
    and the target index 1; the button of index 1 is at (100, 200).  The
    step that is executed taps (100, 200): the explicit coordinates are
    not used. *)
Lemma resolution_order_counterexample :
  exists step,
    resolve_target_index one_button both_given = Ok step
    /\ NextStep.parameters both_given !! "x" = Some (VInt 5)
    /\ NextStep.parameters step !! "x" = Some (VInt 100)
    /\ NextStep.parameters step !! "y" = Some (VInt 200)
    /\ effects_of step one_button = [Tap (Point.mk 100 200); Sleep 300]
    /\ Tap (Point.mk 5 6) ∉ effects_of step one_button.
Proof.
  eexists. split; [vm_compute; reflexivity|].
  split; [reflexivity|]. split; [reflexivity|]. split; [reflexivity|].
  split; [vm_compute; reflexivity|].
  intros Hin. vm_compute in Hin.
  repeat (apply elem_of_cons in Hin as [Hin|Hin]; [discriminate Hin|]).
  by apply elem_of_nil in Hin.
Qed.

End ExecutorClaims.


Import Py.
Local Open Scope Z_scope.

(** ** The execution loop *)

Section LoopSteps.
Import Orchestrator LoopNotions.
Context {W : Type}.
Variable self : Orchestrator.t W.

Lemma executed_of_app (a b : list event) :
  executed_of (a ++ b) = executed_of a ++ executed_of b.
Proof. apply omap_app. Qed.

(** Capturing the UI never raises: it adds one event and a new world. *)
Lemma get_ui_context_spec (s : state W) :
  exists ui w,
    _get_ui_context self s
    = (Ok ui, mk_state w (trace s ++ [Captured ui]) (exec_state s) (completed_steps s)
                (step_count s)).
Proof.
  unfold _get_ui_context, mbind, SE_bind, SE.bind, emit, SE.modify.
  destruct (device_controller self) as [dc|]; simpl.
  - unfold SE.try_except, call, mret, SE_ret, SE.ret, SE.bind. simpl.
    destruct (get_ui_hierarchy dc (world s)) as [[els|e1] w1]; simpl;
      destruct (take_screenshot dc w1) as [[shot|e2] w2]; simpl; eauto.
  - unfold mret, SE_ret, SE.ret. simpl. eauto.
Qed.

(** Executing a step never raises: a failure is a failed result. *)
Lemma execute_step_spec (next_step : NextStep.t) (ui_context : UIContext.t) (s : state W) :
  exists step_result w,
    _execute_step self next_step ui_context s
    = (Ok step_result,
       mk_state w (trace s ++ [Executed next_step step_result]) (exec_state s)
         (completed_steps s) (step_count s)).
Proof.
  unfold _execute_step, mbind, SE_bind, SE.bind, emit, SE.modify, SE.try_except, call.
  destruct (action_executor self _ (world s)) as [[res|e] w]; simpl.
  - eauto.
  - destruct e; simpl; eauto.
Qed.

(** The progress callback touches neither the ledger nor the counters, and
    executes nothing. *)
Lemma notify_progress_spec (next_step : NextStep.t) (s s' : state W) r :
  notify_progress self next_step s = (r, s') ->
  completed_steps s' = completed_steps s
  /\ step_count s' = step_count s
  /\ exec_state s' = exec_state s
  /\ exists events, trace s' = trace s ++ events /\ executed_of events = [].
Proof.
  unfold notify_progress. destruct (on_progress self) as [f|].
  - unfold mbind, SE_bind, SE.bind, emit, SE.modify, SE.get, call. simpl.
    destruct (f _ _ _ _ _ (world s)) as [r0 w]. intros [= <- <-]. simpl.
    repeat split; try done. eexists. split; [done|]. reflexivity.
  - intros [= <- <-]. repeat split; try done. exists []. by rewrite app_nil_r.
Qed.

(** What the execution of a list of steps leaves behind. *)
Lemma run_steps_spec (all_steps : list NextStep.t) :
  forall batch ui_context ui_before first (s s' : state W) r,
    run_steps self batch ui_context ui_before first all_steps s = (r, s') ->
    exists events,
      trace s' = trace s ++ events
      /\ completed_steps s'
         = completed_steps s ++ records_of ui_before first (executed_of events)
      /\ step_count s' = step_count s
      /\ exec_state s' = exec_state s
      /\ Forall (fun p => exists step, step ∈ all_steps
                          /\ resolve_target_index ui_context step = Ok (fst p))
           (executed_of events)
      /\ (r = Ok tt -> all_steps <> [] -> executed_of events <> [])
      /\ (batch = true \/ (length all_steps <= 1)%nat ->
          (forall e, r = Raise e ->
             Forall (fun p => StepResult.success (snd p) = true) (executed_of events))
          /\ (forall earlier p, executed_of events = earlier ++ [p] ->
                Forall (fun q => StepResult.success (snd q) = true) earlier)).
Proof.
  induction all_steps as [|step rest IH];
    intros batch ui_context ui_before first s s' r Hrun.
  - injection Hrun as <- <-. exists []. rewrite !app_nil_r. simpl.
    repeat split; try done.
    all: try solve [intros ? ?; discriminate].
    all: try solve [intros [|? ?] ? ?; discriminate].
  - simpl in Hrun. unfold mbind, SE_bind, SE.bind, SE.lift in Hrun.
    destruct (resolve_target_index ui_context step) as [ns|e] eqn:Hres.
    2:{ injection Hrun as <- <-. exists []. rewrite !app_nil_r. simpl.
        repeat split; try done.
        all: try solve [intros ? ?; discriminate].
        all: try solve [intros [|? ?] ? ?; discriminate]. }
    destruct (notify_progress self ns s) as [[[]|e] s1] eqn:Hnot.
    2:{ injection Hrun as <- <-.
        destruct (notify_progress_spec _ _ _ _ Hnot) as (Hl & Hc & He & evs & Ht & Hex).
        exists evs. rewrite Hex. simpl. rewrite app_nil_r.
        repeat split; try done.
        all: try solve [intros ? ?; discriminate].
        all: try solve [intros [|? ?] ? ?; discriminate]. }
    destruct (notify_progress_spec _ _ _ _ Hnot) as (Hl & Hc & He & evs & Ht & Hex).
    destruct (execute_step_spec ns ui_context s1) as (sr & w & Hexec).
    rewrite Hexec in Hrun. simpl in Hrun.
    unfold sleep, emit, append_step, SE.modify in Hrun. simpl in Hrun.
    set (wait := if batch then 100 else 500) in *.
    assert (executed_of (evs ++ [Executed ns sr; Slept wait]) = [(ns, sr)]) as Hone.
    { rewrite executed_of_app, Hex. reflexivity. }
    assert (step ∈ step :: rest) as Hhead by (apply elem_of_cons; by left).
    destruct (negb (StepResult.success sr) && batch) eqn:Hbr.
    + injection Hrun as <- <-. simpl.
      exists (evs ++ [Executed ns sr; Slept wait]). rewrite Hone. simpl.
      rewrite Ht, Hl, Hc, He, <- !app_assoc. simpl.
      repeat split; try done.
      * constructor; [|constructor]. exists step. by split.
      * intros [|q earlier] p Hp; [constructor|].
        injection Hp as _ Hp. by destruct earlier.
    + destruct (IH _ _ _ _ _ _ _ Hrun)
        as (evs' & Ht' & Hl' & Hc' & He' & Hall & Hne & Hclean).
      simpl in Ht', Hl', Hc', He'.
      exists ((evs ++ [Executed ns sr; Slept wait]) ++ evs').
      rewrite executed_of_app, Hone. simpl.
      rewrite Ht', Hl', Hc', He', Ht, Hl, Hc, He, <- !app_assoc. simpl.
      repeat split; try done.
      * constructor; [exists step; by split|].
        eapply Forall_impl; [exact Hall|]. intros p (st & Hst & Hp).
        exists st. split; [apply elem_of_cons; by right|done].
      * intros e Hr.
        match goal with H : _ \/ _ |- _ => destruct H as [Hb|Hlen] end.
        -- constructor.
           ++ simpl. rewrite Hb, andb_true_r in Hbr. by apply negb_false_iff.
           ++ by apply (proj1 (Hclean (or_introl Hb))) with e.
        -- destruct rest; [|simpl in Hlen; lia].
           simpl in Hrun. injection Hrun as Hr' _. congruence.
      * intros earlier p Hp.
        match goal with H : _ \/ _ |- _ => destruct H as [Hb|Hlen] end.
        -- destruct earlier as [|q earlier]; [constructor|].
           injection Hp as <- Hp. constructor.
           ++ simpl. rewrite Hb, andb_true_r in Hbr. by apply negb_false_iff.
           ++ by apply (proj2 (Hclean (or_introl Hb))) with p.
        -- destruct rest; [|simpl in Hlen; lia].
           simpl in Hrun. injection Hrun as _ Hs.
           assert (evs' = []) as ->.
           { apply (f_equal trace), (f_equal length) in Hs. simpl in Hs.
             rewrite Ht' in Hs. simpl in Hs. rewrite !length_app in Hs. simpl in Hs.
             destruct evs'; [done|simpl in Hs; lia]. }
           simpl in Hp. destruct earlier as [|q [|q' earlier]]; [constructor| |];
             discriminate.
Qed.

(** The end of an iteration never raises. *)
Lemma finish_batch_spec (task : str) (ui_before : list str) (s : state W) :
  exists ui_after w,
    let changed := ui_differs ui_before (UIContext.get_all_elements ui_after) in
    let ledger :=
      update_last (finalize (UIContext.get_all_elements ui_after) changed)
        (completed_steps s) in
    let events := trace s ++ [Slept 300; Captured ui_after] in
    finish_batch self task ui_before s
    = if (3 <=? _count_consecutive_failures ledger)%nat
      then (Ok (Return (failed_with task ledger (failure_message ledger))),
            mk_state w events FAILED ledger (step_count s))
      else (Ok Continue, mk_state w events (exec_state s) ledger (step_count s)).
Proof.
  unfold finish_batch, mbind, SE_bind, SE.bind, sleep, emit, SE.modify.
  cbn [world trace exec_state completed_steps step_count].
  destruct (get_ui_context_spec
              (mk_state (world s) (trace s ++ [Slept 300]) (exec_state s)
                 (completed_steps s) (step_count s))) as (ui & w & Hui).
  cbn [world trace exec_state completed_steps step_count] in Hui. rewrite Hui.
  exists ui, w. cbv zeta.
  unfold update_last_step, SE.modify, SE.get, failed_result, set_exec_state,
    mbind, SE_bind, SE.bind, SE.modify, SE.get, mret, SE_ret, SE.ret.
  cbn [world trace exec_state completed_steps step_count].
  fold (finalize (UIContext.get_all_elements ui)
          (ui_differs ui_before (UIContext.get_all_elements ui))).
  rewrite <- app_assoc. cbn [app].
  destruct (3 <=? _)%nat; reflexivity.
Qed.

(** An iteration, as far as the plan: the counter goes up, the UI is
    captured, the planner is asked; then the plan decides. *)
Lemma iteration_unfold (task : str) (s : state W) :
  exists ui w1,
    _get_ui_context self
      (mk_state (world s) (trace s) (exec_state s) (completed_steps s) (step_count s + 1))
    = (Ok ui, mk_state w1 (trace s ++ [Captured ui]) (exec_state s) (completed_steps s)
                (step_count s + 1))
    /\ match DynamicTaskPlanner.plan_next_step (planner self) task ui (completed_steps s) w1
       with
       | (Raise e, w2) =>
         iteration self task s
         = (Raise e, mk_state w2 (trace s ++ [Captured ui]) (exec_state s)
                       (completed_steps s) (step_count s + 1))
       | (Ok plan, w2) =>
         let planned := trace s ++ [Captured ui; Planned plan] in
         let s2 := mk_state w2 planned (exec_state s) (completed_steps s) (step_count s + 1) in
         iteration self task s
         = if PlanningResult.task_complete plan then
             (Ok Break, mk_state w2 planned COMPLETED (completed_steps s) (step_count s + 1))
           else
             match PlanningResult.get_all_steps plan with
             | [] =>
               if Qeq_bool (PlanningResult.confidence plan) 0
               then (Ok Continue,
                     mk_state w2 (planned ++ [Slept 5000]) (exec_state s) (completed_steps s)
                       (step_count s + 1))
               else (Ok Continue, s2)
             | _ =>
               (run_steps self (PlanningResult.has_batch_steps plan) ui
                  (UIContext.get_all_elements ui) true
                  (steps_to_execute plan ui (completed_steps s));;
                finish_batch self task (UIContext.get_all_elements ui)) s2
             end
       end.
Proof.
  destruct (get_ui_context_spec
              (mk_state (world s) (trace s) (exec_state s) (completed_steps s)
                 (step_count s + 1))) as (ui & w1 & Hui).
  cbn [world trace exec_state completed_steps step_count] in Hui.
  exists ui, w1. split; [done|].
  unfold iteration, incr_step_count, mbind, SE_bind, SE.bind, SE.modify.
  rewrite Hui. unfold SE.get, call.
  cbn [world trace exec_state completed_steps step_count].
  destruct (DynamicTaskPlanner.plan_next_step _ _ _ _ _) as [[plan|e] w2]; [|done].
  unfold emit, SE.modify. cbn [world trace exec_state completed_steps step_count].
  rewrite <- app_assoc. cbn [app].
  destruct (PlanningResult.task_complete plan); [reflexivity|].
  destruct (PlanningResult.get_all_steps plan); [|reflexivity].
  destruct (Qeq_bool _ _); reflexivity.
Qed.

Lemma update_last_app {A} (f : A -> A) (l k : list A) :
  k <> [] -> update_last f (l ++ k) = l ++ update_last f k.
Proof.
  intros Hk. unfold update_last. rewrite last_app.
  destruct (last k) as [a|] eqn:Hlast.
  - rewrite length_app.
    replace (length l + length k - 1)%nat with (length l + (length k - 1))%nat.
    + apply insert_app_r.
    + destruct k; [done|simpl; lia].
  - by apply last_None in Hlast.
Qed.

Lemma update_last_snoc {A} (f : A -> A) (l : list A) (a : A) :
  update_last f (l ++ [a]) = l ++ [f a].
Proof.
  unfold update_last. rewrite last_snoc, length_app. simpl.
  replace (length l + 1 - 1)%nat with (length l + 0)%nat by lia.
  by rewrite insert_app_r.
Qed.

Lemma records_of_nil ui_before first executed :
  records_of ui_before first executed = [] -> executed = [].
Proof. destruct executed as [|[? ?] ?]; [done|discriminate]. Qed.

(** Outside a batch the planner proposes at most one step. *)
Lemma single_step_length (plan : PlanningResult.t) (ui : UIContext.t)
    (ledger : list CompletedStep.t) :
  PlanningResult.has_batch_steps plan = false ->
  (length (steps_to_execute plan ui ledger) <= 1)%nat.
Proof.
  intros Hb. unfold steps_to_execute. rewrite length_map.
  unfold convert_batch, PlanningResult.get_all_steps. rewrite Hb.
  unfold convert_after_input.
  destruct (_ && _); [|destruct (PlanningResult.next_step plan); simpl; lia].
  destruct (_is_digit_clicks _); [|destruct (PlanningResult.next_step plan); simpl; lia].
  destruct (truthy _); [simpl; lia|destruct (PlanningResult.next_step plan); simpl; lia].
Qed.

(** The rewrites keep a non-empty list of steps non-empty. *)
Lemma steps_to_execute_nonempty (plan : PlanningResult.t) (ui : UIContext.t)
    (ledger : list CompletedStep.t) :
  PlanningResult.get_all_steps plan <> [] -> steps_to_execute plan ui ledger <> [].
Proof.
  intros Hne. unfold steps_to_execute.
  assert (convert_batch plan ui (PlanningResult.get_all_steps plan) <> []) as H1.
  { unfold convert_batch. repeat (destruct (_ : bool); try done). }
  assert (forall l, l <> [] -> convert_after_input ledger l <> []) as H2.
  { intros l Hl. unfold convert_after_input. repeat (destruct (_ : bool); try done). }
  specialize (H2 _ H1). destruct (convert_after_input _ _); [done|discriminate].
Qed.

(** What an iteration leaves behind, by the way it ends. *)
Lemma iteration_cases (task : str) (s s' : state W) r :
  iteration self task s = (r, s') ->
  step_count s' = step_count s + 1
  /\ exists ui events,
       trace s' = trace s ++ events
       /\ ((completed_steps s' = completed_steps s
            /\ executed_of events = []
            /\ (forall t, r <> Ok (Return t)))
           \/ exists plan,
                let steps := steps_to_execute plan ui (completed_steps s) in
                let appended :=
                  records_of (UIContext.get_all_elements ui) true (executed_of events) in
                Forall (resolved_from ui steps) (executed_of events)
                /\ ((exists e, r = Raise e
                       /\ completed_steps s' = completed_steps s ++ appended
                       /\ Forall (fun p => StepResult.success (snd p) = true)
                            (executed_of events))
                    \/ exists ui_after changed,
                         let ledger :=
                           completed_steps s
                           ++ update_last (finalize ui_after changed) appended in
                         appended <> []
                         /\ completed_steps s' = ledger
                         /\ (forall earlier p, executed_of events = earlier ++ [p] ->
                               Forall (fun q => StepResult.success (snd q) = true) earlier)
                         /\ ((r = Ok Continue /\ few_failures ledger)
                             \/ (r = Ok (Return (failed_with task ledger
                                                   (failure_message ledger)))
                                 /\ (3 <= _count_consecutive_failures ledger)%nat)))).
Proof.
  intros Hit.
  destruct (iteration_unfold task s) as (ui & w1 & _ & Hcase).
  destruct (DynamicTaskPlanner.plan_next_step _ _ _ _ _) as [[plan|e] w2].
  2:{ rewrite Hcase in Hit. injection Hit as <- <-. split; [done|].
      exists ui, [Captured ui]. split; [done|]. left. repeat split; try done. }
  cbv zeta in Hcase. rewrite Hcase in Hit. clear Hcase.
  destruct (PlanningResult.task_complete plan).
  { injection Hit as <- <-. split; [done|].
    exists ui, [Captured ui; Planned plan]. split; [done|]. left. repeat split; try done. }
  destruct (PlanningResult.get_all_steps plan) as [|st0 sts] eqn:Hsteps.
  { destruct (Qeq_bool _ _); injection Hit as <- <-; (split; [done|]).
    - exists ui, ([Captured ui; Planned plan] ++ [Slept 5000]).
      split; [by rewrite app_assoc|]. left. repeat split; try done.
    - exists ui, [Captured ui; Planned plan]. split; [done|]. left. repeat split; try done. }
  unfold mbind, SE_bind, SE.bind in Hit.
  destruct (run_steps self _ _ _ _ _ _) as [rr s3] eqn:Hrun.
  destruct (run_steps_spec _ _ _ _ _ _ _ _ Hrun)
    as (evs & Ht & Hl & Hc & He & Hall & Hne & Hclean).
  cbn [world trace exec_state completed_steps step_count] in Ht, Hl, Hc, He.
  assert (PlanningResult.has_batch_steps plan = true
          \/ (length (steps_to_execute plan ui (completed_steps s)) <= 1)%nat) as Hshape.
  { destruct (PlanningResult.has_batch_steps plan) eqn:Hb; [by left|].
    right. by apply single_step_length. }
  destruct (Hclean Hshape) as [Hraise Hlast].
  destruct rr as [[]|e].
  2:{ injection Hit as <- <-. split; [done|].
      exists ui, ([Captured ui; Planned plan] ++ evs).
      split; [by rewrite Ht, <- app_assoc|]. right. exists plan. cbv zeta.
      rewrite executed_of_app. cbn [executed_of omap app]. fold (executed_of evs).
      split; [done|]. left. exists e. repeat split; try done. by apply Hraise with e. }
  destruct (finish_batch_spec task (UIContext.get_all_elements ui) s3)
    as (ui_after & w4 & Hfin).
  cbv zeta in Hfin. rewrite Hfin in Hit. clear Hfin.
  assert (executed_of evs <> []) as Hex.
  { apply Hne; [done|]. apply steps_to_execute_nonempty. by rewrite Hsteps. }
  assert (records_of (UIContext.get_all_elements ui) true (executed_of evs) <> []) as Hrec.
  { intros Hnil. by apply records_of_nil in Hnil. }
  rewrite Hl, update_last_app in Hit by done.
  set (changed := ui_differs _ _) in Hit.
  assert (step_count s' = step_count s + 1
          /\ trace s' = trace s ++ ([Captured ui; Planned plan] ++ evs
                                    ++ [Slept 300; Captured ui_after])
          /\ completed_steps s'
             = completed_steps s
               ++ update_last (finalize (UIContext.get_all_elements ui_after) changed)
                    (records_of (UIContext.get_all_elements ui) true (executed_of evs)))
    as (Hcount & Htrace & Hledger).
  { destruct (3 <=? _)%nat; injection Hit as <- <-;
      cbn [world trace exec_state completed_steps step_count];
      rewrite Hc, Ht, <- !app_assoc; done. }
  split; [done|].
  exists ui, ([Captured ui; Planned plan] ++ evs ++ [Slept 300; Captured ui_after]).
  split; [done|]. right. exists plan. cbv zeta.
  rewrite !executed_of_app. cbn [executed_of omap app]. fold (executed_of evs).
  rewrite app_nil_r.
  split; [done|]. right.
  exists (UIContext.get_all_elements ui_after), changed.
  split; [done|]. split; [done|]. split; [done|].
  destruct (3 <=? _)%nat eqn:Hthree; injection Hit as <- _.
  - right. split; [done|]. by apply Nat.leb_le.
  - left. split; [done|]. unfold few_failures. by apply Nat.leb_gt.
Qed.

End LoopSteps.

Section LoopClaims.
Import Orchestrator LoopNotions Notions LoopSamples.
Context {W : Type}.
Variable self : Orchestrator.t W.

(** When the request to the language model raises, the planner answers
    with the fallback plan. *)
Lemma plan_fallback (task : str) (ui : UIContext.t) (ledger : list CompletedStep.t)
    (prompt : str) (e : exn) (w w' : W) :
  DynamicTaskPlanner._build_prompt (planner self) task ui ledger = Ok prompt ->
  DynamicTaskPlanner.respond (planner self) (UIContext.screenshot ui) prompt w = (Raise e, w') ->
  DynamicTaskPlanner.plan_next_step (planner self) task ui ledger w
  = (Ok (DynamicTaskPlanner._fallback_plan task ui ledger), w').
Proof.
  intros Hp Hr. unfold DynamicTaskPlanner.plan_next_step, mbind, SE_bind, SE.bind, SE.lift.
  rewrite Hp. unfold SE.try_except. by rewrite Hr.
Qed.

(** C3, as amended.  When the request to the language model fails, the
    planner returns the no-op decision: no next step, not complete,
    confidence 0.  On it the orchestrator sleeps the fixed five seconds and
    goes to the next iteration with the ledger as it was: no record is
    appended.  The loop's counter [step_count] has been incremented at the
    top of the iteration and stays so: the retry uses up one unit of the
    [max_steps] budget. *)
Theorem llm_failure_retry (task : str) (s s1 : state W) (ui : UIContext.t)
    (prompt : str) (e : exn) (w2 : W) :
  _get_ui_context self
    (mk_state (world s) (trace s) (exec_state s) (completed_steps s) (step_count s + 1))
  = (Ok ui, s1) ->
  DynamicTaskPlanner._build_prompt (planner self) task ui (completed_steps s) = Ok prompt ->
  DynamicTaskPlanner.respond (planner self) (UIContext.screenshot ui) prompt (world s1)
  = (Raise e, w2) ->
  let plan := DynamicTaskPlanner._fallback_plan task ui (completed_steps s) in
  DynamicTaskPlanner.plan_next_step (planner self) task ui (completed_steps s) (world s1)
  = (Ok plan, w2)
  /\ PlanningResult.next_step plan = None
  /\ PlanningResult.next_steps plan = None
  /\ PlanningResult.task_complete plan = false
  /\ (PlanningResult.confidence plan == 0)%Q
  /\ iteration self task s
     = (Ok Continue,
        mk_state w2 (trace s ++ [Captured ui; Planned plan; Slept 5000]) (exec_state s)
          (completed_steps s) (step_count s + 1)).
Proof.
  intros Hui Hp Hr plan.
  pose proof (plan_fallback task ui (completed_steps s) prompt e (world s1) w2 Hp Hr) as Hplan.
  repeat split; try done.
  destruct (iteration_unfold self task s) as (ui' & w1 & Hui' & Hcase).
  rewrite Hui in Hui'. injection Hui' as <- ->.
  cbn [world] in Hplan. rewrite Hplan in Hcase. cbv zeta in Hcase.
  rewrite Hcase. cbn. by rewrite <- app_assoc.
Qed.

Lemma failed_result_spec (task error : str) (s : state W) :
  failed_result task error s
  = (Ok (failed_with task (completed_steps s) error),
     mk_state (world s) (trace s) FAILED (completed_steps s) (step_count s)).
Proof. reflexivity. Qed.

(** The stop check touches neither the ledger nor the counters, and
    executes nothing. *)
Lemma check_stop_spec (s s' : state W) r :
  check_stop self s = (r, s') ->
  completed_steps s' = completed_steps s
  /\ step_count s' = step_count s
  /\ exists events, trace s' = trace s ++ events /\ executed_of events = [].
Proof.
  unfold check_stop. destruct (stop_check self) as [f|].
  - unfold mbind, SE_bind, SE.bind, call, emit, SE.modify.
    destruct (f (world s)) as [[b|e] w]; intros [= <- <-];
      cbn [world trace exec_state completed_steps step_count];
      (repeat split; try done).
    + by exists [StopChecked b].
    + exists []. by rewrite app_nil_r.
  - intros [= <- <-]. repeat split; try done. exists []. by rewrite app_nil_r.
Qed.

(** C7.  When the stop predicate answers true at the top of an iteration,
    the loop ends there: the only event is the stop check (no capture of
    the UI), and the result is a failed one that reports the user's stop,
    counts exactly the steps completed so far and carries the ledger as it
    was. *)
Theorem stop_halts_before_capture (task : str) (fuel : nat) (s : state W)
    (f : W -> may_raise bool * W) (w' : W) :
  stop_check self = Some f ->
  f (world s) = (Ok true, w') ->
  step_count s < max_steps self ->
  loop self (S fuel) task s
  = (Ok (Some (TaskResult.mk false task (Z.of_nat (length (completed_steps s)))
                 (completed_steps s) (Some (py "用户停止了任务")) FAILED)),
     mk_state w' (trace s ++ [StopChecked true]) FAILED (completed_steps s) (step_count s)).
Proof.
  intros Hf Hw Hlt. cbn [loop]. unfold mbind, SE_bind, SE.bind, SE.get.
  replace (step_count s <? max_steps self) with true by (symmetry; by apply Z.ltb_lt).
  unfold check_stop. rewrite Hf. unfold mbind, SE_bind, SE.bind, call. rewrite Hw.
  reflexivity.
Qed.

End LoopClaims.

Section LoopWitnesses.
Import Orchestrator LoopNotions Notions LoopSamples.

(** The language model of [unreachable] fails at the first iteration. *)
Lemma llm_failure_retry_witness :
  iteration unreachable sample_task (initial 0%nat)
  = (Ok Continue,
     mk_state 0%nat
       [Captured (UIContext.mk [] None);
        Planned (DynamicTaskPlanner._fallback_plan sample_task (UIContext.mk [] None) []);
        Slept 5000]
       RUNNING [] 1).
Proof.
  apply (llm_failure_retry unreachable sample_task (initial 0%nat)
           (mk_state 0%nat [Captured (UIContext.mk [] None)] RUNNING [] 1)
           (UIContext.mk [] None) [] (OtherError (py "rate limit exceeded")) 0%nat);
    reflexivity.
Defined.

(** C3, as stated, fails.  With a language model that cannot be reached,
    the iteration appends nothing and yet the step counter goes from 0 to
    1; with a budget of two steps the task ends, after two such
    iterations, as failed for having reached the step limit. *)
Lemma llm_failure_counterexample :
  fst (iteration unreachable sample_task (initial 0%nat)) = Ok Continue
  /\ completed_steps (snd (iteration unreachable sample_task (initial 0%nat))) = []
  /\ step_count (snd (iteration unreachable sample_task (initial 0%nat)))
     <> step_count (initial 0%nat)
  /\ fst (execute_task unreachable sample_task 0%nat)
     = Some (failed_with sample_task [] (py "达到最大步数限制 (2)")).
Proof.
  split; [reflexivity|]. split; [reflexivity|]. split; [|vm_compute; reflexivity].
  vm_compute. discriminate.
Qed.

(** The caller of [stopping] asks to stop before the first iteration. *)
Lemma stop_halts_before_capture_witness :
  loop stopping 11 sample_task (initial 0%nat)
  = (Ok (Some (TaskResult.mk false sample_task 0 [] (Some (py "用户停止了任务")) FAILED)),
     mk_state 0%nat [StopChecked true] FAILED [] 0).
Proof.
  apply (stop_halts_before_capture stopping sample_task 10 (initial 0%nat)
           (fun w => (Ok true, w)) 0%nat).
  - reflexivity.
  - reflexivity.
  - reflexivity.
Defined.

End LoopWitnesses.

Section Ledger.
Import Orchestrator LoopNotions Notions LoopSamples.
Context {W : Type}.
Variable self : Orchestrator.t W.

Lemma same_but_ui_refl (a : CompletedStep.t) : same_but_ui a a.
Proof. by destruct a. Qed.

Lemma same_but_ui_finalize (ui_after : list str) (changed : bool) (a : CompletedStep.t) :
  same_but_ui a (finalize ui_after changed a).
Proof. by destruct a. Qed.

Lemma update_last_cases {A} (f : A -> A) (l : list A) :
  (l = [] /\ update_last f l = [])
  \/ exists l' a, l = l' ++ [a] /\ update_last f l = l' ++ [f a].
Proof.
  destruct l as [|a l] using rev_ind; [by left|].
  right. exists l, a. split; [done|]. apply update_last_snoc.
Qed.

(** The assignment to the last record leaves every other record, and
    every other field, as it was. *)
Lemma update_last_finalize (ui_after : list str) (changed : bool)
    (ledger : list CompletedStep.t) :
  Forall2 same_but_ui ledger (update_last (finalize ui_after changed) ledger)
  /\ forall i, (S i < length ledger)%nat ->
       update_last (finalize ui_after changed) ledger !! i = ledger !! i.
Proof.
  destruct (update_last_cases (finalize ui_after changed) ledger)
    as [[-> ->]|(l' & a & -> & ->)].
  - split; [constructor|]. simpl. lia.
  - split.
    + apply Forall2_app.
      * apply Forall_Forall2_diag, Forall_forall. intros ? _. apply same_but_ui_refl.
      * constructor; [apply same_but_ui_finalize|constructor].
    + intros i Hi. rewrite length_app in Hi. simpl in Hi.
      rewrite !lookup_app_l by lia. done.
Qed.

Lemma iteration_prefix (task : str) (s s' : state W) r :
  iteration self task s = (r, s') -> completed_steps s `prefix_of` completed_steps s'.
Proof.
  intros Hit. destruct (iteration_cases self task s s' r Hit)
    as (_ & ui & events & _ & [(Hl & _)|(plan & _ & Hcase)]).
  - by rewrite Hl.
  - cbv zeta in Hcase.
    destruct Hcase as [(e & _ & -> & _)|(ua & ch & _ & -> & _)]; by eexists.
Qed.

Lemma loop_prefix (task : str) (fuel : nat) :
  forall (s s' : state W) r,
    loop self fuel task s = (r, s') -> completed_steps s `prefix_of` completed_steps s'.
Proof.
  induction fuel as [|fuel IH]; intros s s' r Hloop.
  - injection Hloop as _ <-. done.
  - cbn [loop] in Hloop. unfold mbind, SE_bind, SE.bind, SE.get in Hloop.
    destruct (step_count s <? max_steps self).
    + destruct (check_stop self s) as [[stop|e] s0] eqn:Hstop.
      2:{ injection Hloop as _ <-.
          destruct (check_stop_spec self _ _ _ Hstop) as (-> & _). done. }
      destruct (check_stop_spec self _ _ _ Hstop) as (Hl0 & _).
      rewrite <- Hl0.
      destruct stop.
      { rewrite failed_result_spec in Hloop. by injection Hloop as _ <-. }
      destruct (iteration self task s0) as [[c|e] s1] eqn:Hit.
      2:{ injection Hloop as _ <-. by eapply iteration_prefix. }
      pose proof (iteration_prefix _ _ _ _ Hit) as Hp.
      destruct c.
      * etrans; [exact Hp|]. by eapply IH.
      * by injection Hloop as _ <-.
      * by injection Hloop as _ <-.
    + rewrite failed_result_spec in Hloop. by injection Hloop as _ <-.
Qed.

(** C8, as amended.  Records are appended to the ledger in the order of
    execution, one per executed step, and none is ever removed or moved: the
    ledger before an iteration, and before any stretch of the loop, is a
    prefix of the ledger after it, so a record of an earlier iteration is
    never changed.  The one change made to a record after its append is at
    the end of the iteration that appended it: the last record receives its
    [ui_after] and [ui_changed]; every other field and every other record
    stays as it was. *)
Theorem ledger_append_only :
  (forall batch ui_context ui_before first all_steps (s s' : state W) r,
     run_steps self batch ui_context ui_before first all_steps s = (r, s') ->
     exists events,
       trace s' = trace s ++ events
       /\ completed_steps s'
          = completed_steps s ++ records_of ui_before first (executed_of events))
  /\ (forall task ui_before (s s' : state W) r,
        finish_batch self task ui_before s = (r, s') ->
        Forall2 same_but_ui (completed_steps s) (completed_steps s')
        /\ forall i, (S i < length (completed_steps s))%nat ->
             completed_steps s' !! i = completed_steps s !! i)
  /\ (forall task (s s' : state W) r,
        iteration self task s = (r, s') ->
        completed_steps s `prefix_of` completed_steps s')
  /\ (forall task fuel (s s' : state W) r,
        loop self fuel task s = (r, s') ->
        completed_steps s `prefix_of` completed_steps s').
Proof.
  split; [|split; [|split]].
  - intros batch ui_context ui_before first all_steps s s' r Hrun.
    destruct (run_steps_spec self _ _ _ _ _ _ _ _ Hrun) as (events & Ht & Hl & _).
    by exists events.
  - intros task ui_before s s' r Hfin.
    destruct (finish_batch_spec self task ui_before s) as (ui_after & w & Hspec).
    cbv zeta in Hspec. rewrite Hspec in Hfin.
    assert (completed_steps s'
            = update_last
                (finalize (UIContext.get_all_elements ui_after)
                   (ui_differs ui_before (UIContext.get_all_elements ui_after)))
                (completed_steps s)) as ->.
    { by destruct (3 <=? _)%nat; injection Hfin as _ <-. }
    apply update_last_finalize.
  - intros task s s' r. apply iteration_prefix.
  - intros task fuel s s' r. apply loop_prefix.
Qed.

End Ledger.

Section LedgerSamples.
Import Orchestrator LoopNotions Notions LoopSamples.

(** C8, as stated, fails.  In the first iteration of [tapping] the record
    of the tap is appended with [ui_changed = False] and an empty
    [ui_after]; when the iteration ends the same record says
    [ui_changed = True] and lists the new screen: the ledger as it was when
    the record was appended is not a prefix of the ledger afterwards. *)
Lemma ledger_append_only_counterexample :
  let steps :=
    steps_to_execute (single_of (ExecNotions.tap_at 10 20)) tapping_screen [] in
  let ui_before := UIContext.get_all_elements tapping_screen in
  let executing := run_steps tapping false tapping_screen ui_before true steps in
  let appended := completed_steps (snd (executing tapping_planned)) in
  let finished :=
    completed_steps (snd ((executing;; finish_batch tapping sample_task ui_before)
                            tapping_planned)) in
  snd (iteration tapping sample_task (initial 0%nat))
  = snd ((executing;; finish_batch tapping sample_task ui_before) tapping_planned)
  /\ map CompletedStep.ui_changed appended = [false]
  /\ map CompletedStep.ui_changed finished = [true]
  /\ ~ appended `prefix_of` finished.
Proof.
  cbv zeta.
  split; [vm_compute; reflexivity|].
  split; [vm_compute; reflexivity|].
  split; [vm_compute; reflexivity|].
  intros [k Hk]. apply (f_equal (map CompletedStep.ui_changed)) in Hk.
  rewrite map_app in Hk. vm_compute in Hk. discriminate.
Qed.

(** The first iterations of [tapping]: the ledger only grows. *)
Lemma ledger_append_only_witness :
  completed_steps (initial 0%nat)
    `prefix_of` completed_steps (snd (loop tapping 3 sample_task (initial 0%nat))).
Proof.
  destruct (ledger_append_only tapping) as (_ & _ & _ & H).
  apply (H sample_task 3%nat (initial 0%nat) _
           (fst (loop tapping 3 sample_task (initial 0%nat)))).
  by destruct (loop tapping 3 sample_task (initial 0%nat)).
Defined.

End LedgerSamples.

Section Failures.
Import Orchestrator LoopNotions Notions LoopSamples.

Lemma count_leading_app (p : CompletedStep.t -> bool) (a : CompletedStep.t)
    (l : list CompletedStep.t) :
  count_leading p (a :: l) = if p a then S (count_leading p l) else 0%nat.
Proof. reflexivity. Qed.

(** A ledger that ends with a success has no failure at its end. *)
Lemma no_failures_after_success (ledger : list CompletedStep.t) (a : CompletedStep.t) :
  CompletedStep.success a = true -> _count_consecutive_failures (ledger ++ [a]) = 0%nat.
Proof.
  intros Ha. unfold _count_consecutive_failures. rewrite rev_app_distr. simpl.
  by rewrite Ha.
Qed.

Lemma ends_with_failures_count (ledger : list CompletedStep.t) (a b c : CompletedStep.t) :
  ends_with_failures ledger a b c -> (3 <= _count_consecutive_failures ledger)%nat.
Proof.
  intros ((earlier & ->) & Ha & Hb & Hc). unfold _count_consecutive_failures.
  rewrite rev_app_distr. simpl. rewrite Ha, Hb, Hc. simpl. lia.
Qed.

(** The reasons reported for a ledger that ends with three failures are
    those of these three steps, in the order of execution. *)
Lemma failure_reasons_last_three (ledger : list CompletedStep.t) (a b c : CompletedStep.t) :
  ends_with_failures ledger a b c ->
  _get_failure_reasons ledger 3
  = failure_reason a ++ py "; " ++ failure_reason b ++ py "; " ++ failure_reason c.
Proof.
  intros ((earlier & ->) & Ha & Hb & Hc). unfold _get_failure_reasons.
  rewrite rev_app_distr. cbn [rev app collect_failures].
  rewrite Ha, Hb, Hc. cbn [negb andb length app Nat.ltb Nat.leb].
  reflexivity.
Qed.

Lemma records_of_success ui_before first executed :
  Forall (fun p => StepResult.success (snd p) = true) executed ->
  Forall (fun step => CompletedStep.success step = true)
    (records_of ui_before first executed).
Proof.
  intros H. revert first. induction H as [|[ns sr] l Hp _ IH]; intros first.
  - constructor.
  - simpl. constructor; [done|apply IH].
Qed.

(** Appending successes leaves fewer than three failures at the end. *)
Lemma few_failures_app_success (ledger recs : list CompletedStep.t) :
  few_failures ledger ->
  Forall (fun step => CompletedStep.success step = true) recs ->
  few_failures (ledger ++ recs).
Proof.
  intros Hfew Hall. destruct recs as [|a recs] using rev_ind.
  - by rewrite app_nil_r.
  - rewrite Forall_app, Forall_singleton in Hall. destruct Hall as [_ Ha].
    unfold few_failures. rewrite app_assoc.
    rewrite no_failures_after_success by done. lia.
Qed.

Context {W : Type}.
Variable self : Orchestrator.t W.

Lemma iteration_few_failures (task : str) (s s' : state W) r :
  few_failures (completed_steps s) ->
  iteration self task s = (r, s') ->
  match r with
  | Ok (Return t) => in_order task t
  | _ => few_failures (completed_steps s')
  end.
Proof.
  intros Hfew Hit. destruct (iteration_cases self task s s' r Hit)
    as (_ & ui & events & _ & [(Hl & _ & Hnr)|(plan & _ & Hcase)]).
  - rewrite Hl. destruct r as [[| |t]|e]; try done. by destruct (Hnr t).
  - cbv zeta in Hcase.
    destruct Hcase as [(e & -> & -> & Hsucc)|(ua & ch & _ & Hl & _ & Hend)].
    + apply few_failures_app_success; [done|]. by apply records_of_success.
    + destruct Hend as [[-> Hf]|[-> _]].
      * by rewrite Hl.
      * right. reflexivity.
Qed.

Lemma loop_in_order (task : str) (fuel : nat) :
  forall (s s' : state W) r,
    few_failures (completed_steps s) ->
    loop self fuel task s = (r, s') ->
    match r with
    | Ok (Some t) => in_order task t
    | Ok None => True
    | Raise _ => few_failures (completed_steps s')
    end.
Proof.
  induction fuel as [|fuel IH]; intros s s' r Hfew Hloop.
  - by injection Hloop as <- _.
  - cbn [loop] in Hloop. unfold mbind, SE_bind, SE.bind, SE.get in Hloop.
    destruct (step_count s <? max_steps self).
    + destruct (check_stop self s) as [[stop|e] s0] eqn:Hstop.
      2:{ injection Hloop as <- <-.
          destruct (check_stop_spec self _ _ _ Hstop) as (-> & _). done. }
      destruct (check_stop_spec self _ _ _ Hstop) as (Hl0 & _).
      rewrite <- Hl0 in Hfew.
      destruct stop.
      { rewrite failed_result_spec in Hloop. injection Hloop as <- _. by left. }
      destruct (iteration self task s0) as [[c|e] s1] eqn:Hit.
      2:{ injection Hloop as <- <-. exact (iteration_few_failures _ _ _ _ Hfew Hit). }
      pose proof (iteration_few_failures _ _ _ _ Hfew Hit) as Hi.
      destruct c.
      * by eapply IH.
      * injection Hloop as <- _. by left.
      * by injection Hloop as <- _.
    + rewrite failed_result_spec in Hloop. injection Hloop as <- _. by left.
Qed.

(** C4.  In every run whose ledger ends with three failed steps in a row,
    the task ends as failed, and its error message carries the reasons of
    these three failures, in the order in which the steps were executed. *)
Theorem three_failures_reported (task : str) (w : W) (t : TaskResult.t) (s' : state W)
    (a b c : CompletedStep.t) :
  execute_task self task w = (Some t, s') ->
  ends_with_failures (TaskResult.completed_steps t) a b c ->
  TaskResult.success t = false
  /\ TaskResult.state t = FAILED
  /\ exists n : Z,
       TaskResult.error t
       = Some (py "连续" ++ str_of_int n ++ py "次操作失败，任务终止。失败原因: "
               ++ failure_reason a ++ py "; " ++ failure_reason b ++ py "; "
               ++ failure_reason c).
Proof.
  intros Hrun Hends. unfold execute_task, SE.try_except in Hrun.
  assert (few_failures (completed_steps (initial w))) as Hinit
    by (unfold few_failures, initial, _count_consecutive_failures; cbn; lia).
  assert (in_order task t) as [Hfew|Ht].
  { destruct (loop self _ task (initial w)) as [[[t0|]|e] s0] eqn:Hloop.
    - injection Hrun as <- _.
      exact (loop_in_order task _ _ _ _ Hinit Hloop).
    - discriminate.
    - pose proof (loop_in_order task _ _ _ _ Hinit Hloop) as Hf.
      unfold mbind, SE_bind, SE.bind in Hrun. rewrite failed_result_spec in Hrun.
      injection Hrun as <- _. by left. }
  - apply ends_with_failures_count in Hends. unfold few_failures in Hfew. lia.
  - rewrite Ht. cbn [failed_with TaskResult.success TaskResult.state TaskResult.error].
    split; [done|]. split; [done|].
    exists (Z.of_nat (_count_consecutive_failures (TaskResult.completed_steps t))).
    unfold failure_message. by rewrite (failure_reasons_last_three _ _ _ _ Hends).
Qed.

End Failures.

Section StuckScroll.
Import Orchestrator LoopNotions Notions LoopSamples.
Context {W : Type}.
Variable self : Orchestrator.t W.


(** The loop always answers: each iteration uses up one unit of the
    budget, so the fuel [execute_task] gives the loop never runs out. *)
Lemma loop_answers (task : str) (fuel : nat) :
  forall (s s' : state W),
    (0 < fuel)%nat ->
    max_steps self - step_count s < Z.of_nat fuel ->
    loop self fuel task s <> (Ok None, s').
Proof.
  induction fuel as [|fuel IH]; intros s s' Hpos Hfuel Hloop.
  - lia.
  - cbn [loop] in Hloop. unfold mbind, SE_bind, SE.bind, SE.get in Hloop.
    destruct (step_count s <? max_steps self) eqn:Hlt.
    + apply Z.ltb_lt in Hlt.
      destruct (check_stop self s) as [[stop|e] s0] eqn:Hstop; [|discriminate].
      destruct (check_stop_spec self _ _ _ Hstop) as (_ & Hc0 & _).
      destruct stop; [rewrite failed_result_spec in Hloop; discriminate|].
      destruct (iteration self task s0) as [[c|e] s1] eqn:Hit; [|discriminate].
      destruct (iteration_cases self task s0 s1 _ Hit) as (Hc1 & _).
      destruct c; try discriminate.
      apply (IH s1 s'); [lia|lia|done].
    + rewrite failed_result_spec in Hloop. discriminate.
Qed.

Lemma execute_task_answers (task : str) (w : W) :
  exists t, fst (execute_task self task w) = Some t.
Proof.
  unfold execute_task, SE.try_except.
  destruct (loop self _ task (initial w)) as [[[t|]|e] s] eqn:Hloop.
  - by exists t.
  - exfalso. revert Hloop. apply loop_answers; [lia|].
    unfold initial. cbn [step_count]. lia.
  - unfold mbind, SE_bind, SE.bind. rewrite failed_result_spec. eauto.
Qed.

End StuckScroll.

Section MoreWitnesses.
Import Orchestrator LoopNotions Notions LoopSamples.


(** The reason of a failed step names its action and, when it has one,
    its target. *)
Lemma failure_reason_cases (step : CompletedStep.t) :
  failure_reason step
  = py "[" ++ CompletedStep.action step
    ++ match CompletedStep.target step with
       | Some (c :: target) => py ":" ++ c :: target
       | _ => []
       end
    ++ py "] "
    ++ match CompletedStep.error step with
       | Some (c :: error) => c :: error
       | _ => py "未知错误"
       end.
Proof.
  unfold failure_reason, opt_or, or_else.
  destruct (CompletedStep.target step) as [[|c target]|],
    (CompletedStep.error step) as [[|d error]|]; cbn [truthy];
    rewrite <- ?app_assoc; reflexivity.
Qed.

(** Every tap of [login_missing] fails: after three the task ends and
    reports the three reasons, each with the action, the target and the
    error. *)
Lemma three_failures_reported_witness :
  exists n : Z,
    TaskResult.error
      (default (failed_with [] [] []) (fst (execute_task login_missing sample_task 0%nat)))
    = Some (py "连续" ++ str_of_int n ++ py "次操作失败，任务终止。失败原因: "
            ++ py "[tap:Login] Could not find target: Login" ++ py "; "
            ++ py "[tap:Login] Could not find target: Login" ++ py "; "
            ++ py "[tap:Login] Could not find target: Login").
Proof.
  destruct (execute_task login_missing sample_task 0%nat) as [[t|] s'] eqn:Hrun.
  - pose proof Hrun as Hval. vm_compute in Hval. injection Hval as Ht _.
    destruct (three_failures_reported login_missing sample_task 0%nat t s'
                (record_of [] true tap_login
                   (StepResult.mk false (py "tap") (Some (py "Login"))
                      (py "tap the login button")
                      (Some (py "Could not find target: Login"))))
                (record_of [] true tap_login
                   (StepResult.mk false (py "tap") (Some (py "Login"))
                      (py "tap the login button")
                      (Some (py "Could not find target: Login"))))
                (record_of [] true tap_login
                   (StepResult.mk false (py "tap") (Some (py "Login"))
                      (py "tap the login button")
                      (Some (py "Could not find target: Login"))))
                Hrun) as (_ & _ & n & Hn).
    + rewrite <- Ht. split; [by exists []|]. by repeat split.
    + exists n. etransitivity; [exact Hn|]. vm_compute. reflexivity.
  - vm_compute in Hrun. discriminate.
Defined.

End MoreWitnesses.


Import Py.
Local Open Scope Z_scope.

(** ** More on the element index *)

Section IndexMore.
Import UIElement UIContext Index IndexNotions.

Lemma one_to_lookup (n i : nat) (z : Z) :
  one_to n !! i = Some z -> z = Z.of_nat i + 1.
Proof.
  unfold one_to. change (map Z.of_nat (seq 1 n)) with (Z.of_nat <$> seq 1 n).
  rewrite list_lookup_fmap. destruct (seq 1 n !! i) as [k|] eqn:Hk; [|done].
  apply lookup_seq in Hk as [-> _]. intros [= <-]. lia.
Qed.

(** The index of the entry at position [i] is [i + 1]. *)
Lemma index_of_position (self : UIContext.t) (co : bool) (i : nat) (en : entry) :
  _build_indexed_elements self co !! i = Some en -> index_of en = Z.of_nat i + 1.
Proof.
  intros Hen. destruct (build_inv_all co (elements self)) as [_ Hind _ _ _].
  fold (_build_indexed_elements self co) in Hind.
  apply (one_to_lookup (length (_build_indexed_elements self co)) i).
  rewrite <- Hind. change (map index_of ?l) with (index_of <$> l).
  by rewrite list_lookup_fmap, Hen.
Qed.

(** X1.  The index and the lookup agree: looking up the index of an entry
    of the full index gives the element of that entry, which is an element
    of the snapshot. *)
Theorem lookup_of_entry (self : UIContext.t) (en : entry) :
  en ∈ get_indexed_all_elements self ->
  get_element_by_index self (VInt (index_of en)) = Ok (Some (element_of en))
  /\ element_of en ∈ elements self.
Proof.
  intros Hin. apply list_elem_of_lookup_1 in Hin as [i Hi].
  pose proof (index_of_position self false i en Hi) as Hidx.
  pose proof (lookup_lt_Some _ _ _ Hi) as Hlt.
  split.
  - destruct (lookup_in_range self (VInt (index_of en)) (index_of en) eq_refl)
      as (en' & Hen' & ->).
    + unfold get_indexed_all_elements in *. lia.
    + unfold get_indexed_all_elements in *.
      replace (Z.to_nat (index_of en - 1)) with i in Hen' by lia.
      congruence.
  - destruct (build_inv_all false (elements self)) as [_ _ Hel _ _].
    fold (_build_indexed_elements self false) in Hel.
    assert (element_of en ∈ map element_of (_build_indexed_elements self false)) as H.
    { apply list_elem_of_In, in_map, list_elem_of_In. eapply list_elem_of_lookup_2; eauto. }
    rewrite Hel in H. unfold elements in *.
    by apply list_elem_of_filter in H as [_ H].
Qed.

(** The clickable index and the full index keep the same elements, up to
    the test on clickability. *)
Lemma included_clickable (e : UIElement.t) :
  included true e = included false e && actionable e.
Proof. reflexivity. Qed.

(** X2.  The clickable index lists exactly those elements of the full
    index that are clickable or input fields, in the same order; so it is
    never longer than the full index, which is never longer than the
    snapshot. *)
Theorem clickable_index_within_all (self : UIContext.t) :
  map element_of (get_indexed_clickable_elements self)
  = filter (fun e => actionable e = true) (map element_of (get_indexed_all_elements self))
  /\ (length (get_indexed_clickable_elements self)
      <= length (get_indexed_all_elements self) <= length (elements self))%nat.
Proof.
  unfold get_indexed_clickable_elements, get_indexed_all_elements.
  destruct (build_inv_all true (elements self)) as [_ _ Hc _ _].
  destruct (build_inv_all false (elements self)) as [_ _ Ha _ _].
  fold (_build_indexed_elements self true) in Hc.
  fold (_build_indexed_elements self false) in Ha.
  assert (map element_of (_build_indexed_elements self true)
          = filter (fun e => actionable e = true)
              (map element_of (_build_indexed_elements self false))) as Heq.
  { rewrite Hc, Ha, list_filter_filter. apply list_filter_iff. intros e.
    rewrite included_clickable, andb_true_iff. tauto. }
  split; [done|]. split.
  - rewrite <- (length_map element_of (_build_indexed_elements self true)), Heq.
    rewrite <- (length_map element_of (_build_indexed_elements self false)).
    apply length_filter.
  - rewrite <- (length_map element_of (_build_indexed_elements self false)), Ha.
    apply length_filter.
Qed.

(** The label of an element has at most thirty characters. *)
Lemma label_of_length (e : UIElement.t) : (length (label_of e) <= 30)%nat.
Proof.
  unfold label_of.
  set (name := or_else (strip (get_str (text e))) (strip (get_str (content_desc e)))).
  destruct (truthy name && (30 <? length name)%nat) eqn:Hlong.
  - apply andb_prop in Hlong as [_ Hlong]. apply Nat.ltb_lt in Hlong.
    unfold slice_to, slice_last. rewrite !length_app, length_take, length_drop.
    change (length (py "...")) with 3%nat. lia.
  - apply andb_false_iff in Hlong as [Hlong|Hlong].
    + destruct name; [simpl; lia|discriminate].
    + apply Nat.ltb_ge in Hlong. lia.
Qed.

Lemma label_of_labelled (e : UIElement.t) : truthy (label_of e) = labelled e.
Proof.
  unfold label_of, labelled, or_else.
  set (text := strip (get_str (UIElement.text e))).
  set (desc := strip (get_str (content_desc e))).
  assert (forall name : str,
            truthy (if truthy name && (30 <? length name)%nat
                    then slice_to 15 name ++ py "..." ++ slice_last 10 name
                    else name) = truthy name) as H.
  { intros [|c name]; [done|]. cbn [truthy andb].
    by destruct (30 <? length (c :: name))%nat. }
  rewrite H. destruct (truthy text) eqn:Ht; cbn [orb]; [done|].
  by destruct (truthy desc).
Qed.

(** X3.  Names taken from an element's text or label are kept short: for
    every entry of an index whose element has a text or a label, the
    display name is a name of at most thirty characters, followed by the
    position [@(x,y)] when the name was seen before. *)
Theorem labelled_names_short (self : UIContext.t) (clickable_only : bool) (en : entry) :
  en ∈ _build_indexed_elements self clickable_only ->
  labelled (element_of en) = true ->
  (length (base_of en) <= 30)%nat
  /\ (display_of en = base_of en
      \/ display_of en = with_position (base_of en) (center_of en)).
Proof.
  intros Hin Hlab. split.
  - unfold base_of, name_of. rewrite label_of_labelled, Hlab. simpl.
    apply label_of_length.
  - apply list_elem_of_lookup_1 in Hin as [i Hi].
    destruct (build_inv_all clickable_only (elements self)) as [_ _ _ _ Hd].
    fold (_build_indexed_elements self clickable_only) in Hd.
    rewrite (Hd i en Hi). unfold disambiguated. destruct (bool_decide _); eauto.
Qed.

End IndexMore.

Section IndexWitnesses.
Import UIElement UIContext Index IndexNotions.

Lemma lookup_of_entry_witness :
  get_element_by_index (snapshot [button "OK" (10, 20); text_field (5, 5)]) (VInt 2)
  = Ok (Some (text_field (5, 5))).
Proof.
  apply (lookup_of_entry (snapshot [button "OK" (10, 20); text_field (5, 5)])
           (2, py "[输入框2]", text_field (5, 5))).
  apply list_elem_of_lookup_2 with 1%nat. vm_compute. reflexivity.
Defined.

(** A button whose text has forty characters: its name is shortened. *)
Lemma labelled_names_short_witness :
  let long := button "0123456789012345678901234567890123456789" (10, 20) in
  let en : entry := (1, py "012345678901234...0123456789", long) in
  (length (base_of en) <= 30)%nat
  /\ (display_of en = base_of en
      \/ display_of en = with_position (base_of en) (center_of en)).
Proof.
  intros long en.
  apply (labelled_names_short (snapshot [long]) true en).
  - apply list_elem_of_lookup_2 with 0%nat. vm_compute. reflexivity.
  - reflexivity.
Defined.

End IndexWitnesses.

(** ** More on the orchestrator's helpers *)

Section Helpers.
Import Orchestrator LedgerNotions.

(** The loop of [_get_failure_reasons], with [failures] already collected:
    it adds the reasons of the next failed steps until there are [count]. *)
Lemma collect_failures_take (count : nat) (steps : list CompletedStep.t) :
  forall failures : list str,
    (length failures <= count)%nat ->
    collect_failures count steps failures
    = failures ++ take (count - length failures)
                    (map failure_reason (filter (fun s => failed s = true) steps)).
Proof.
  induction steps as [|step steps IH]; intros failures Hlen.
  - cbn [collect_failures]. rewrite filter_nil. cbn [map]. by rewrite take_nil, app_nil_r.
  - cbn [collect_failures]. rewrite filter_cons.
    destruct (decide (failed step = true)) as [Hf|Hf].
    + unfold failed in Hf. apply negb_true_iff in Hf. rewrite Hf. cbn [negb andb map].
      destruct (length failures <? count)%nat eqn:Hlt.
      * apply Nat.ltb_lt in Hlt.
        destruct (count <=? length (failures ++ [failure_reason step]))%nat eqn:Hc.
        -- apply Nat.leb_le in Hc. rewrite length_app in Hc. cbn [length] in Hc.
           replace (count - length failures)%nat with 1%nat by lia.
           cbn [take]. by rewrite take_0.
        -- apply Nat.leb_gt in Hc. rewrite length_app in Hc. cbn [length] in Hc.
           rewrite IH by (rewrite length_app; cbn [length]; lia).
           rewrite length_app. cbn [length]. rewrite <- app_assoc. cbn [app]. f_equal.
           replace (count - length failures)%nat
             with (S (count - (length failures + 1)))%nat by lia.
           reflexivity.
      * apply Nat.ltb_ge in Hlt.
        replace (count <=? length failures)%nat with true
          by (symmetry; apply Nat.leb_le; lia).
        replace (count - length failures)%nat with 0%nat by lia.
        by rewrite take_0, app_nil_r.
    + apply not_true_is_false in Hf. unfold failed in Hf. apply negb_false_iff in Hf.
      rewrite Hf. cbn [negb andb].
      destruct (count <=? length failures)%nat eqn:Hc.
      * apply Nat.leb_le in Hc. replace (count - length failures)%nat with 0%nat by lia.
        by rewrite take_0, app_nil_r.
      * by apply IH.
Qed.

Lemma rev_reverse {A} (l : list A) : rev l = reverse l.
Proof. induction l as [|a l IH]; [done|]. rewrite reverse_cons. simpl. by rewrite IH. Qed.

(** X4.  [_get_failure_reasons] reports the last [count] failed steps of
    the ledger, whether or not they are consecutive, in the order of
    execution, joined by a semicolon; fewer when the ledger has fewer
    failures, none for an empty ledger or a count of zero. *)
Theorem failure_reasons_are_last_failures (completed_steps : list CompletedStep.t)
    (count : nat) :
  _get_failure_reasons completed_steps count
  = join (py "; ")
      (map failure_reason
         (last_n count (filter (fun s => failed s = true) completed_steps))).
Proof.
  unfold _get_failure_reasons, last_n. f_equal.
  rewrite collect_failures_take by (cbn [length]; lia).
  cbn [app length]. rewrite Nat.sub_0_r.
  rewrite (rev_reverse completed_steps), filter_reverse, <- rev_reverse.
  rewrite map_rev, firstn_rev, rev_involutive.
  rewrite length_map. apply skipn_map.
Qed.

(** Two failed taps on "Login": the reasons name the action, the whole
    target and the error. *)
Lemma failure_reasons_of_two_taps :
  _get_failure_reasons [LoopSamples.failed_login; LoopSamples.failed_login] 3
  = py "[tap:Login] Could not find target: Login; [tap:Login] Could not find target: Login".
Proof. vm_compute. reflexivity. Qed.

(** X5.  [_get_opposite_direction] is an involution on every value: the
    opposite of the opposite is the direction itself.  Its fixed points
    are exactly the values other than up, down, left and right, which it
    returns as they are. *)
Theorem opposite_direction_involutive (direction : value) :
  _get_opposite_direction (_get_opposite_direction direction) = direction
  /\ (_get_opposite_direction direction = direction <-> ~ known_direction direction).
Proof.
  destruct direction as [|b|z|d]; try (split; [done|]; split; [|done];
    intros _ [H|[H|[H|H]]]; discriminate H).
  unfold _get_opposite_direction at 2 3.
  destruct (eqb d (py "up")) eqn:H1;
    [apply eqb_true in H1; subst d; split; [done|]; split;
       [discriminate|intros H; exfalso; apply H; unfold known_direction; tauto]|].
  destruct (eqb d (py "down")) eqn:H2;
    [apply eqb_true in H2; subst d; split; [done|]; split;
       [discriminate|intros H; exfalso; apply H; unfold known_direction; tauto]|].
  destruct (eqb d (py "left")) eqn:H3;
    [apply eqb_true in H3; subst d; split; [done|]; split;
       [discriminate|intros H; exfalso; apply H; unfold known_direction; tauto]|].
  destruct (eqb d (py "right")) eqn:H4;
    [apply eqb_true in H4; subst d; split; [done|]; split;
       [discriminate|intros H; exfalso; apply H; unfold known_direction; tauto]|].
  split.
  - unfold _get_opposite_direction. by rewrite H1, H2, H3, H4.
  - split; [|done]. intros _ [H|[H|[H|H]]]; injection H as ->;
      rewrite eqb_refl in *; discriminate.
Qed.

(** [_check_scroll_stuck] answers with a direction only for a ledger that
    ends with two scrolls without effect in the same direction. *)
Lemma check_scroll_stuck_inv (completed_steps : list CompletedStep.t) :
  value_truthy (_check_scroll_stuck completed_steps) = true ->
  exists earlier a b,
    completed_steps = earlier ++ [a; b]
    /\ no_effect_scroll a = true /\ no_effect_scroll b = true
    /\ value_eqb (direction_of b) (direction_of a) = true
    /\ _check_scroll_stuck completed_steps = _get_opposite_direction (direction_of b).
Proof.
  unfold _check_scroll_stuck.
  destruct (length completed_steps <? 2)%nat eqn:Hlen; [discriminate|].
  apply Nat.ltb_ge in Hlen.
  assert (exists earlier a b, completed_steps = earlier ++ [a; b]) as (earlier & a & b & ->).
  { exists (take (length completed_steps - 2) completed_steps).
    destruct (drop (length completed_steps - 2) completed_steps) as [|a [|b [|c r]]] eqn:Hd;
      pose proof (f_equal length Hd) as Hl; rewrite length_drop in Hl; cbn [length] in Hl;
      try lia.
    exists a, b. by rewrite <- Hd, take_drop. }
  rewrite last_two_app. rewrite !filter_cons, filter_nil.
  fold (no_effect_scroll a). fold (no_effect_scroll b).
  destruct (decide (no_effect_scroll a = true)) as [Ha|Ha];
    destruct (decide (no_effect_scroll b = true)) as [Hb|Hb]; cbn [map]; try discriminate.
  fold (direction_of a). fold (direction_of b).
  destruct (value_eqb (direction_of b) (direction_of a)) eqn:Heq; [|discriminate].
  intros _. exists earlier, a, b. repeat split; done.
Qed.

(** X6.  The correction of scrolls changes a step only if it is a scroll
    and the ledger ends with two scrolls that succeeded without changing the
    UI, both in the same direction; the step then gets the opposite of
    that direction, and nothing else of it changes. *)
Theorem scroll_corrected_only_when_stuck (completed_steps : list CompletedStep.t)
    (next_step : NextStep.t) :
  correct_scroll completed_steps next_step <> next_step ->
  NextStep.action next_step = py "scroll"
  /\ exists earlier a b,
       completed_steps = earlier ++ [a; b]
       /\ no_effect_scroll a = true /\ no_effect_scroll b = true
       /\ value_eqb (direction_of b) (direction_of a) = true
       /\ correct_scroll completed_steps next_step
          = NextStep.set_parameter next_step "direction"
              (_get_opposite_direction (direction_of b)).
Proof.
  unfold correct_scroll.
  destruct (eqb (NextStep.action next_step) (py "scroll")) eqn:Hact; [|done].
  apply eqb_true in Hact.
  destruct (value_truthy (_check_scroll_stuck completed_steps)) eqn:Hstuck; [|done].
  destruct (check_scroll_stuck_inv _ Hstuck) as (earlier & a & b & Hl & Ha & Hb & Heq & Hv).
  destruct (negb _) eqn:Hdiff; [|done].
  intros _. split; [done|]. exists earlier, a, b. by rewrite Hv.
Qed.

(** X7.  [_extract_digits_from_clicks] takes at most one character per
    step, and only characters of [0123456789.]; it takes exactly one per
    step when every description has such a character. *)
Theorem extracted_digits_bounded (steps : list NextStep.t) :
  (length (_extract_digits_from_clicks steps) <= length steps)%nat
  /\ Forall (fun c => keypad_char c = true) (_extract_digits_from_clicks steps)
  /\ (Forall (fun step => existsb keypad_char (NextStep.description step) = true) steps ->
      length (_extract_digits_from_clicks steps) = length steps).
Proof.
  induction steps as [|step steps (IH1 & IH2 & IH3)].
  - repeat split; [done|constructor].
  - rewrite extract_digits_cons. unfold first_keypad_char.
    destruct (find keypad_char (NextStep.description step)) as [c|] eqn:Hc.
    + apply find_some in Hc as [_ Hc]. split; [cbn [length]; lia|]. split.
      * by constructor.
      * intros HF. apply Forall_cons in HF as [_ HF]. cbn [length]. by rewrite IH3.
    + split; [cbn [length]; lia|]. split; [done|].
      intros HF. apply Forall_cons in HF as [Hex _].
      apply existsb_exists in Hex as (c & Hin & Hk).
      by rewrite (find_none _ _ Hc c Hin) in Hk.
Qed.

Lemma forallb_Forall_weaken {A} (p q : A -> bool) (l : list A) :
  (forall a, p a = true -> q a = true) -> forallb p l = true ->
  Forall (fun a => q a = true) l.
Proof.
  intros Hpq H. apply Forall_forall. intros a Ha.
  apply Hpq. rewrite forallb_forall in H. apply H. by apply list_elem_of_In.
Qed.

(** X8.  What the loop goes on to execute is either the steps of the
    plan, in their order, each left as it is save for the direction of a
    scroll; or one [input] step that carries the characters extracted from
    the plan's steps, which then are all taps or clicks and yield at least
    one character.  No step is dropped or added otherwise. *)
Theorem executed_steps_planned_or_input (plan_result : PlanningResult.t)
    (ui_context : UIContext.t) (completed_steps : list CompletedStep.t) :
  let planned := PlanningResult.get_all_steps plan_result in
  steps_to_execute plan_result ui_context completed_steps
  = map (correct_scroll completed_steps) planned
  \/ (steps_to_execute plan_result ui_context completed_steps
      = [input_step (_extract_digits_from_clicks planned)]
      /\ _extract_digits_from_clicks planned <> []
      /\ Forall (fun step => is_click_or_tap (NextStep.action step) = true) planned).
Proof.
  intros planned. unfold steps_to_execute. fold planned.
  assert (forall text : str, truthy text = true -> text <> []) as Hne
    by (intros [|c text]; done).
  unfold convert_batch.
  destruct (PlanningResult.has_batch_steps plan_result
            && _should_convert_clicks_to_input planned ui_context
            && truthy (_extract_digits_from_clicks planned)) eqn:Hfirst.
  - apply andb_prop in Hfirst as [Hfirst Hdigits].
    apply andb_prop in Hfirst as [Hbatch Hconv].
    rewrite Hbatch, Hconv, Hdigits. right. split; [apply input_step_kept|].
    split; [by apply Hne|].
    unfold _should_convert_clicks_to_input in Hconv.
    destruct (forallb _ planned) eqn:Hall; [|discriminate].
    eapply forallb_Forall_weaken; [|exact Hall].
    intros step Hstep. by apply andb_prop in Hstep as [Hstep _].
  - assert ((if PlanningResult.has_batch_steps plan_result
             then if _should_convert_clicks_to_input planned ui_context
                  then if truthy (_extract_digits_from_clicks planned)
                       then [input_step (_extract_digits_from_clicks planned)]
                       else planned
                  else planned
             else planned) = planned) as ->.
    { destruct (PlanningResult.has_batch_steps plan_result); [|done].
      destruct (_should_convert_clicks_to_input planned ui_context); [|done].
      by destruct (truthy (_extract_digits_from_clicks planned)). }
    unfold convert_after_input.
    destruct ((0 <? length completed_steps)%nat && _last_step_clicked_input completed_steps);
      [|by left].
    destruct (_is_digit_clicks planned) eqn:Hdig; [|by left].
    destruct (truthy (_extract_digits_from_clicks planned)) eqn:Hdigits; [|by left].
    right. split; [reflexivity|]. split; [by apply Hne|].
    unfold _is_digit_clicks in Hdig. destruct planned as [|p0 ps] eqn:Hp; [discriminate|].
    eapply forallb_Forall_weaken; [|exact Hdig].
    intros step Hstep. cbv beta in Hstep.
    by destruct (is_click_or_tap (NextStep.action step)).
Qed.

End Helpers.

Section HelperWitnesses.
Import Orchestrator LedgerNotions Notions.

(** Two scrolls down without effect, and a third one proposed. *)
Lemma scroll_corrected_only_when_stuck_witness :
  let ledger := [idle_scroll "down"; idle_scroll "down"] in
  NextStep.action (scroll_to "down") = py "scroll"
  /\ exists earlier a b,
       ledger = earlier ++ [a; b]
       /\ no_effect_scroll a = true /\ no_effect_scroll b = true
       /\ value_eqb (direction_of b) (direction_of a) = true
       /\ correct_scroll ledger (scroll_to "down")
          = NextStep.set_parameter (scroll_to "down") "direction"
              (_get_opposite_direction (direction_of b)).
Proof.
  intros ledger. apply (scroll_corrected_only_when_stuck ledger (scroll_to "down")).
  intros H. apply (f_equal (fun s => NextStep.parameters s !! "direction")) in H.
  vm_compute in H. discriminate H.
Defined.

End HelperWitnesses.


Import Py.
Local Open Scope Z_scope.

(** ** More on the action executor *)

Section Costs.
Import Executor ExecMore.
Context {W : Type}.
Variable self : Executor.t W.
Variable mu : effect -> nat.

Lemma weight_app (a b : list effect) : weight mu (a ++ b) = (weight mu a + weight mu b)%nat.
Proof. unfold weight. induction a as [|e a IH]; [done|]. cbn in *. lia. Qed.

Lemma cost_le_weaken {A} (n k : nat) (m : SE.M (state W) A) :
  (n <= k)%nat -> cost_le mu n m -> cost_le mu k m.
Proof.
  intros Hnk Hm s. destruct (Hm s) as (effects & Hl & Hh & Hc).
  exists effects. split; [done|split; [done|lia]].
Qed.

Lemma cost_le_ret {A} (a : A) : cost_le mu 0 (mret a : SE.M (state W) A).
Proof. intros s. exists []. by rewrite app_nil_r. Qed.

Lemma cost_le_lift {A} (r : may_raise A) : cost_le mu 0 (SE.lift r : SE.M (state W) A).
Proof. intros s. exists []. by rewrite app_nil_r. Qed.

Lemma cost_le_raise {A} (e : exn) : cost_le mu 0 (SE.raise e : SE.M (state W) A).
Proof. intros s. exists []. by rewrite app_nil_r. Qed.

Lemma cost_le_get : cost_le mu 0 (SE.get : SE.M (state W) (state W)).
Proof. intros s. exists []. by rewrite app_nil_r. Qed.

Lemma cost_le_sleep (ms : Z) : cost_le mu (mu (Sleep ms)) (sleep ms : SE.M (state W) unit).
Proof.
  intros s. exists [Sleep ms]. split; [done|split; [done|]].
  unfold weight. cbn. unfold id. lia.
Qed.

Lemma cost_le_device (c : effect) : cost_le mu (mu c) (device self c).
Proof.
  intros s. unfold device. destruct (device_controller self) as [dev|].
  - destruct (dev c (world s)) as [[e|] w]; cbn [snd log recovery_history];
      (exists [c]; split; [done|split; [done|]]; unfold weight;
       cbn; unfold id; lia).
  - exists []. rewrite app_nil_r. split; [done|split; [done|]]. unfold weight. cbn. lia.
Qed.

Lemma cost_le_bind {A B} (n k N : nat) (m : SE.M (state W) A) (f : A -> SE.M (state W) B) :
  cost_le mu n m -> (forall a, cost_le mu k (f a)) -> (n + k <= N)%nat ->
  cost_le mu N (m ≫= f).
Proof.
  intros Hm Hf HN s. unfold mbind, SE_bind, SE.bind.
  destruct (Hm s) as (e1 & Hl1 & Hh1 & Hc1).
  destruct (m s) as [[a|e] s1]; cbn [snd] in *.
  - destruct (Hf a s1) as (e2 & Hl2 & Hh2 & Hc2).
    exists (e1 ++ e2). rewrite Hl2, Hl1, Hh2, Hh1, app_assoc, weight_app.
    split; [done|split; [done|lia]].
  - exists e1. split; [done|split; [done|lia]].
Qed.

Lemma cost_le_try {A} (n k N : nat) (m : SE.M (state W) A) (h : exn -> SE.M (state W) A) :
  cost_le mu n m -> (forall e, cost_le mu k (h e)) -> (n + k <= N)%nat ->
  cost_le mu N (SE.try_except m h).
Proof.
  intros Hm Hh HN s. unfold SE.try_except.
  destruct (Hm s) as (e1 & Hl1 & Hh1 & Hc1).
  destruct (m s) as [[a|e] s1]; cbn [snd] in *.
  - exists e1. split; [done|split; [done|lia]].
  - destruct (Hh e s1) as (e2 & Hl2 & Hh2 & Hc2).
    exists (e1 ++ e2). rewrite Hl2, Hl1, Hh2, Hh1, app_assoc, weight_app.
    split; [done|split; [done|lia]].
Qed.

(** The oracle that looks an element up has no effect on the device. *)
Lemma cost_le_find_element (tg : str) (elements : list UIElement.t) :
  cost_le mu 0 (fun s : state W =>
                  let '(e, w) := find_element self tg elements (world s) in
                  (Ok e, mk_state w (log s) (recovery_history s))).
Proof.
  intros s. destruct (find_element self tg elements (world s)) as [e w].
  exists []. by rewrite app_nil_r.
Qed.

End Costs.

Section Calls.
Import Executor ExecMore.
Context {W : Type}.
Variable self : Executor.t W.

Lemma calls_sleep (ms : Z) : cost_le call_weight 0 (sleep ms : SE.M (state W) unit).
Proof. apply (cost_le_sleep call_weight ms). Qed.

Lemma calls_device (c : effect) : cost_le call_weight 1 (device self c).
Proof.
  apply (cost_le_weaken call_weight (call_weight c) 1); [|apply cost_le_device].
  unfold call_weight. destruct (is_call c); lia.
Qed.

End Calls.

Create HintDb calls.
#[local] Hint Resolve cost_le_ret cost_le_lift cost_le_raise cost_le_get calls_sleep
  calls_device : calls.

(** Goes through a computation that ends with at most one device call. *)
Ltac calls_step :=
  match goal with
  | |- ExecMore.cost_le _ ?N (Executor.device _ _ ≫= _) =>
    apply (cost_le_bind _ 1 0 N); [apply calls_device|intros ?|lia]
  | |- ExecMore.cost_le _ ?N (_ ≫= _) =>
    apply (cost_le_bind _ 0 N N); [solve [auto with calls]|intros ?|lia]
  | |- ExecMore.cost_le _ _ (if ?b then _ else _) => destruct b
  | |- ExecMore.cost_le _ _ (match ?x with _ => _ end) => destruct x
  | |- ExecMore.cost_le _ 0 _ => solve [auto with calls]
  | |- ExecMore.cost_le _ ?N _ =>
    solve [apply (cost_le_weaken _ 0 N); [lia|auto with calls]
          |apply (cost_le_weaken _ 1 N); [lia|auto with calls]]
  end.

Section CallBounds.
Import Executor ExecMore.
Context {W : Type}.
Variable int_of_str : str -> may_raise Z.
Variable int_mul : Z -> Q -> Z.
Variable self : Executor.t W.

Lemma calls_execute_tap target parameters context :
  cost_le call_weight 1 (_execute_tap int_of_str self target parameters context).
Proof.
  unfold _execute_tap.
  apply (cost_le_bind _ 0 1 1); [| |lia].
  - destruct (_ && _); [repeat calls_step|].
    destruct target as [tg|]; [|auto with calls].
    destruct (AgentContext.ui_elements context); [auto with calls|].
    destruct (truthy tg); [|auto with calls].
    apply (cost_le_bind _ 0 0 0); [apply cost_le_find_element| |lia].
    intros [e|]; [|auto with calls].
    destruct (UIElement.center e); [|auto with calls]. repeat calls_step.
  - intros [p|]; repeat calls_step.
Qed.

Lemma calls_execute_swipe parameters context :
  cost_le call_weight 1 (_execute_swipe int_mul self parameters context).
Proof.
  unfold _execute_swipe. cbv zeta.
  repeat (destruct (value_eqb _ _); [repeat calls_step|]).
  calls_step.
Qed.

Lemma calls_execute_input parameters target :
  cost_le call_weight 1 (_execute_input self parameters target).
Proof. unfold _execute_input. cbv zeta. repeat calls_step. Qed.

Lemma calls_execute_wait parameters :
  cost_le call_weight 1 (_execute_wait parameters : SE.M (state W) outcome).
Proof. unfold _execute_wait. repeat calls_step. Qed.

Lemma calls_execute_press_key parameters :
  cost_le call_weight 1 (_execute_press_key self parameters).
Proof. unfold _execute_press_key. repeat calls_step. Qed.

Lemma calls_execute_action action target parameters context :
  cost_le call_weight 1 (_execute_action int_of_str int_mul self action target parameters context).
Proof.
  unfold _execute_action.
  destruct (_ || _); [apply calls_execute_tap|].
  destruct (is_action _ _); [apply calls_execute_swipe|].
  destruct (is_action _ _); [apply calls_execute_input|].
  destruct (is_action _ _); [apply calls_execute_wait|].
  destruct (is_action _ _); [apply calls_execute_swipe|].
  destruct (is_action _ _); [unfold _execute_back; repeat calls_step|].
  destruct (is_action _ _); [unfold _execute_home; repeat calls_step|].
  destruct (is_action _ _); [apply calls_execute_press_key|].
  calls_step.
Qed.

Lemma calls_recovery_strategy strategy element_index context original_target :
  cost_le call_weight 1 (_execute_recovery_strategy int_mul self strategy element_index context
                original_target).
Proof.
  unfold _execute_recovery_strategy. cbv zeta.
  apply (cost_le_try _ 1 0 1); [|intros ?; auto with calls|lia].
  do 6 (match goal with
        | |- context [is_strategy ?a ?b] => destruct (is_strategy a b); [repeat calls_step|]
        end).
  destruct (_ && _).
  { destruct (AgentContext.ui_elements context) as [|el els]; [calls_step|].
    destruct (as_int_instance element_index) as [i|]; [|calls_step].
    destruct (_ <? _); [|calls_step].
    apply (cost_le_bind _ 0 1 1); [auto with calls| |lia]. intros elem.
    destruct (UIElement.center elem); [|calls_step].
    repeat calls_step. }
  repeat calls_step.
Qed.

End CallBounds.

Section Recovery.
Import Executor ExecMore.
Context {W : Type}.
Variable int_of_str : str -> may_raise Z.
Variable int_mul : Z -> Q -> Z.
Variable self : Executor.t W.

Lemma weight_any_nil (effects : list effect) :
  (weight any_weight effects <= 0)%nat -> effects = [].
Proof. destruct effects as [|e effects]; [done|]. unfold weight. cbn. lia. Qed.

(** The search for the point of a tap has no effect on the device. *)
Lemma tap_point_silent (target : option str) (parameters : params)
    (context : AgentContext.t) :
  cost_le any_weight 0
    (if dict_has parameters "x" && dict_has parameters "y" then
       px ← SE.lift (int_of_value int_of_str (dict_get parameters "x" VNone));
       py_ ← SE.lift (int_of_value int_of_str (dict_get parameters "y" VNone));
       p ← SE.lift (Point.new px py_);
       mret (Some p)
     else
       match target, AgentContext.ui_elements context with
       | Some tg, _ :: _ =>
         if truthy tg then
           element ← (fun s : state W =>
                        let '(e, w) := find_element self tg (AgentContext.ui_elements context) (world s) in
                        (Ok e, mk_state w (log s) (recovery_history s)));
           match element with
           | Some e =>
             match UIElement.center e with
             | Some c => p ← SE.lift (Point.new (fst c) (snd c)); mret (Some p)
             | None => mret None
             end
           | None => mret None
           end
         else mret None
       | _, _ => mret None
       end).
Proof.
  destruct (_ && _).
  - repeat (apply (cost_le_bind _ 0 0 0); [apply cost_le_lift|intros ?|lia]).
    apply cost_le_ret.
  - destruct target as [tg|]; [|apply cost_le_ret].
    destruct (AgentContext.ui_elements context) as [|el els] eqn:Hels; [apply cost_le_ret|].
    destruct (truthy tg); [|apply cost_le_ret].
    apply (cost_le_bind _ 0 0 0); [apply cost_le_find_element| |lia].
    intros [e|]; [|apply cost_le_ret].
    destruct (UIElement.center e); [|apply cost_le_ret].
    apply (cost_le_bind _ 0 0 0); [apply cost_le_lift|intros ?|lia]. apply cost_le_ret.
Qed.

(** An action that asks for recovery has made no device call. *)
Lemma needs_recovery_quiet action target parameters context (s s' : state W) o :
  _execute_action int_of_str int_mul self action target parameters context s = (Ok o, s') ->
  needs_recovery o = true ->
  log s' = log s /\ recovery_history s' = recovery_history s.
Proof.
  unfold _execute_action.
  assert (forall (m : SE.M (state W) unit) s0,
            (m;; mret (mk_outcome true None false)) s0 = (Ok o, s') ->
            needs_recovery o = true -> False) as Hfalse.
  { intros m s0. unfold mbind, SE_bind, SE.bind. destruct (m s0) as [[[]|e] s1]; [|done].
    by intros [= <- _]. }
  destruct (_ || _).
  { unfold _execute_tap. unfold mbind at 1, SE_bind at 1, SE.bind at 1.
    match goal with |- context [match ?pc s with _ => _ end] =>
      pose proof (tap_point_silent target parameters context s) as Hsilent;
      destruct Hsilent as (effects & Hl & Hh & Hw) end.
    apply weight_any_nil in Hw. subst effects. rewrite app_nil_r in Hl.
    match goal with |- context [match ?pc s with _ => _ end] =>
      destruct (pc s) as [[[p|]|e] s1] end;
      cbn [snd] in Hl, Hh.
    - intros H Hn. exfalso. by eapply Hfalse.
    - by intros [= <- <-] _.
    - done. }
  assert (forall parameters' s0,
            _execute_swipe int_mul self parameters' context s0 = (Ok o, s') ->
            needs_recovery o = true -> False) as Hswipe.
  { intros parameters' s0. unfold _execute_swipe. cbv zeta.
    repeat (destruct (value_eqb _ _);
            [unfold mbind at 1, SE_bind at 1, SE.bind at 1, SE.lift at 1;
             destruct (Point.new _ _); [|done];
             unfold mbind at 1, SE_bind at 1, SE.bind at 1, SE.lift at 1;
             destruct (Point.new _ _); [|done]; apply Hfalse|]).
    by intros [= <- _]. }
  destruct (is_action _ _); [intros H Hn; exfalso; by eapply Hswipe|].
  destruct (is_action _ _).
  { unfold _execute_input. cbv zeta. destruct (negb _).
    - by intros [= <- <-] _.
    - intros H Hn. exfalso. by eapply Hfalse. }
  destruct (is_action _ _).
  { unfold _execute_wait. destruct (dict_get _ _ _); try done;
      intros H Hn; exfalso; by eapply Hfalse. }
  destruct (is_action _ _); [intros H Hn; exfalso; by eapply Hswipe|].
  destruct (is_action _ _); [intros H Hn; exfalso; by eapply Hfalse|].
  destruct (is_action _ _); [intros H Hn; exfalso; by eapply Hfalse|].
  destruct (is_action _ _).
  { unfold _execute_press_key. destruct (dict_get _ _ _); try done.
    intros H Hn; exfalso; by eapply Hfalse. }
  by intros [= <- _].
Qed.

Lemma never_raises_try {A} (m : SE.M (state W) A) (h : exn -> SE.M (state W) A) :
  (forall e, never_raises (h e)) -> never_raises (SE.try_except m h).
Proof.
  intros Hh s. unfold SE.try_except. destruct (m s) as [[a|e] s1]; [by exists a|].
  apply Hh.
Qed.

Lemma never_raises_ret {A} (a : A) : never_raises (mret a : SE.M (state W) A).
Proof. intros s. by exists a. Qed.

(** A recovery strategy never raises: a failure is a result that did not
    recover. *)
Lemma recovery_strategy_total strategy element_index context original_target :
  never_raises (_execute_recovery_strategy int_mul self strategy element_index context
                  original_target).
Proof.
  unfold _execute_recovery_strategy. cbv zeta.
  apply never_raises_try. intros e. apply never_raises_ret.
Qed.

Lemma rule_based_total failed_action failed_target context attempt_count :
  0 <= attempt_count ->
  never_raises (_rule_based_recovery int_mul self failed_action failed_target context
                  attempt_count).
Proof.
  intros Hpos. unfold _rule_based_recovery. cbv zeta.
  destruct (attempt_count <? _) eqn:Hlt; [|apply never_raises_ret].
  apply Z.ltb_lt in Hlt. cbn [length] in Hlt.
  assert (attempt_count = 0 \/ attempt_count = 1 \/ attempt_count = 2) as Hcases by lia.
  destruct Hcases as [H|[H|H]]; subst attempt_count;
    intros s; unfold mbind, SE_bind, SE.bind, SE.lift; cbn [py_index];
    apply recovery_strategy_total.
Qed.

Lemma calls_rule_based failed_action failed_target context attempt_count :
  cost_le call_weight 1
    (_rule_based_recovery int_mul self failed_action failed_target context attempt_count).
Proof.
  unfold _rule_based_recovery. cbv zeta.
  destruct (_ <? _); [|calls_step].
  apply (cost_le_bind _ 0 1 1); [auto with calls| |lia].
  intros ?. apply calls_recovery_strategy.
Qed.

(** The recovery decided by the language model: at most one device call,
    and no exception. *)
Lemma llm_decide_spec llm failed_action failed_target context step attempt_count :
  0 <= attempt_count ->
  never_raises (_llm_decide_recovery int_mul self llm failed_action failed_target context
                  step attempt_count)
  /\ cost_le call_weight 1
       (_llm_decide_recovery int_mul self llm failed_action failed_target context step
          attempt_count).
Proof.
  intros Hpos. split.
  - apply never_raises_try. intros e. by apply rule_based_total.
  - intros s. unfold _llm_decide_recovery, SE.try_except, mbind, SE_bind, SE.bind.
    destruct (decide_recovery llm failed_action failed_target context step attempt_count
                (world s)) as [[d|e] w].
    + pose proof (recovery_strategy_total (fst d) (snd d) context failed_target
                    (mk_state w (log s) (recovery_history s))) as [r Hr].
      pose proof (calls_recovery_strategy int_mul self (fst d) (snd d) context failed_target
                    (mk_state w (log s) (recovery_history s))) as Hc.
      destruct (_execute_recovery_strategy _ _ _ _ _ _ _) as [[r'|e'] s1]; [|done].
      exact Hc.
    + apply (calls_rule_based failed_action failed_target context attempt_count
               (mk_state w (log s) (recovery_history s))).
Qed.

(** What a call of [_autonomous_recovery] does: it never raises; once the
    attempts recorded for the target have reached the maximum it does
    nothing; below it, it makes at most two device calls and records one
    more attempt for the target. *)
Lemma autonomous_recovery_spec failed_action failed_target context step (s : state W) :
  exists r s' effects,
    _autonomous_recovery int_mul self failed_action failed_target context step s = (Ok r, s')
    /\ log s' = log s ++ effects
    /\ (calls effects <= 2)%nat
    /\ (if max_recovery_attempts self <=? attempts_for failed_target s
        then s' = s /\ recovered r = false
        else recovery_history s' = recovery_history s ++ [failed_target]).
Proof.
  unfold _autonomous_recovery. unfold mbind at 1, SE_bind at 1, SE.bind at 1, SE.get at 1.
  fold (attempts_for failed_target s).
  destruct (max_recovery_attempts self <=? attempts_for failed_target s) eqn:Hmax.
  { exists (mk_recovery false None (Some (py "Max recovery attempts reached"))), s, [].
    rewrite app_nil_r. split; [done|split; [done|split; [unfold calls, weight; cbn; lia|done]]]. }
  assert (0 <= attempts_for failed_target s) as Hpos by (unfold attempts_for; lia).
  assert (forall s1 : state W, exists r s' effects,
            (result ← _rule_based_recovery int_mul self failed_action failed_target context
                        (attempts_for failed_target s);
             record_attempt failed_target;; mret result) s1 = (Ok r, s')
            /\ log s' = log s1 ++ effects /\ (calls effects <= 1)%nat
            /\ recovery_history s' = recovery_history s1 ++ [failed_target]) as Hrule.
  { intros s1. unfold mbind, SE_bind, SE.bind, record_attempt, SE.modify, mret, SE_ret, SE.ret.
    destruct (rule_based_total failed_action failed_target context _ Hpos s1) as [r Hr].
    destruct (calls_rule_based failed_action failed_target context
                (attempts_for failed_target s) s1) as (effects & Hl & Hh & Hc).
    destruct (_rule_based_recovery _ _ _ _ _ _ s1) as [[r'|e'] s2]; [|done].
    cbn [snd] in Hl, Hh. exists r', (mk_state (world s2) (log s2) (recovery_history s2 ++ [failed_target])), effects.
    cbn [log recovery_history]. by rewrite Hh. }
  destruct (llm_provider self) as [llm|].
  - unfold mbind at 1, SE_bind at 1, SE.bind at 1.
    destruct (llm_decide_spec llm failed_action failed_target context step _ Hpos)
      as [Htot Hcalls].
    destruct (Htot s) as [r Hr]. destruct (Hcalls s) as (effects & Hl & Hh & Hc).
    destruct (_llm_decide_recovery _ _ _ _ _ _ _ _ s) as [[r'|e'] s1]; [|done].
    cbn [snd] in Hl, Hh. destruct (recovered r').
    + unfold mbind, SE_bind, SE.bind, record_attempt, SE.modify, mret, SE_ret, SE.ret.
      exists r', (mk_state (world s1) (log s1) (recovery_history s1 ++ [failed_target])), effects.
      cbn [log recovery_history]. rewrite Hh.
      split; [done|split; [done|split; [unfold calls; lia|done]]].
    + destruct (Hrule s1) as (r2 & s2 & effects2 & Hrun & Hl2 & Hc2 & Hh2).
      exists r2, s2, (effects ++ effects2). rewrite Hrun, Hl2, Hl, Hh2, Hh, app_assoc.
      unfold calls in *. rewrite weight_app.
      split; [done|split; [done|split; [lia|done]]].
  - destruct (Hrule s) as (r2 & s2 & effects2 & Hrun & Hl2 & Hc2 & Hh2).
    exists r2, s2, effects2. rewrite Hrun.
    split; [done|split; [done|split; [lia|done]]].
Qed.

End Recovery.

Section ExecuteMore.
Import Executor ExecMore.
Context {W : Type}.
Variable int_of_str : str -> may_raise Z.
Variable int_mul : Z -> Q -> Z.
Variable self : Executor.t W.

(** What a call of [execute] does, whatever the device, the element
    search and the language model answer. *)
Lemma execute_spec (context : AgentContext.t) (s : state W) :
  exists r s' effects,
    execute int_of_str int_mul self context s = (Ok r, s')
    /\ log s' = log s ++ effects
    /\ (calls effects <= 2)%nat
    /\ (AgentResult.success r = true <-> AgentResult.error r = None).
Proof.
  assert (calls [] <= 2)%nat as Hnil by (unfold calls, weight; cbn; lia).
  unfold execute. destruct (device_controller self) as [dev|] eqn:Hdev.
  2:{ eexists _, s, []. rewrite app_nil_r. by repeat split. }
  destruct (AgentContext.steps context) as [|st sts] eqn:Hsteps.
  { eexists _, s, []. rewrite app_nil_r. by repeat split. }
  destruct (_ !! _) as [step|].
  2:{ eexists _, s, []. rewrite app_nil_r. by repeat split. }
  unfold SE.try_except. unfold mbind at 1, SE_bind at 1, SE.bind at 1.
  destruct (calls_execute_action int_of_str int_mul self (NextStep.action step)
              (NextStep.target step) (NextStep.parameters step) context s)
    as (effects & Hl & Hh & Hc).
  destruct (_execute_action _ _ _ _ _ _ _ s) as [[o|e] s1] eqn:Hact; cbn [snd] in Hl, Hh.
  - destruct (negb (success o) && needs_recovery o) eqn:Hrec.
    + apply andb_prop in Hrec as [_ Hrec].
      destruct (needs_recovery_quiet _ _ _ _ _ _ _ _ _ _ Hact Hrec) as [Hq _].
      destruct (autonomous_recovery_spec int_mul self (NextStep.action step)
                  (NextStep.target step) context step s1)
        as (r & s2 & effects2 & Hrun & Hl2 & Hc2 & _).
      unfold mbind, SE_bind, SE.bind. rewrite Hrun.
      destruct (recovered r); eexists _, s2, effects2; rewrite Hl2, Hq; by repeat split.
    + unfold mbind, SE_bind, SE.bind, sleep, SE.modify, mret, SE_ret, SE.ret.
      eexists _, _, (effects ++ [Sleep 300]). cbn [log]. rewrite Hl, app_assoc.
      split; [done|split; [done|split; [|by repeat split]]].
      unfold calls in *. rewrite weight_app. unfold weight at 2. cbn. lia.
  - eexists _, s1, effects. unfold calls. split; [done|split; [done|split; [lia|]]].
    by repeat split.
Qed.

(** X9.  [execute] never raises: whatever goes wrong inside (a device call
    that raises, a malformed parameter, a negative coordinate) comes back
    as a failure result; and a result carries an error exactly when it is
    not a success. *)
Theorem execute_never_raises (context : AgentContext.t) (s : state W) :
  exists r,
    fst (execute int_of_str int_mul self context s) = Ok r
    /\ (AgentResult.success r = true <-> AgentResult.error r = None).
Proof.
  destruct (execute_spec context s) as (r & s' & effects & Hrun & _ & _ & Hr).
  exists r. by rewrite Hrun.
Qed.

(** X10.  [_autonomous_recovery] never raises and keeps count: once the
    attempts recorded for the failed target have reached
    [max_recovery_attempts] it does nothing at all and reports no recovery;
    below the maximum it records exactly one more attempt for that target,
    whether the strategy it tried worked or not. *)
Theorem recovery_attempts_counted (failed_action : str) (failed_target : option str)
    (context : AgentContext.t) (step : NextStep.t) (s : state W) :
  let run := _autonomous_recovery int_mul self failed_action failed_target context step s in
  exists r,
    fst run = Ok r
    /\ (max_recovery_attempts self <= attempts_for failed_target s ->
        snd run = s /\ recovered r = false)
    /\ (attempts_for failed_target s < max_recovery_attempts self ->
        recovery_history (snd run) = recovery_history s ++ [failed_target]
        /\ attempts_for failed_target (snd run) = attempts_for failed_target s + 1).
Proof.
  intros run. subst run.
  destruct (autonomous_recovery_spec int_mul self failed_action failed_target context step s)
    as (r & s' & effects & Hrun & _ & _ & Hcase).
  rewrite Hrun. exists r. cbn [fst snd]. split; [done|].
  destruct (max_recovery_attempts self <=? attempts_for failed_target s) eqn:Hmax.
  - apply Z.leb_le in Hmax. split; [done|]. intros. lia.
  - apply Z.leb_gt in Hmax. split; [intros; lia|]. intros _. split; [done|].
    unfold attempts_for. rewrite Hcase, filter_app, length_app, filter_cons, filter_nil.
    rewrite decide_True by done. cbn [length]. lia.
Qed.

(** X11.  One call of [execute] makes at most two calls of the device
    controller: the action itself, or up to two recovery actions when the
    action could not be attempted. *)
Theorem execute_at_most_two_calls (context : AgentContext.t) (s : state W) :
  exists effects,
    log (snd (execute int_of_str int_mul self context s)) = log s ++ effects
    /\ (calls effects <= 2)%nat.
Proof.
  destruct (execute_spec context s) as (r & s' & effects & Hrun & Hl & Hc & _).
  exists effects. by rewrite Hrun.
Qed.

End ExecuteMore.

Section Keys.
Import Executor.

(** X12.  The table of [_execute_press_key] is idempotent: the key it
    sends for a name (RECENTS, DELETE, BACKSPACE, VOLUMEUP, ...) is a name
    it sends unchanged; a name outside the table is sent as it is. *)
Theorem map_key_idempotent (key : str) : map_key (map_key key) = map_key key.
Proof.
  unfold map_key at 2 3.
  destruct (find (fun kv => eqb (py (fst kv)) key) key_map) as [kv|] eqn:Hfind.
  - apply find_some in Hfind as [Hin _]. unfold key_map in Hin.
    repeat (destruct Hin as [<-|Hin]; [vm_compute; reflexivity|]).
    destruct Hin.
  - unfold map_key. by rewrite Hfind.
Qed.

End Keys.


Import Py.
Local Open Scope Z_scope.

(** ** More on the execution loop *)

Section Emits.
Import Orchestrator TraceNotions.
Context {W : Type}.
Variable self : Orchestrator.t W.
Variable mu : event -> nat.

Lemma trace_weight_app (a b : list event) :
  trace_weight mu (a ++ b) = (trace_weight mu a + trace_weight mu b)%nat.
Proof. unfold trace_weight. induction a as [|e a IH]; [done|]. cbn in *. lia. Qed.

Lemma emits_le_weaken {A} (n k : nat) (m : SE.M (state W) A) :
  (n <= k)%nat -> emits_le mu n m -> emits_le mu k m.
Proof.
  intros Hnk Hm s. destruct (Hm s) as (events & Hl & Hc). exists events. split; [done|lia].
Qed.

(** A computation that leaves the trace alone. *)
Lemma emits_le_same {A} (m : SE.M (state W) A) :
  (forall s, trace (snd (m s)) = trace s) -> emits_le mu 0 m.
Proof. intros H s. exists []. rewrite app_nil_r. split; [apply H|done]. Qed.

Lemma emits_le_ret {A} (a : A) : emits_le mu 0 (mret a : SE.M (state W) A).
Proof. by apply emits_le_same. Qed.

Lemma emits_le_lift {A} (r : may_raise A) : emits_le mu 0 (SE.lift r : SE.M (state W) A).
Proof. by apply emits_le_same. Qed.

Lemma emits_le_get : emits_le mu 0 (SE.get : SE.M (state W) (state W)).
Proof. by apply emits_le_same. Qed.

Lemma emits_le_call {A} (f : W -> may_raise A * W) : emits_le mu 0 (call f).
Proof. apply emits_le_same. intros s. unfold call. by destruct (f (world s)). Qed.

Lemma emits_le_modify (f : state W -> state W) :
  (forall s, trace (f s) = trace s) -> emits_le mu 0 (SE.modify f).
Proof. intros H. apply emits_le_same. intros s. apply H. Qed.

Lemma emits_le_emit (ev : event) : emits_le mu (mu ev) (emit ev : SE.M (state W) unit).
Proof.
  intros s. exists [ev]. split; [done|]. unfold trace_weight. cbn. unfold id. lia.
Qed.

Lemma emits_le_bind {A B} (n k N : nat) (m : SE.M (state W) A) (f : A -> SE.M (state W) B) :
  emits_le mu n m -> (forall a, emits_le mu k (f a)) -> (n + k <= N)%nat ->
  emits_le mu N (m ≫= f).
Proof.
  intros Hm Hf HN s. unfold mbind, SE_bind, SE.bind.
  destruct (Hm s) as (e1 & Hl1 & Hc1).
  destruct (m s) as [[a|e] s1]; cbn [snd] in *.
  - destruct (Hf a s1) as (e2 & Hl2 & Hc2).
    exists (e1 ++ e2). rewrite Hl2, Hl1, app_assoc, trace_weight_app. split; [done|lia].
  - exists e1. split; [done|lia].
Qed.

Lemma emits_le_try {A} (n k N : nat) (m : SE.M (state W) A) (h : exn -> SE.M (state W) A) :
  emits_le mu n m -> (forall e, emits_le mu k (h e)) -> (n + k <= N)%nat ->
  emits_le mu N (SE.try_except m h).
Proof.
  intros Hm Hh HN s. unfold SE.try_except.
  destruct (Hm s) as (e1 & Hl1 & Hc1).
  destruct (m s) as [[a|e] s1]; cbn [snd] in *.
  - exists e1. split; [done|lia].
  - destruct (Hh e s1) as (e2 & Hl2 & Hc2).
    exists (e1 ++ e2). rewrite Hl2, Hl1, app_assoc, trace_weight_app. split; [done|lia].
Qed.

(** The weights that count the consultations of the outside: nothing for
    a sleep, a progress notice or an execution; at most [c] for a capture
    of the UI, [p] for a plan, [q] for a stop check. *)
Variables c p q : nat.
Hypothesis mu_slept : forall ms, mu (Slept ms) = 0%nat.
Hypothesis mu_progress : forall a b x y z, mu (Progress a b x y z) = 0%nat.
Hypothesis mu_executed : forall a b, mu (Executed a b) = 0%nat.
Hypothesis mu_captured : forall ui, (mu (Captured ui) <= c)%nat.
Hypothesis mu_planned : forall plan, (mu (Planned plan) <= p)%nat.
Hypothesis mu_stop : forall b, (mu (StopChecked b) <= q)%nat.

Lemma emits_sleep (ms : Z) : emits_le mu 0 (sleep ms : SE.M (state W) unit).
Proof. unfold sleep. rewrite <- (mu_slept ms). apply emits_le_emit. Qed.

Lemma emits_get_ui_context : emits_le mu c (_get_ui_context self).
Proof.
  intros s. destruct (get_ui_context_spec self s) as (ui & w & ->).
  exists [Captured ui]. split; [done|]. unfold trace_weight. cbn. unfold id.
  pose proof (mu_captured ui). lia.
Qed.

Lemma emits_execute_step (step : NextStep.t) (ui : UIContext.t) :
  emits_le mu 0 (_execute_step self step ui).
Proof.
  intros s. destruct (execute_step_spec self step ui s) as (sr & w & ->).
  exists [Executed step sr]. split; [done|]. unfold trace_weight. cbn. unfold id.
  rewrite mu_executed. lia.
Qed.

Lemma emits_notify_progress (step : NextStep.t) : emits_le mu 0 (notify_progress self step).
Proof.
  unfold notify_progress. destruct (on_progress self) as [f|]; [|apply emits_le_ret].
  apply (emits_le_bind 0 0 0); [apply emits_le_get| |lia]. intros s0.
  apply (emits_le_bind 0 0 0); [|intros ?; apply emits_le_call|lia].
  rewrite <- (mu_progress (Z.of_nat (length (completed_steps s0)))
                (Z.of_nat (length (completed_steps s0)) + 1) (NextStep.action step)
                (NextStep.description step) (opt_or (NextStep.target step) [])).
  apply emits_le_emit.
Qed.

Lemma emits_run_steps (all_steps : list NextStep.t) :
  forall batch ui ui_before first,
    emits_le mu 0 (run_steps self batch ui ui_before first all_steps).
Proof.
  induction all_steps as [|step steps IH]; intros batch ui ui_before first.
  - apply emits_le_ret.
  - cbn [run_steps].
    apply (emits_le_bind 0 0 0); [apply emits_le_lift|intros step'|lia].
    apply (emits_le_bind 0 0 0); [apply emits_notify_progress|intros ?|lia].
    apply (emits_le_bind 0 0 0); [apply emits_execute_step|intros sr|lia].
    apply (emits_le_bind 0 0 0); [apply emits_sleep|intros ?|lia].
    apply (emits_le_bind 0 0 0); [by apply emits_le_modify|intros ?|lia].
    destruct (_ && _); [apply emits_le_ret|apply IH].
Qed.

Lemma emits_failed_result (task error : str) :
  emits_le mu 0 (failed_result task error : SE.M (state W) TaskResult.t).
Proof. by apply emits_le_same. Qed.

Lemma emits_finish_batch (task : str) (ui_before : list str) :
  emits_le mu c (finish_batch self task ui_before).
Proof.
  unfold finish_batch.
  apply (emits_le_bind 0 c c); [apply emits_sleep|intros ?|lia].
  apply (emits_le_bind c 0 c); [apply emits_get_ui_context|intros ui|lia].
  cbv zeta.
  apply (emits_le_bind 0 0 0); [by apply emits_le_modify|intros ?|lia].
  apply (emits_le_bind 0 0 0); [apply emits_le_get|intros s0|lia].
  destruct (_ <=? _)%nat; [|apply emits_le_ret].
  apply (emits_le_bind 0 0 0); [apply emits_failed_result|intros ?|lia].
  apply emits_le_ret.
Qed.

Lemma emits_iteration (task : str) : emits_le mu (c + p + c) (iteration self task).
Proof.
  unfold iteration.
  apply (emits_le_bind 0 (c + p + c) _); [by apply emits_le_modify|intros ?|lia].
  apply (emits_le_bind c (p + c) _); [apply emits_get_ui_context|intros ui|lia].
  apply (emits_le_bind 0 (p + c) _); [apply emits_le_get|intros s0|lia].
  apply (emits_le_bind 0 (p + c) _); [apply emits_le_call|intros plan|lia].
  apply (emits_le_bind p c _);
    [apply (emits_le_weaken (mu (Planned plan))); [apply mu_planned|apply emits_le_emit]
    |intros ?|lia].
  destruct (PlanningResult.task_complete plan).
  { apply (emits_le_bind 0 0 _); [by apply emits_le_modify|intros ?|lia].
    apply emits_le_ret. }
  destruct (PlanningResult.get_all_steps plan).
  { destruct (Qeq_bool _ _).
    - apply (emits_le_bind 0 0 _); [apply emits_sleep|intros ?|lia]. apply emits_le_ret.
    - apply (emits_le_weaken 0); [lia|apply emits_le_ret]. }
  apply (emits_le_bind 0 c _); [apply emits_run_steps|intros ?|lia].
  apply emits_finish_batch.
Qed.

Lemma emits_check_stop : emits_le mu q (check_stop self).
Proof.
  unfold check_stop. destruct (stop_check self) as [f|];
    [|apply (emits_le_weaken 0); [lia|apply emits_le_ret]].
  apply (emits_le_bind 0 q _); [apply emits_le_call|intros b|lia].
  apply (emits_le_bind q 0 _);
    [apply (emits_le_weaken (mu (StopChecked b))); [apply mu_stop|apply emits_le_emit]
    |intros ?; apply emits_le_ret|lia].
Qed.

(** The loop: each round costs at most a stop check, two captures and a
    plan, and there are at most [max_steps - step_count] rounds. *)
Lemma emits_loop (task : str) (fuel : nat) :
  forall s : state W, exists events,
    trace (snd (loop self fuel task s)) = trace s ++ events
    /\ (trace_weight mu events
        <= Z.to_nat (max_steps self - step_count s) * (q + (c + p + c)))%nat.
Proof.
  induction fuel as [|fuel IH]; intros s.
  - exists []. rewrite app_nil_r. split; [done|]. apply Nat.le_0_l.
  - cbn [loop]. unfold mbind at 1, SE_bind at 1, SE.bind at 1, SE.get at 1.
    destruct (step_count s <? max_steps self) eqn:Hlt.
    2:{ exists []. rewrite app_nil_r. split; [done|]. apply Nat.le_0_l. }
    apply Z.ltb_lt in Hlt.
    assert (Z.to_nat (max_steps self - step_count s)
            = S (Z.to_nat (max_steps self - (step_count s + 1)))) as -> by lia.
    rewrite Nat.mul_succ_l.
    set (X := (Z.to_nat (max_steps self - (step_count s + 1)) * (q + (c + p + c)))%nat).
    unfold mbind at 1, SE_bind at 1, SE.bind at 1.
    destruct (emits_check_stop s) as (e1 & Hl1 & Hc1).
    destruct (check_stop self s) as [[stop|e] s0] eqn:Hstop; cbn [snd] in Hl1.
    2:{ exists e1. split; [done|]. clearbody X. lia. }
    destruct (check_stop_spec self _ _ _ Hstop) as (_ & Hsc0 & _).
    destruct stop.
    { exists e1. split; [done|]. clearbody X. lia. }
    unfold mbind at 1, SE_bind at 1, SE.bind at 1.
    destruct (emits_iteration task s0) as (e2 & Hl2 & Hc2).
    destruct (iteration self task s0) as [[ctl|e] s1] eqn:Hit; cbn [snd] in Hl2.
    2:{ exists (e1 ++ e2). cbn [snd]. rewrite Hl2, Hl1, app_assoc, trace_weight_app.
        split; [done|]. clearbody X. lia. }
    destruct (iteration_cases self task s0 s1 _ Hit) as (Hsc1 & _).
    destruct ctl.
    + destruct (IH s1) as (e3 & Hl3 & Hc3).
      exists (e1 ++ e2 ++ e3). rewrite Hl3, Hl2, Hl1, !app_assoc, !trace_weight_app.
      split; [done|]. rewrite Hsc1, Hsc0 in Hc3. fold X in Hc3. clearbody X. lia.
    + exists (e1 ++ e2). unfold mbind, SE_bind, SE.bind, SE.get, mret, SE_ret, SE.ret.
      cbn [snd]. rewrite Hl2, Hl1, app_assoc, trace_weight_app.
      split; [done|]. clearbody X. lia.
    + exists (e1 ++ e2). unfold mret, SE_ret, SE.ret.
      cbn [snd]. rewrite Hl2, Hl1, app_assoc, trace_weight_app.
      split; [done|]. clearbody X. lia.
Qed.

End Emits.

Section LoopBounds.
Import Orchestrator TraceNotions LoopNotions.
Context {W : Type}.
Variable self : Orchestrator.t W.

Lemma weight_occurrences (kind : event -> bool) (events : list event) :
  trace_weight (fun ev => if kind ev then 1 else 0)%nat events = occurrences kind events.
Proof.
  unfold trace_weight, occurrences. induction events as [|ev events IH]; [done|].
  rewrite filter_cons. cbn [map sum_list_with]. rewrite IH. unfold id.
  destruct (kind ev).
  - rewrite decide_True by done. reflexivity.
  - rewrite decide_False by done. reflexivity.
Qed.

(** The trace [execute_task] leaves behind is the one of its loop. *)
Lemma execute_task_trace (task : str) (w : W) :
  trace (snd (execute_task self task w))
  = trace (snd (loop self (S (Z.to_nat (max_steps self))) task (initial w))).
Proof.
  unfold execute_task, SE.try_except.
  destruct (loop self _ task (initial w)) as [[r|e] s]; [done|].
  unfold mbind, SE_bind, SE.bind. by rewrite failed_result_spec.
Qed.

(** X13.  [execute_task] always ends with a result, and it ends having
    received at most [max_steps] plans from the planner and at most
    [max_steps] answers from the stop check, and having captured the UI at
    most twice as often. *)
Theorem outside_consulted_within_budget (task : str) (w : W) :
  let run := execute_task self task w in
  let n := Z.to_nat (max_steps self) in
  (exists t, fst run = Some t)
  /\ (occurrences is_planned (trace (snd run)) <= n)%nat
  /\ (occurrences is_stop_checked (trace (snd run)) <= n)%nat
  /\ (occurrences is_captured (trace (snd run)) <= 2 * n)%nat.
Proof.
  intros run n. subst run. split; [apply execute_task_answers|].
  rewrite execute_task_trace.
  assert (forall (kind : event -> bool) (c p q : nat),
            (forall ui, (if kind (Captured ui) then 1 else 0) <= c)%nat ->
            (forall plan, (if kind (Planned plan) then 1 else 0) <= p)%nat ->
            (forall b, (if kind (StopChecked b) then 1 else 0) <= q)%nat ->
            (forall ms, kind (Slept ms) = false) ->
            (forall a b x y z, kind (Progress a b x y z) = false) ->
            (forall a b, kind (Executed a b) = false) ->
            (occurrences kind
               (trace (snd (loop self (S (Z.to_nat (max_steps self))) task (initial w))))
             <= n * (q + (c + p + c)))%nat) as Hbound.
  { intros kind c p q Hc Hp Hq Hs Hpr Hex.
    assert (forall ms, (if kind (Slept ms) then 1 else 0)%nat = 0%nat) as H1
      by (intros; by rewrite Hs).
    assert (forall a b x y z, (if kind (Progress a b x y z) then 1 else 0)%nat = 0%nat) as H2
      by (intros; by rewrite Hpr).
    assert (forall a b, (if kind (Executed a b) then 1 else 0)%nat = 0%nat) as H3
      by (intros; by rewrite Hex).
    destruct (emits_loop self (fun ev => if kind ev then 1 else 0)%nat c p q
                H1 H2 H3 Hc Hp Hq task
                (S (Z.to_nat (max_steps self))) (initial w)) as (events & -> & Hw).
    unfold initial in *. cbn [trace step_count app] in *.
    rewrite weight_occurrences in Hw. rewrite Z.sub_0_r in Hw. exact Hw. }
  split; [|split].
  - specialize (Hbound is_planned 0%nat 1%nat 0%nat). cbn in Hbound.
    rewrite Nat.mul_1_r in Hbound. by apply Hbound.
  - specialize (Hbound is_stop_checked 0%nat 0%nat 1%nat). cbn in Hbound.
    rewrite Nat.mul_1_r in Hbound. by apply Hbound.
  - specialize (Hbound is_captured 1%nat 0%nat 0%nat). cbn in Hbound.
    rewrite Nat.mul_comm. by apply Hbound.
Qed.

End LoopBounds.

Section Results.
Import Orchestrator TraceNotions LoopNotions ExecNotions.
Context {W : Type}.
Variable self : Orchestrator.t W.

(** How an iteration that ends the loop leaves the state. *)
Lemma iteration_outcome (task : str) (s s' : state W) r :
  iteration self task s = (r, s') ->
  match r with
  | Ok Break =>
    exec_state s' = COMPLETED /\ completed_steps s' = completed_steps s
    /\ exists plan, PlanningResult.task_complete plan = true
                    /\ ends_with_plan (trace s') plan
  | Ok (Return t) =>
    exec_state s' = FAILED
    /\ exists error, t = failed_with task (completed_steps s') error
  | _ => True
  end.
Proof.
  intros Hit. destruct (iteration_unfold self task s) as (ui & w1 & _ & Hcase).
  destruct (DynamicTaskPlanner.plan_next_step _ _ _ _ _) as [[plan|e] w2].
  2:{ rewrite Hcase in Hit. by injection Hit as <- _. }
  cbv zeta in Hcase. rewrite Hcase in Hit. clear Hcase.
  destruct (PlanningResult.task_complete plan) eqn:Hdone.
  { injection Hit as <- <-. cbn [exec_state completed_steps trace].
    split; [done|split; [done|]]. exists plan. split; [done|].
    exists (trace s ++ [Captured ui]). by rewrite <- app_assoc. }
  destruct (PlanningResult.get_all_steps plan).
  { destruct (Qeq_bool _ _); by injection Hit as <- _. }
  unfold mbind, SE_bind, SE.bind in Hit.
  destruct (run_steps _ _ _ _ _ _ _) as [[[]|e] s3]; [|by injection Hit as <- _].
  destruct (finish_batch_spec self task (UIContext.get_all_elements ui) s3)
    as (ui_after & w & Hfin).
  cbv zeta in Hfin. rewrite Hfin in Hit.
  destruct (3 <=? _)%nat; injection Hit as <- <-; [|done].
  cbn [exec_state completed_steps]. split; [done|]. by eexists.
Qed.

Lemma failed_result_of_state (task error : str) (s : state W) :
  result_of_state task (failed_with task (completed_steps s) error)
    (mk_state (world s) (trace s) FAILED (completed_steps s) (step_count s)).
Proof.
  unfold result_of_state, failed_with. cbn.
  split; [done|split; [done|split; [done|split; [done|]]]]. right. by eauto.
Qed.

Lemma loop_result (task : str) (fuel : nat) :
  forall (s s' : state W) t,
    loop self fuel task s = (Ok (Some t), s') -> result_of_state task t s'.
Proof.
  induction fuel as [|fuel IH]; intros s s' t Hloop; [done|].
  cbn [loop] in Hloop. unfold mbind, SE_bind, SE.bind, SE.get in Hloop.
  destruct (step_count s <? max_steps self).
  2:{ rewrite failed_result_spec in Hloop. injection Hloop as <- <-.
      apply failed_result_of_state. }
  destruct (check_stop self s) as [[stop|e] s0]; [|done].
  destruct stop.
  { rewrite failed_result_spec in Hloop. injection Hloop as <- <-.
    apply failed_result_of_state. }
  destruct (iteration self task s0) as [[ctl|e] s1] eqn:Hit; [|done].
  pose proof (iteration_outcome task s0 s1 _ Hit) as Hout.
  destruct ctl.
  - by eapply IH.
  - injection Hloop as <- <-. destruct Hout as (Hst & _ & plan & Hdone & Hends).
    unfold result_of_state. cbn.
    split; [done|split; [done|split; [done|split; [done|]]]]. left. by eauto 6.
  - injection Hloop as <- <-. destruct Hout as (Hst & error & ->).
    unfold result_of_state, failed_with. cbn.
    split; [done|split; [done|split; [done|split; [done|]]]]. right. by eauto.
Qed.

Lemma execute_task_result (task : str) (w : W) (t : TaskResult.t) (s' : state W) :
  execute_task self task w = (Some t, s') -> result_of_state task t s'.
Proof.
  unfold execute_task, SE.try_except.
  destruct (loop self _ task (initial w)) as [[r|e] s] eqn:Hloop.
  - intros [= -> <-]. by eapply loop_result.
  - unfold mbind, SE_bind, SE.bind. rewrite failed_result_spec.
    intros [= <- <-]. apply failed_result_of_state.
Qed.

(** X14.  The result of a task agrees with the run: it names the task,
    its ledger is the one the loop ended with and [steps_executed] is its
    length, its state is the orchestrator's; it is a success exactly when
    its state is COMPLETED and exactly when it carries no error, and
    otherwise its state is FAILED. *)
Theorem task_result_consistent (task : str) (w : W) (t : TaskResult.t) (s' : state W) :
  execute_task self task w = (Some t, s') ->
  TaskResult.task t = task
  /\ TaskResult.completed_steps t = completed_steps s'
  /\ TaskResult.steps_executed t = Z.of_nat (length (completed_steps s'))
  /\ TaskResult.state t = exec_state s'
  /\ (TaskResult.state t = COMPLETED \/ TaskResult.state t = FAILED)
  /\ (TaskResult.success t = true <-> TaskResult.state t = COMPLETED)
  /\ (TaskResult.success t = true <-> TaskResult.error t = None).
Proof.
  intros Hrun. destruct (execute_task_result task w t s' Hrun)
    as (Htask & Hn & Hl & Hst & Hcase).
  rewrite <- Hl.
  split; [done|split; [done|split; [done|split; [done|]]]].
  destruct Hcase as [(Hs & Hc & He & _)|(Hs & Hf & [err He])]; rewrite Hs.
  - split; [by left|]. by split.
  - rewrite Hf, He. split; [by right|]. split; split; done.
Qed.

(** X15.  A task is reported as a success only when the planner said so:
    the last thing the loop did was to receive a plan with
    [task_complete] set. *)
Theorem success_only_on_completion (task : str) (w : W) (t : TaskResult.t) (s' : state W) :
  execute_task self task w = (Some t, s') ->
  TaskResult.success t = true ->
  exists plan, PlanningResult.task_complete plan = true /\ ends_with_plan (trace s') plan.
Proof.
  intros Hrun Hs. destruct (execute_task_result task w t s' Hrun)
    as (_ & _ & _ & _ & [(_ & _ & _ & H)|(Hf & _)]); [done|congruence].
Qed.

End Results.

Section Batches.
Import Orchestrator TraceNotions LoopNotions ExecNotions.
Context {W : Type}.
Variable self : Orchestrator.t W.

Lemma records_of_snoc ui_before executed p :
  forall first, exists rec,
    records_of ui_before first (executed ++ [p])
    = records_of ui_before first executed ++ [rec].
Proof.
  induction executed as [|[ns sr] executed IH]; intros first.
  - destruct p as [ns sr]. by eexists.
  - destruct (IH false) as [rec Hrec]. exists rec. cbn [app records_of]. by rewrite Hrec.
Qed.

(** X16.  A failure ends the steps of an iteration: among the records an
    iteration appends to the ledger, all but the last are successes (a
    planner's batch is cut at its first failed step). *)
Theorem failure_ends_iteration (task : str) (s s' : state W) r :
  iteration self task s = (r, s') ->
  exists added,
    completed_steps s' = completed_steps s ++ added
    /\ forall earlier last, added = earlier ++ [last] ->
         Forall (fun step => CompletedStep.success step = true) earlier.
Proof.
  intros Hit. destruct (iteration_cases self task s s' r Hit)
    as (_ & ui & events & _ & [(Hl & _)|(plan & _ & Hcase)]).
  - exists []. rewrite app_nil_r. split; [done|]. intros earlier last H.
    by destruct earlier.
  - cbv zeta in Hcase.
    destruct Hcase as [(e & _ & Hl & Hsucc)|(ua & ch & Hne & Hl & Hlast & _)].
    + eexists. split; [exact Hl|]. intros earlier last H.
      pose proof (records_of_success (UIContext.get_all_elements ui) true _ Hsucc) as HF.
      rewrite H in HF. by apply Forall_app in HF as [HF _].
    + eexists. split; [exact Hl|]. intros earlier last H.
      destruct (executed_of events) as [|p0 ex0] eqn:Hex using rev_ind; [done|].
      clear IHex0.
      destruct (records_of_snoc (UIContext.get_all_elements ui) ex0 p0 true) as [rec Hrec].
      rewrite Hrec, update_last_snoc in H. apply app_inj_tail in H as [<- _].
      apply records_of_success. by eapply Hlast.
Qed.

(** X17.  Capturing the UI never fails.  Without a device controller the
    snapshot is empty and nothing outside is touched; when the dump of the
    UI hierarchy raises, the snapshot has no elements; when only the
    screenshot raises, the snapshot has the elements and no screenshot. *)
Theorem ui_capture_never_fails (s : state W) :
  exists ui w,
    _get_ui_context self s
    = (Ok ui, mk_state w (trace s ++ [Captured ui]) (exec_state s) (completed_steps s)
                (step_count s))
    /\ (device_controller self = None -> ui = UIContext.mk [] None /\ w = world s)
    /\ (forall dc e w1,
          device_controller self = Some dc ->
          get_ui_hierarchy dc (world s) = (Raise e, w1) ->
          UIContext.elements ui = [])
    /\ (forall dc elements w1 e w2,
          device_controller self = Some dc ->
          get_ui_hierarchy dc (world s) = (Ok elements, w1) ->
          take_screenshot dc w1 = (Raise e, w2) ->
          ui = UIContext.mk elements None).
Proof.
  unfold _get_ui_context, mbind, SE_bind, SE.bind, emit, SE.modify.
  destruct (device_controller self) as [dc|].
  - unfold SE.try_except, call, mret, SE_ret, SE.ret, SE.bind.
    cbn [world trace exec_state completed_steps step_count].
    destruct (get_ui_hierarchy dc (world s)) as [[els|e1] w1] eqn:H1;
      cbn [world trace exec_state completed_steps step_count];
      destruct (take_screenshot dc w1) as [[shot|e2] w2] eqn:H2;
      cbn [world trace exec_state completed_steps step_count];
      eexists _, _; (split; [reflexivity|]);
      (split; [done|]); split;
      try (intros dc' e' w' [= <-] H; rewrite H in *; congruence);
      try (intros dc' els' w' e' w'' [= <-] H H'; rewrite H in *;
           try congruence).
    all: try (intros dc' e' w' [= <-] H; by rewrite H1 in H).
    all: try (intros dc' els' w' e' w'' [= <-] H H'; rewrite H1 in H;
              injection H as <- <-; by rewrite H2 in H').
  - unfold mret, SE_ret, SE.ret. cbn. eexists _, _. split; [reflexivity|].
    split; [done|]. split; intros; discriminate.
Qed.

(** X18.  Executing a step never raises: the result carries the step's
    action, target and description; it has no error when it is a success;
    a timeout of the executor gives the failure "执行超时" and any other
    exception a failure with the exception's text. *)
Theorem step_errors_contained (next_step : NextStep.t) (ui_context : UIContext.t)
    (s : state W) :
  exists step_result,
    fst (_execute_step self next_step ui_context s) = Ok step_result
    /\ StepResult.action step_result = NextStep.action next_step
    /\ StepResult.target step_result = NextStep.target next_step
    /\ StepResult.description step_result = NextStep.description next_step
    /\ (StepResult.success step_result = true -> StepResult.error step_result = None)
    /\ (forall e w',
          action_executor self (context_of next_step (UIContext.elements ui_context))
            (world s) = (Raise e, w') ->
          StepResult.success step_result = false
          /\ StepResult.error step_result
             = Some (match e with TimeoutError => py "执行超时" | _ => exn_str e end)).
Proof.
  unfold _execute_step, mbind, SE_bind, SE.bind, emit, SE.modify, SE.try_except, call,
    context_of.
  destruct (action_executor self _ (world s)) as [[res|e] w]; cbn [fst].
  - eexists. split; [reflexivity|]. cbn.
    split; [done|split; [done|split; [done|split; [|done]]]].
    by intros ->.
  - destruct e; cbn; eexists; (split; [reflexivity|]); cbn;
      (split; [done|split; [done|split; [done|split; [done|]]]]);
      by intros e' w' [= <- _].
Qed.

End Batches.

Section LoopMoreWitnesses.
Import Orchestrator TraceNotions LoopNotions LoopSamples MoreSamples.

(** The task of [completing]: one tap, then the planner says it is done. *)
Lemma task_result_consistent_witness :
  let run := execute_task completing sample_task 0%nat in
  let t := default (failed_with [] [] []) (fst run) in
  TaskResult.task t = sample_task
  /\ TaskResult.completed_steps t = completed_steps (snd run)
  /\ TaskResult.steps_executed t = Z.of_nat (length (completed_steps (snd run)))
  /\ TaskResult.state t = exec_state (snd run)
  /\ (TaskResult.state t = COMPLETED \/ TaskResult.state t = FAILED)
  /\ (TaskResult.success t = true <-> TaskResult.state t = COMPLETED)
  /\ (TaskResult.success t = true <-> TaskResult.error t = None).
Proof.
  intros run t. subst t run.
  destruct (execute_task completing sample_task 0%nat) as [[t|] s'] eqn:Hrun.
  - exact (task_result_consistent completing sample_task 0%nat t s' Hrun).
  - vm_compute in Hrun. discriminate.
Defined.

Lemma success_only_on_completion_witness :
  exists plan,
    PlanningResult.task_complete plan = true
    /\ ends_with_plan (trace (snd (execute_task completing sample_task 0%nat))) plan.
Proof.
  destruct (execute_task completing sample_task 0%nat) as [[t|] s'] eqn:Hrun.
  - apply (success_only_on_completion completing sample_task 0%nat t s' Hrun).
    vm_compute in Hrun. by injection Hrun as <- _.
  - vm_compute in Hrun. discriminate.
Defined.

(** A batch of three scrolls whose second fails: the third is not run. *)
Lemma failure_ends_iteration_witness :
  let run := iteration batching sample_task (initial 0%nat) in
  exists added,
    completed_steps (snd run) = completed_steps (initial 0%nat) ++ added
    /\ forall earlier last, added = earlier ++ [last] ->
         Forall (fun step => CompletedStep.success step = true) earlier.
Proof.
  intros run. subst run.
  apply (failure_ends_iteration batching sample_task (initial 0%nat)
           (snd (iteration batching sample_task (initial 0%nat)))
           (fst (iteration batching sample_task (initial 0%nat)))).
  by destruct (iteration batching sample_task (initial 0%nat)).
Defined.

End LoopMoreWitnesses.


Import Py.
Local Open Scope Z_scope.

(** ** Points and screens *)

Section PointsMore.
Import PointMethods ExecNotions.

Lemma point_new_valid (a b : Z) :
  0 <= a -> 0 <= b -> Point.new a b = Ok (Point.mk a b).
Proof. intros Ha Hb. by apply point_new_nonneg. Qed.

Lemma point_new_cases (a b : Z) :
  (0 <= a /\ 0 <= b /\ Point.new a b = Ok (Point.mk a b))
  \/ ((a < 0 \/ b < 0)
      /\ Point.new a b = Raise (ValueError (py "Point coordinates must be non-negative"))).
Proof.
  destruct (decide (0 <= a /\ 0 <= b)) as [[Ha Hb]|Hn].
  - left. split; [done|split; [done|by apply point_new_valid]].
  - right. assert (a < 0 \/ b < 0) as H by lia. split; [done|]. by apply point_new_negative.
Qed.

(** X19.  [Point.offset] gives the shifted point exactly when both shifted
    coordinates are non-negative and raises [ValueError] otherwise; on
    validated points, shifting back returns the point one started from, and
    two shifts in a row are the shift by the sums. *)
Theorem offset_round_trip (p : Point.t) (dx dy : Z) :
  nonneg_point p ->
  (0 <= Point.x p + dx /\ 0 <= Point.y p + dy ->
   exists q, offset p dx dy = Ok q
             /\ nonneg_point q
             /\ offset q (- dx) (- dy) = Ok p
             /\ forall dx' dy', offset q dx' dy' = offset p (dx + dx') (dy + dy'))
  /\ (Point.x p + dx < 0 \/ Point.y p + dy < 0 ->
      offset p dx dy = Raise (ValueError (py "Point coordinates must be non-negative"))).
Proof.
  intros [Hx Hy]. unfold offset. split.
  - intros [Hx' Hy']. exists (Point.mk (Point.x p + dx) (Point.y p + dy)).
    rewrite point_new_valid by done. cbn [Point.x Point.y].
    split; [done|split; [done|split]].
    + replace (Point.x p + dx + - dx) with (Point.x p) by lia.
      replace (Point.y p + dy + - dy) with (Point.y p) by lia.
      rewrite point_new_valid by done. by destruct p.
    + intros dx' dy'. by rewrite !Z.add_assoc.
  - intros H. by apply point_new_negative.
Qed.

End PointsMore.

Section Screens.
Import PointMethods ExecNotions ScreenInfo.
Context {float : Type}.
Variable le_zero : float -> bool.

Lemma screen_new_ok (w h : Z) (d : float) (o : str) (sf : float) (si : ScreenInfo.t float) :
  ScreenInfo.new le_zero w h d o sf = Ok si ->
  si = ScreenInfo.mk w h d o sf
  /\ 0 < w /\ 0 < h /\ le_zero d = false /\ le_zero sf = false
  /\ (o = py "portrait" \/ o = py "landscape").
Proof.
  unfold ScreenInfo.new, ScreenInfo.__post_init__.
  cbn [width height density orientation scale_factor].
  destruct ((w <=? 0) || (h <=? 0)) eqn:Hdim; [discriminate|].
  destruct (le_zero d) eqn:Hd; [discriminate|].
  destruct (le_zero sf) eqn:Hsf; [discriminate|].
  destruct (eqb o (py "portrait") || eqb o (py "landscape")) eqn:Ho; [|discriminate].
  intros [= <-]. apply orb_false_iff in Hdim as [Hw Hh].
  apply Z.leb_gt in Hw, Hh.
  split; [done|split; [done|split; [done|split; [done|split; [done|]]]]].
  apply orb_true_iff in Ho as [Ho|Ho]; apply eqb_true in Ho; eauto.
Qed.

(** X20.  A [ScreenInfo] that passed its validation has positive
    dimensions, a density and a scale factor that are not [<= 0], and
    exactly one of [is_portrait] and [is_landscape] holds of it. *)
Theorem screen_info_validated (w h : Z) (d : float) (o : str) (sf : float)
    (si : ScreenInfo.t float) :
  ScreenInfo.new le_zero w h d o sf = Ok si ->
  0 < width si /\ 0 < height si
  /\ le_zero (density si) = false /\ le_zero (scale_factor si) = false
  /\ is_portrait si = negb (is_landscape si).
Proof.
  intros Hnew. apply screen_new_ok in Hnew as (-> & Hw & Hh & Hd & Hsf & Ho).
  cbn [width height density scale_factor].
  split; [done|split; [done|split; [done|split; [done|]]]].
  unfold is_portrait, is_landscape. cbn [orientation].
  by destruct Ho as [->| ->].
Qed.

(** X21.  The centre of a validated screen is a valid point and lies
    within the screen. *)
Theorem screen_center_inside (w h : Z) (d : float) (o : str) (sf : float)
    (si : ScreenInfo.t float) :
  ScreenInfo.new le_zero w h d o sf = Ok si ->
  exists p, center si = Ok p /\ nonneg_point p /\ contains_point si p = true.
Proof.
  intros Hnew. apply screen_new_ok in Hnew as (-> & Hw & Hh & _).
  unfold center, contains_point, is_within_bounds. cbn [width height].
  assert (0 <= w `div` 2 < w) as [Hx1 Hx2]
    by (split; [apply Z.div_pos; lia|apply Z.div_lt; lia]).
  assert (0 <= h `div` 2 < h) as [Hy1 Hy2]
    by (split; [apply Z.div_pos; lia|apply Z.div_lt; lia]).
  exists (Point.mk (w `div` 2) (h `div` 2)).
  split; [by apply point_new_valid|]. split; [done|]. cbn [Point.x Point.y].
  apply andb_true_intro. split; apply andb_true_intro; split; lia.
Qed.

(** X22.  [get_safe_area] gives the corners [(m, m)] and
    [(width - m, height - m)] exactly when [0 <= m <= width] and
    [m <= height], and raises [ValueError] otherwise; the corners are in
    order (the first not beyond the second) only when twice the margin fits
    in both dimensions, which is not checked. *)
Theorem safe_area_cases (si : ScreenInfo.t float) (margin : Z) :
  (0 <= margin <= width si /\ margin <= height si ->
   get_safe_area si margin
   = Ok (Point.mk margin margin, Point.mk (width si - margin) (height si - margin)))
  /\ (margin < 0 \/ width si < margin \/ height si < margin ->
      get_safe_area si margin
      = Raise (ValueError (py "Point coordinates must be non-negative")))
  /\ (forall top_left bottom_right,
        get_safe_area si margin = Ok (top_left, bottom_right) ->
        (Point.x top_left <= Point.x bottom_right /\ Point.y top_left <= Point.y bottom_right
         <-> 2 * margin <= width si /\ 2 * margin <= height si)).
Proof.
  unfold get_safe_area. split; [|split].
  - intros [[H0 Hw] Hh]. by rewrite !point_new_valid by lia.
  - intros H. destruct (decide (margin < 0)) as [Hneg|Hpos].
    + by rewrite point_new_negative by lia.
    + rewrite point_new_valid by lia. by rewrite point_new_negative by lia.
  - intros tl br.
    destruct (point_new_cases margin margin) as [(_ & _ & ->)|(_ & ->)]; [|discriminate].
    destruct (point_new_cases (width si - margin) (height si - margin))
      as [(_ & _ & ->)|(_ & ->)]; [|discriminate].
    intros [= <- <-]. cbn [Point.x Point.y]. lia.
Qed.

End Screens.

Section ControllerElements.
Import ExecNotions BaseController.

(** X23.  The centre of an element whose corners are valid points is a
    valid point (computing it never raises), and it lies between the two
    corners in both coordinates, whichever way round they are given. *)
Theorem element_center_between (self : UIElement.t) (top_left bottom_right : Point.t) :
  UIElement.bounds self = Some (top_left, bottom_right) ->
  nonneg_point top_left -> nonneg_point bottom_right ->
  exists p,
    UIElement.center self = Ok (Some p)
    /\ nonneg_point p
    /\ Z.min (Point.x top_left) (Point.x bottom_right) <= Point.x p
       <= Z.max (Point.x top_left) (Point.x bottom_right)
    /\ Z.min (Point.y top_left) (Point.y bottom_right) <= Point.y p
       <= Z.max (Point.y top_left) (Point.y bottom_right).
Proof.
  intros Hb [Hx1 Hy1] [Hx2 Hy2]. unfold UIElement.center. rewrite Hb.
  set (x := (Point.x top_left + Point.x bottom_right) `div` 2).
  set (y := (Point.y top_left + Point.y bottom_right) `div` 2).
  assert (Z.min (Point.x top_left) (Point.x bottom_right) <= x
          <= Z.max (Point.x top_left) (Point.x bottom_right)) as Hx.
  { subst x. split; [apply Z.div_le_lower_bound|apply Z.div_le_upper_bound]; lia. }
  assert (Z.min (Point.y top_left) (Point.y bottom_right) <= y
          <= Z.max (Point.y top_left) (Point.y bottom_right)) as Hy.
  { subst y. split; [apply Z.div_le_lower_bound|apply Z.div_le_upper_bound]; lia. }
  exists (Point.mk x y). rewrite point_new_valid by lia.
  split; [done|]. split; [split; cbn; lia|]. done.
Qed.

End ControllerElements.

(** ** The task manager *)

Section Manager.
Import TaskExecutionManager.
Context {W : Type}.
Variable self : TaskExecutionManager.t W.

(** [get_next_step], case by case. *)
Lemma get_next_step_unfold (ui_context : UIContext.t) (s : state W) :
  get_next_step self ui_context s
  = if negb (bool_decide (status s = TaskStatus.IN_PROGRESS)) then
      (Ok (stop_plan (py "任务未在进行中")), s)
    else if Z.of_nat (length (completed_steps s)) >=? max_steps self then
      (Ok (stop_plan (py "达到最大步数限制(" ++ str_of_int (max_steps self) ++ py ")")),
       mk_state (world s) (completed_steps s) (current_task s) TaskStatus.FAILED)
    else
      match DynamicTaskPlanner.plan_next_step (planner self) (current_task s) ui_context
              (completed_steps s) (world s) with
      | (Ok plan, w) =>
        (Ok plan,
         mk_state w (completed_steps s) (current_task s)
           (if PlanningResult.task_complete plan then TaskStatus.COMPLETED else status s))
      | (Raise e, w) => (Raise e, mk_state w (completed_steps s) (current_task s) (status s))
      end.
Proof.
  unfold get_next_step, mbind, SE_bind, SE.bind, SE.get, set_status, SE.modify, mret,
    SE_ret, SE.ret, stop_plan.
  destruct (negb _); [done|]. destruct (_ >=? _); [done|].
  destruct (DynamicTaskPlanner.plan_next_step _ _ _ _ _) as [[plan|e] w]; [|done].
  by destruct (PlanningResult.task_complete plan).
Qed.

(** X24.  [get_next_step] never touches the ledger or the task.  When
    the manager is not in progress it answers "complete" and does nothing
    else (the planner is not asked); in progress with [max_steps] recorded
    steps or more it answers "complete", turns FAILED and does not ask the
    planner either; and whenever it answers a decision with
    [task_complete] set, it has left IN_PROGRESS. *)
Theorem manager_next_step (ui_context : UIContext.t) (s : state W) :
  let run := get_next_step self ui_context s in
  completed_steps (snd run) = completed_steps s
  /\ current_task (snd run) = current_task s
  /\ (status s <> TaskStatus.IN_PROGRESS ->
      run = (Ok (stop_plan (py "任务未在进行中")), s))
  /\ (status s = TaskStatus.IN_PROGRESS ->
      max_steps self <= Z.of_nat (length (completed_steps s)) ->
      run = (Ok (stop_plan (py "达到最大步数限制(" ++ str_of_int (max_steps self) ++ py ")")),
             mk_state (world s) (completed_steps s) (current_task s) TaskStatus.FAILED))
  /\ (forall plan, fst run = Ok plan -> PlanningResult.task_complete plan = true ->
      status (snd run) <> TaskStatus.IN_PROGRESS).
Proof.
  intros run. subst run. rewrite get_next_step_unfold.
  destruct (decide (status s = TaskStatus.IN_PROGRESS)) as [Hin|Hout].
  - rewrite bool_decide_eq_true_2 by done. cbn [negb].
    destruct (Z.of_nat (length (completed_steps s)) >=? max_steps self) eqn:Hmax.
    + cbn. split; [done|split; [done|split; [done|split; [done|]]]].
      by intros plan _ _.
    + rewrite Z.geb_leb in Hmax. apply Z.leb_gt in Hmax.
      destruct (DynamicTaskPlanner.plan_next_step _ _ _ _ _) as [[plan|e] w].
      * cbn. split; [done|split; [done|split; [done|split; [intros; lia|]]]].
        intros plan' [= <-] ->. done.
      * cbn. split; [done|split; [done|split; [done|split; [intros; lia|]]]].
        intros plan [=].
  - rewrite bool_decide_eq_false_2 by done. cbn.
    split; [done|split; [done|split; [done|split; [done|]]]].
    by intros plan _ _.
Qed.

Lemma after_records_snoc (steps : list CompletedStep.t) (step : CompletedStep.t)
    (s : state W) :
  after_records (steps ++ [step]) s = snd (record_step step (after_records steps s)).
Proof. unfold after_records. by rewrite fold_left_app. Qed.

(** X25.  After [start_task] and any number of [record_step] calls,
    [get_progress] reports the task, the status "in_progress", the number
    of recorded steps and their summaries in the order of recording,
    whatever was recorded before the task started. *)
Theorem progress_after_records (task : str) (steps : list CompletedStep.t) (s : state W) :
  get_progress self (after_records steps (snd (start_task task s)))
  = mk_progress task (py "in_progress") (Z.of_nat (length steps)) (max_steps self)
      (map summary_of steps).
Proof.
  assert (forall s0 : state W,
            completed_steps (after_records steps s0) = completed_steps s0 ++ steps
            /\ current_task (after_records steps s0) = current_task s0
            /\ status (after_records steps s0) = status s0) as H.
  { intros s0. induction steps as [|step steps IH] using rev_ind.
    - cbn. by rewrite app_nil_r.
    - rewrite after_records_snoc. destruct IH as (IH1 & IH2 & IH3).
      cbn. by rewrite IH1, app_assoc. }
  destruct (H (snd (start_task task s))) as (H1 & H2 & H3).
  unfold get_progress. rewrite H1, H2, H3. reflexivity.
Qed.

End Manager.

(** ** Looking a name up in the snapshot *)

Section HasElement.
Import UIElement UIContext Index IndexNotions UIContextMore.

Lemma startswith_refl (s : str) : startswith s s = true.
Proof. induction s as [|c s IH]; [done|]. cbn. by rewrite N.eqb_refl. Qed.

Lemma contains_refl (s : str) : contains s s = true.
Proof. destruct s as [|c s]; [done|]. cbn [contains]. by rewrite startswith_refl. Qed.

(** An element is found under its own stripped text, and under its own
    stripped label. *)
Lemma has_element_own (self : UIContext.t) (e : UIElement.t) :
  e ∈ elements self ->
  has_element self (strip (get_str (text e))) = true
  /\ has_element self (strip (get_str (content_desc e))) = true.
Proof.
  intros Hin. unfold has_element. split; apply existsb_exists; exists e;
    (split; [by apply list_elem_of_In|]); cbv zeta; rewrite contains_refl;
    [done|by rewrite orb_true_r].
Qed.

(** X26.  The names of the index are found in the snapshot it was built
    from: for every entry whose element has a text or a label of at most
    thirty characters, [has_element] answers [True] for the entry's name.
    (A longer text is shortened in the index, and is then looked up in
    vain.) *)
Theorem indexed_name_is_found (self : UIContext.t) (clickable_only : bool) (en : entry) :
  en ∈ _build_indexed_elements self clickable_only ->
  labelled (element_of en) = true ->
  (length (or_else (strip (get_str (text (element_of en))))
                   (strip (get_str (content_desc (element_of en))))) <= 30)%nat ->
  has_element self (base_of en) = true.
Proof.
  intros Hin Hlab Hlen.
  assert (element_of en ∈ elements self) as Hel.
  { destruct (build_inv_all clickable_only (elements self)) as [_ _ Hel _ _].
    fold (_build_indexed_elements self clickable_only) in Hel.
    assert (element_of en ∈ map element_of (_build_indexed_elements self clickable_only)) as H
      by (apply list_elem_of_In, in_map, list_elem_of_In; done).
    rewrite Hel in H. by apply list_elem_of_filter in H as [_ H]. }
  destruct (has_element_own self (element_of en) Hel) as [Ht Hd].
  unfold base_of, name_of. rewrite label_of_labelled, Hlab. cbn [negb andb].
  unfold label_of.
  replace (30 <? _)%nat with false by (symmetry; apply Nat.ltb_ge; lia).
  rewrite andb_false_r. unfold or_else. by destruct (truthy _).
Qed.

End HasElement.

Section MoreWitnesses8.
Import PointMethods ExecNotions ScreenInfo BaseController Index IndexNotions UIContextMore.

Lemma offset_round_trip_witness :
  exists q, offset (Point.mk 10 20) 5 (-20) = Ok q
            /\ nonneg_point q
            /\ offset q (- 5) (- -20) = Ok (Point.mk 10 20)
            /\ forall dx' dy', offset q dx' dy' = offset (Point.mk 10 20) (5 + dx') (-20 + dy').
Proof.
  apply (offset_round_trip (Point.mk 10 20) 5 (-20)).
  - split; cbn; lia.
  - split; cbn; lia.
Defined.

(** A phone screen, with floats read as integers. *)
Lemma screen_info_validated_witness :
  let si := ScreenInfo.mk 1080 1920 (2 : Z) (py "portrait") (1 : Z) in
  0 < width si /\ 0 < height si
  /\ (density si <=? 0) = false /\ (scale_factor si <=? 0) = false
  /\ is_portrait si = negb (is_landscape si).
Proof.
  intros si.
  apply (screen_info_validated (fun z : Z => z <=? 0) 1080 1920 2 (py "portrait") 1 si).
  reflexivity.
Defined.

Lemma screen_center_inside_witness :
  let si := ScreenInfo.mk 1080 1920 (2 : Z) (py "portrait") (1 : Z) in
  exists p, center si = Ok p /\ nonneg_point p /\ contains_point si p = true.
Proof.
  intros si.
  apply (screen_center_inside (fun z : Z => z <=? 0) 1080 1920 2 (py "portrait") 1 si).
  reflexivity.
Defined.

(** An element whose corners are given the wrong way round. *)
Lemma element_center_between_witness :
  let self :=
    UIElement.mk None (Some (py "OK")) None None (Some (Point.mk 100 40, Point.mk 20 200))
      true false true true None in
  exists p,
    UIElement.center self = Ok (Some p)
    /\ nonneg_point p
    /\ Z.min 100 20 <= Point.x p <= Z.max 100 20
    /\ Z.min 40 200 <= Point.y p <= Z.max 40 200.
Proof.
  intros self.
  apply (element_center_between self (Point.mk 100 40) (Point.mk 20 200)).
  - reflexivity.
  - split; cbn; lia.
  - split; cbn; lia.
Defined.

Lemma indexed_name_is_found_witness :
  has_element (snapshot [button "Settings" (10, 20)]) (py "Settings") = true.
Proof.
  apply (indexed_name_is_found (snapshot [button "Settings" (10, 20)]) true
           (1, py "Settings", button "Settings" (10, 20))).
  - apply list_elem_of_lookup_2 with 0%nat. vm_compute. reflexivity.
  - reflexivity.
  - vm_compute. lia.
Defined.

End MoreWitnesses8.


Import Py.
Local Open Scope Z_scope.

(** ** More on the rewrites of the planner's steps *)

Section Rewrites.
Import UIElement UIContext Index Orchestrator RewriteNotions.

(** X27.  Resolving a target index never raises, and it leaves the
    action, the description and every parameter other than [x] and [y] as
    the planner gave them. *)
Theorem resolution_frame (ui_context : UIContext.t) (next_step : NextStep.t) :
  exists resolved,
    resolve_target_index ui_context next_step = Ok resolved
    /\ NextStep.action resolved = NextStep.action next_step
    /\ NextStep.description resolved = NextStep.description next_step
    /\ (forall key : string, key <> "x" -> key <> "y" ->
          NextStep.parameters resolved !! key = NextStep.parameters next_step !! key)
    /\ (is_tap_or_click (NextStep.action next_step) = false -> resolved = next_step).
Proof.
  destruct (is_tap_or_click (NextStep.action next_step)) eqn:Htap.
  - destruct (lookup_never_raises ui_context (NextStep.target_index next_step)) as [[e|] Hr].
    + destruct (resolve_by_index _ _ _ Htap Hr) as (en & index & name & _ & ->).
      eexists. split; [reflexivity|]. cbn [NextStep.action NextStep.description
        NextStep.parameters].
      split; [done|split; [done|split; [|done]]].
      intros key Hx Hy. by rewrite !lookup_insert_ne.
    + rewrite resolve_without_index by eauto. exists next_step. by repeat split.
  - rewrite resolve_without_index by eauto. exists next_step. by repeat split.
Qed.

Lemma forallb_false_Exists {A} (p : A -> bool) (l : list A) :
  Exists (fun a => p a = false) l -> forallb p l = false.
Proof.
  induction 1 as [a l Ha|a l _ IH]; cbn [forallb].
  - by rewrite Ha.
  - rewrite IH. apply andb_false_r.
Qed.

(** X28.  The rewrite of digit clicks that follows a click on an input
    field is held back by index phrasing: when one of the steps is not a
    tap or click, or its description speaks of "编号" or of "第 ... 元素",
    [_is_digit_clicks] answers no and the steps are left as they are. *)
Theorem index_phrasing_holds_rewrite (completed_steps : list CompletedStep.t)
    (steps : list NextStep.t) :
  Exists (fun step => is_click_or_tap (NextStep.action step) = false
                      \/ index_phrasing (NextStep.description step) = true) steps ->
  _is_digit_clicks steps = false
  /\ convert_after_input completed_steps steps = steps.
Proof.
  intros Hex.
  assert (_is_digit_clicks steps = false) as Hno.
  { unfold _is_digit_clicks. destruct steps as [|s0 steps']; [done|].
    apply forallb_false_Exists. eapply Exists_impl; [exact Hex|].
    intros step [Hact|Hidx]; cbv beta.
    - by rewrite Hact.
    - destruct (negb _); [done|]. unfold index_phrasing in Hidx. cbv zeta in Hidx.
      apply orb_true_iff in Hidx as [Hidx|Hidx].
      + by rewrite Hidx.
      + rewrite Hidx. by destruct (_ && _). }
  split; [done|]. unfold convert_after_input. rewrite Hno. by destruct (_ && _).
Qed.

End Rewrites.

Section RewriteWitnesses.
Import Orchestrator RewriteNotions Notions.

(** The planner words a click by the element's number, after a click on
    the search field. *)
Lemma index_phrasing_holds_rewrite_witness :
  let steps :=
    [NextStep.mk (py "click") None (VInt 3) ∅ (py "点击第3个元素：7")] in
  let ledger :=
    [CompletedStep.mk (py "tap") (Some (py "搜索")) (py "点击搜索框") true None ∅ [] [] true 0] in
  _is_digit_clicks steps = false /\ convert_after_input ledger steps = steps.
Proof.
  intros steps ledger. apply (index_phrasing_holds_rewrite ledger steps).
  apply Exists_cons_hd. right. vm_compute. reflexivity.
Defined.

End RewriteWitnesses.

(** ** The search of an element by its text *)

Section Sorting.
Import PyMore.
Context {A : Type}.
Variable key : A -> Z.

Lemma insert_by_perm (x : A) (l : list A) : insert_by key x l ≡ₚ x :: l.
Proof.
  induction l as [|y l IH]; [done|]. cbn [insert_by].
  destruct (key x <=? key y); [done|]. rewrite IH. apply Permutation_swap.
Qed.

Lemma sort_by_perm (l : list A) : sort_by key l ≡ₚ l.
Proof.
  induction l as [|x l IH]; [done|]. unfold sort_by in *. cbn [foldr].
  by rewrite insert_by_perm, IH.
Qed.

Lemma insert_by_sorted (x : A) (l : list A) :
  sorted_by key l -> sorted_by key (insert_by key x l).
Proof.
  induction l as [|y l IH]; cbn [insert_by sorted_by].
  - by repeat constructor.
  - intros [Hy Hs]. destruct (key x <=? key y) eqn:Hxy.
    + apply Z.leb_le in Hxy. cbn [sorted_by]. split; [|done].
      constructor; [done|]. eapply Forall_impl; [exact Hy|]. intros; cbn in *; lia.
    + apply Z.leb_gt in Hxy. cbn [sorted_by]. split; [|by apply IH].
      rewrite insert_by_perm. constructor; [lia|done].
Qed.

Lemma sort_by_sorted (l : list A) : sorted_by key (sort_by key l).
Proof.
  induction l as [|x l IH]; [done|]. unfold sort_by in *. cbn [foldr].
  by apply insert_by_sorted.
Qed.

(** In a sorted list the first element with a property has the least key
    among those with the property. *)
Lemma find_sorted_least (p : A -> bool) (l : list A) (c : A) :
  sorted_by key l ->
  find p l = Some c ->
  forall c', c' ∈ l -> p c' = true -> key c <= key c'.
Proof.
  induction l as [|y l IH]; [done|]. cbn [find sorted_by]. intros [Hy Hs].
  destruct (p y) eqn:Hp.
  - intros [= <-] c' Hin _. apply elem_of_cons in Hin as [->|Hin]; [lia|].
    rewrite Forall_forall in Hy. by apply Hy.
  - intros Hf c' Hin Hc'. apply elem_of_cons in Hin as [->|Hin]; [congruence|].
    by apply IH.
Qed.

End Sorting.

Section Search.
Import UIElement PyMore ElementSearch SearchNotions.

Lemma candidate_of_element (target_lower : str) (keywords : list str)
    (element e : UIElement.t) (priority : Z) :
  candidate_of target_lower keywords element = Some (e, priority) ->
  e = element /\ 1 <= priority <= 4.
Proof.
  unfold candidate_of. cbv zeta.
  repeat (destruct (_ && _); [intros [= <- <-]; split; [done|lia]|]).
  destruct (filter _ keywords) as [|k ks]; [done|].
  intros [= <- <-]. split; [done|]. cbn [length]. lia.
Qed.

(** The candidates of priority 1 are the exact matches. *)
Lemma candidate_exact (target : str) (keywords : list str) (element : UIElement.t) :
  candidate_of (lower target) keywords element = Some (element, 1)
  <-> exact_text_or_label target element = true.
Proof.
  unfold candidate_of, exact_text_or_label, exact_match. cbv zeta.
  assert (forall s : str, or_else s [] = s) as Hor by (by intros [|c s]).
  rewrite !Hor.
  destruct (truthy (get_str (text element))
            && eqb (lower (get_str (text element))) (lower target)); [done|].
  destruct (truthy (get_str (content_desc element))
            && eqb (lower (get_str (content_desc element))) (lower target)); [done|].
  cbn [orb]. split; [|done].
  repeat (destruct (_ && _); [intros [=]|]).
  destruct (filter _ keywords) as [|k ks]; [done|].
  intros [= H]. cbn [length] in H. lia.
Qed.

Lemma candidates_elem (target_lower : str) (keywords : list str)
    (ui_elements : list UIElement.t) (c : UIElement.t * Z) :
  c ∈ omap (candidate_of target_lower keywords) ui_elements
  <-> exists element, element ∈ ui_elements
                      /\ candidate_of target_lower keywords element = Some c.
Proof. apply list_elem_of_omap. Qed.

(** X29.  What [_find_element_by_target_simple] returns is an element of
    the list it was given, and one it considers a match; it returns
    nothing only when it considers no element a match; and it returns an
    element that is not a valid target (not clickable, or in the top 150
    pixels) only when no match is a valid target. *)
Theorem find_element_sound (target : str) (ui_elements : list UIElement.t) :
  match _find_element_by_target_simple target ui_elements with
  | Some e =>
    e ∈ ui_elements /\ considered target e = true
    /\ (is_valid_target e = false ->
        forall e', e' ∈ ui_elements -> considered target e' = true ->
                   is_valid_target e' = false)
  | None => Forall (fun e => considered target e = false) ui_elements
  end.
Proof.
  unfold _find_element_by_target_simple, considered. cbv zeta.
  set (tl := lower target). set (kw := _extract_keywords tl).
  set (cands := omap (candidate_of tl kw) ui_elements).
  assert (forall c, c ∈ sort_by snd cands ->
            fst c ∈ ui_elements /\ candidate_of tl kw (fst c) = Some c) as Hmem.
  { intros c Hc. rewrite sort_by_perm in Hc. apply candidates_elem in Hc as (e0 & He0 & Hc).
    destruct c as [e p]. destruct (candidate_of_element _ _ _ _ _ Hc) as [-> _]. done. }
  destruct cands as [|c0 cs] eqn:Hcands.
  { apply Forall_forall. intros e He. apply bool_decide_eq_false_2. intros [c Hc].
    assert (c ∈ cands) as Hin by (apply candidates_elem; eauto).
    rewrite Hcands in Hin. by apply elem_of_nil in Hin. }
  rewrite <- Hcands in *.
  destruct (find (fun c => is_valid_target (fst c)) (sort_by snd cands)) as [c|] eqn:Hfind.
  - apply find_some in Hfind as [Hin Hvalid]. apply list_elem_of_In in Hin.
    destruct (Hmem c Hin) as [Hel Hc]. split; [done|].
    split; [apply bool_decide_eq_true_2; eauto|]. congruence.
  - destruct (sort_by snd cands) as [|c1 cs1] eqn:Hsorted.
    { exfalso. pose proof (sort_by_perm snd cands) as Hp. rewrite Hsorted, Hcands in Hp.
      by apply Permutation_nil_cons in Hp. }
    cbn [head option_map]. destruct (Hmem c1 ltac:(by left)) as [Hel Hc].
    split; [done|]. split; [apply bool_decide_eq_true_2; eauto|].
    intros _ e' He' Hcons. apply bool_decide_eq_true_1 in Hcons as [c' Hc'].
    assert (c' ∈ c1 :: cs1) as Hin.
    { rewrite <- Hsorted, sort_by_perm. apply candidates_elem. eauto. }
    destruct c' as [e'' p']. destruct (candidate_of_element _ _ _ _ _ Hc') as [-> _].
    apply list_elem_of_In in Hin.
    exact (find_none _ _ Hfind _ Hin).
Qed.

(** X30.  An exact match wins: when some element that is a valid target
    has the target as its text, letter case apart, the search returns a
    valid target whose text or label is the target, letter case apart,
    even if elements that merely contain the target or share a keyword
    with it come first in the list. *)
Theorem find_element_prefers_exact (target : str) (ui_elements : list UIElement.t)
    (element : UIElement.t) :
  element ∈ ui_elements ->
  exact_match target element = true ->
  is_valid_target element = true ->
  exists e,
    _find_element_by_target_simple target ui_elements = Some e
    /\ e ∈ ui_elements
    /\ is_valid_target e = true
    /\ exact_text_or_label target e = true.
Proof.
  intros Hel Hexact Hvalid.
  unfold _find_element_by_target_simple. cbv zeta.
  set (kw := _extract_keywords (lower target)).
  set (cands := omap (candidate_of (lower target) kw) ui_elements).
  assert (candidate_of (lower target) kw element = Some (element, 1)) as Hc.
  { apply candidate_exact. unfold exact_text_or_label. by rewrite Hexact. }
  assert ((element, 1) ∈ cands) as Hin by (apply candidates_elem; eauto).
  destruct cands as [|c0 cs] eqn:Hcands; [by apply elem_of_nil in Hin|].
  rewrite <- Hcands in *.
  assert ((element, 1) ∈ sort_by snd cands) as Hin' by (by rewrite sort_by_perm).
  destruct (find (fun c => is_valid_target (fst c)) (sort_by snd cands)) as [c|] eqn:Hfind.
  - pose proof (find_sorted_least snd _ _ _ (sort_by_sorted snd cands) Hfind
                  (element, 1) Hin' Hvalid) as Hle. cbn [snd] in Hle.
    apply find_some in Hfind as [Hcin Hcvalid]. apply list_elem_of_In in Hcin.
    rewrite sort_by_perm in Hcin. apply candidates_elem in Hcin as (e0 & He0 & Hc0).
    destruct c as [e p]. destruct (candidate_of_element _ _ _ _ _ Hc0) as [-> Hp].
    cbn [snd fst] in *. assert (p = 1) as -> by lia.
    exists e0. split; [done|split; [done|split; [done|]]].
    by apply (candidate_exact target kw).
  - exfalso. apply list_elem_of_In in Hin'.
    pose proof (find_none _ _ Hfind _ Hin') as Hn. cbn [fst] in Hn. congruence.
Qed.

End Search.

Section SearchWitnesses.
Import UIElement PyMore ElementSearch SearchNotions Index.

(** "My Settings" contains the target and comes first; "settings" is the
    target, letter case apart. *)
Lemma find_element_prefers_exact_witness :
  let elements := [button "My Settings" (10, 300); button "settings" (10, 200)] in
  exists e,
    _find_element_by_target_simple (py "Settings") elements = Some e
    /\ e ∈ elements
    /\ is_valid_target e = true
    /\ exact_text_or_label (py "Settings") e = true.
Proof.
  intros elements.
  apply (find_element_prefers_exact (py "Settings") elements (button "settings" (10, 200))).
  - apply list_elem_of_lookup_2 with 1%nat. reflexivity.
  - reflexivity.
  - reflexivity.
Defined.

End SearchWitnesses.
